(** * Domain availability checker: validator, DoH classifier, orchestrator

    A shallow embedding of [services/domainCheckerService.ts] and of the
    check-orchestration part of [App.tsx], with the properties of the
    specification proved (or refuted) against it.

    Conventions of the embedding.
    - A JavaScript string is a sequence of code units; the embedding keeps
      the code units below 256 (Latin-1), one [ascii] per code unit.
    - A JavaScript [number] that holds a DNS response code, an HTTP status,
      a counter or a clock reading in milliseconds is a [Z].
    - Values follow the TypeScript declarations of the source
      ([DohQueryResult], [DomainCheckOutcome], [ProcessedTldResult], ...);
      an optional field [f?: T] is an [option T].  Where the source lets a
      value escape its declaration, the embedding follows the value: a
      parsed body is [any] (module [Untyped] beside the typed
      [DomainCheckerService]), and a cell's [status] and [reason] hold
      whatever the flush copies into them ([CellStatus], [ReasonValue]).
    - An object literal used as a map inherits from [Object.prototype];
      lookups and assignments follow the prototype chain ([Grouped]).
    - Exceptions and promise rejections are explicit ([Completion]). *)

From Stdlib Require Import ZArith Lia Bool Ascii String.
From Stdlib Require Import Sorting.Sorted Sorting.Permutation.
From stdpp Require Import gmap strings list pretty.

#[local] Open Scope string_scope.
#[local] Open Scope list_scope.

(** ** JavaScript string primitives used by the source *)

Module Js.

Definition code (c : ascii) : N := N_of_ascii c.

Definition inRange (lo hi : N) (c : ascii) : bool :=
  ((lo <=? code c) && (code c <=? hi))%N.

Definition isDigit : ascii -> bool := inRange 48 57.
Definition isLower : ascii -> bool := inRange 97 122.
Definition isUpper : ascii -> bool := inRange 65 90.

(** Upper-case letters of Latin-1 outside ASCII: U+00C0..U+00DE but U+00D7. *)
Definition isUpperLatin1 (c : ascii) : bool :=
  inRange 192 222 c && negb (code c =? 215)%N.

(** JavaScript WhiteSpace and LineTerminator code units below 256. *)
Definition isWhiteSpace (c : ascii) : bool :=
  inRange 9 13 c || (code c =? 32)%N || (code c =? 160)%N.

Definition toLowerChar (c : ascii) : ascii :=
  if isUpper c || isUpperLatin1 c then ascii_of_N (code c + 32) else c.

(** [s.toLowerCase()] *)
Fixpoint toLowerCase (s : string) : string :=
  match s with
  | EmptyString => EmptyString
  | String c s' => String (toLowerChar c) (toLowerCase s')
  end.

Fixpoint trimStart (s : string) : string :=
  match s with
  | EmptyString => EmptyString
  | String c s' => if isWhiteSpace c then trimStart s' else s
  end.

Fixpoint trimEnd (s : string) : string :=
  match s with
  | EmptyString => EmptyString
  | String c s' =>
      match trimEnd s' with
      | EmptyString => if isWhiteSpace c then EmptyString else String c EmptyString
      | t => String c t
      end
  end.

(** [s.trim()] *)
Definition trim (s : string) : string := trimEnd (trimStart s).

(** [s.startsWith(p)] *)
Definition startsWith (s p : string) : bool := String.prefix p s.

(** [s.endsWith(p)] *)
Definition endsWith (s p : string) : bool :=
  let n := String.length s in
  let m := String.length p in
  (m <=? n)%nat && String.eqb (String.substring (n - m) m s) p.

(** [s.includes(p)] *)
Fixpoint includes (s p : string) : bool :=
  String.prefix p s ||
  match s with
  | EmptyString => false
  | String _ s' => includes s' p
  end.

(** [s.split(sep)] for a separator of one code unit. *)
Fixpoint split (sep : ascii) (s : string) : list string :=
  match s with
  | EmptyString => [EmptyString]
  | String c s' =>
      if Ascii.eqb c sep then EmptyString :: split sep s'
      else match split sep s' with
           | [] => [String c EmptyString]
           | w :: ws => String c w :: ws
           end
  end.

(** [a.join(sep)] *)
Definition join (sep : string) (l : list string) : string := String.concat sep l.

(** [s.indexOf(c)] for one code unit; [-1] when absent. *)
Fixpoint indexOf (c : ascii) (s : string) : Z :=
  match s with
  | EmptyString => -1
  | String d s' =>
      if Ascii.eqb d c then 0
      else let i := indexOf c s' in if (i <? 0)%Z then -1 else (i + 1)%Z
  end.

(** [s.substring(0, e)]: a negative end is taken as 0, a large one as the length. *)
Definition substringTo (s : string) (e : Z) : string :=
  String.substring 0 (Z.to_nat (Z.max 0 e)) s.

Fixpoint every (p : ascii -> bool) (s : string) : bool :=
  match s with
  | EmptyString => true
  | String c s' => p c && every p s'
  end.

Definition some (p : ascii -> bool) (s : string) : bool := negb (every (fun c => negb (p c)) s).

(** Last code unit of a non-empty string. *)
Fixpoint lastChar (c : ascii) (s : string) : ascii :=
  match s with
  | EmptyString => c
  | String d s' => lastChar d s'
  end.

(** All code units but the last. *)
Fixpoint initChars (c : ascii) (s : string) : string :=
  match s with
  | EmptyString => EmptyString
  | String d s' => String c (initChars d s')
  end.

(** [x.toString()] / template conversion of an integral number below
    [10^21] in magnitude, the range in which JavaScript prints every digit;
    DNS response codes and HTTP statuses lie in it. *)
Definition numberToString (z : Z) : string := pretty z.

(** Truthiness of a string: only the empty string is falsy. *)
Definition truthy (s : string) : bool := negb (String.eqb s EmptyString).

(** [a.filter((v, i, self) => self.indexOf(v) === i)]: keep first occurrences. *)
Fixpoint uniqueGo (seen : list string) (l : list string) : list string :=
  match l with
  | [] => []
  | x :: l' =>
      if bool_decide (x ∈ seen) then uniqueGo seen l'
      else x :: uniqueGo (x :: seen) l'
  end.
Definition unique (l : list string) : list string := uniqueGo [] l.

End Js.

(** ** [services/domainCheckerService.ts] *)

Inductive DomainStatus := CHECKING | AVAILABLE | TAKEN | INVALID | IDLE.

#[global] Instance DomainStatus_eq_dec : EqDecision DomainStatus.
Proof. solve_decision. Defined.

(** [DomainCheckOutcome] of [types.ts]. *)
Record DomainCheckOutcome := mkOutcome {
  o_status : DomainStatus;
  o_reason : option string
}.

(** Return value of [isValidDomainFormat]: [{ valid: boolean; reason?: string }]. *)
Record Validation := mkValidation {
  valid : bool;
  v_reason : option string
}.

Module Validator.

Definition dot : ascii := "."%char.
Definition hyphen : ascii := "-"%char.

(** The class [[a-z0-9.-]] under the [i] flag. *)
Definition isDomainChar (c : ascii) : bool :=
  Js.isLower c || Js.isUpper c || Js.isDigit c || Ascii.eqb c dot || Ascii.eqb c hyphen.

(** [/[^a-z0-9.-]/i.test(s)] *)
Definition hasInvalidChar (s : string) : bool := Js.some (fun c => negb (isDomainChar c)) s.

(** [/^[0-9]+$/.test(s)] *)
Definition allDigits (s : string) : bool :=
  negb (String.eqb s EmptyString) && Js.every Js.isDigit s.

Definition badLabelLength (label : string) : bool :=
  (String.length label =? 0)%nat || (63 <? String.length label)%nat.

Definition hyphenEdge (label : string) : bool :=
  Js.startsWith label "-" || Js.endsWith label "-".

(** [labels[labels.length - 1]]; [split] never returns an empty array. *)
Definition lastLabel (labels : list string) : string := List.last labels EmptyString.

Definition isValidDomainFormat (domain : string) : Validation :=
  if String.eqb domain EmptyString then
    mkValidation false (Some "Domain must be a string.")
  else
    let normalizedDomain := Js.trim (Js.toLowerCase domain) in
    if (String.length normalizedDomain <? 3)%nat || (253 <? String.length normalizedDomain)%nat then
      mkValidation false (Some "Domain length must be between 3 and 253 characters.")
    else if negb (Js.includes normalizedDomain ".") || Js.startsWith normalizedDomain "."
            || Js.endsWith normalizedDomain "." then
      mkValidation false (Some "Domain must contain at least one dot, not at the start or end.")
    else if hasInvalidChar normalizedDomain then
      mkValidation false
        (Some "Domain contains invalid characters. Only alphanumeric, dots, and hyphens allowed.")
    else if Js.includes normalizedDomain ".." then
      mkValidation false (Some "Domain cannot contain consecutive dots.")
    else
      let labels := Js.split dot normalizedDomain in
      if existsb badLabelLength labels then
        mkValidation false
          (Some "Each part of the domain (label) must be between 1 and 63 characters.")
      else if existsb hyphenEdge labels then
        mkValidation false (Some "Labels cannot start or end with a hyphen.")
      else
        let tld := lastLabel labels in
        if allDigits tld && (0 <? String.length tld)%nat then
          mkValidation false (Some "Top-level domain (TLD) appears invalid (e.g., all numeric).")
        else if (String.length tld <? 2)%nat then
          mkValidation false (Some "Top-level domain (TLD) must be at least 2 characters long.")
        else mkValidation true None.

End Validator.

(** *** Completions: normal return or throw / rejection *)

(** A thrown value: [err instanceof Error] with its [message], or anything else. *)
Inductive Thrown :=
| ErrorObject (message : string)
| NotAnError.

Inductive Completion (A : Type) :=
| Normal (a : A)
| Abrupt (e : Thrown).
Arguments Normal {A} a.
Arguments Abrupt {A} e.

Definition cbind {A B} (c : Completion A) (k : A -> Completion B) : Completion B :=
  match c with
  | Normal a => k a
  | Abrupt e => Abrupt e
  end.

(** [try { body } catch (err) { handler(err) }] *)
Definition tryCatch {A} (body : Completion A) (handler : Thrown -> Completion A) : Completion A :=
  match body with
  | Normal a => Normal a
  | Abrupt e => handler e
  end.

#[global] Instance Completion_ret : MRet Completion := @Normal.
#[global] Instance Completion_bind : MBind Completion := fun A B k c => cbind c k.

Fixpoint sequence {A} (l : list (Completion A)) : Completion (list A) :=
  match l with
  | [] => Normal []
  | c :: l' => a ← c; r ← sequence l'; Normal (a :: r)
  end.

(** *** The network as seen through [fetch] *)

(** Parsed DoH JSON body of the shape the declarations assume: the
    [Status] code, an integral number below [10^21] in magnitude, and
    the [Answer] array, both optional.  Bodies of any other shape are
    the subject of module [Untyped]. *)
Record DnsJson := mkDnsJson {
  Status : option Z;
  Answer : option (list string)
}.

(** What [fetch] resolves with: [status], [statusText] and the outcome of
    [response.json()], which throws on malformed JSON and yields [None] for
    the JSON text [null]. *)
Record Response := mkResponse {
  status : Z;
  statusText : string;
  json : Completion (option DnsJson)
}.

(** [response.ok] *)
Definition ok (r : Response) : bool := ((200 <=? status r) && (status r <=? 299))%Z.

(** One reply per requested URL. *)
Definition Network := string -> Completion Response.

(** A pending asynchronous computation: the requests it has put on the wire
    and how it settles once the network has answered them. *)
Record Promise (A : Type) := mkPromise {
  requests : list string;
  settle : Network -> Completion A
}.
Arguments mkPromise {A} requests settle.
Arguments requests {A} p.
Arguments settle {A} p net.

(** [Promise.all]: every request is in flight at once; rejects as soon as one
    member rejects. *)
Definition PromiseAll {A} (ps : list (Promise A)) : Promise (list A) :=
  mkPromise (concat (map requests ps))
            (fun net => sequence (map (fun p => settle p net) ps)).

(** [await p; k] *)
Definition andThen {A B} (p : Promise A) (k : A -> Completion B) : Promise B :=
  mkPromise (requests p) (fun net => a ← settle p net; k a).

(** An already settled promise. *)
Definition resolved {A} (a : A) : Promise A := mkPromise [] (fun _ => Normal a).

Module DomainCheckerService.

Inductive RecordType := A_ | NS_.

Definition recordTypeName (t : RecordType) : string :=
  match t with A_ => "A" | NS_ => "NS" end.

(** *** [encodeURIComponent] on Latin-1 code units *)

Definition hexDigit (n : N) : ascii :=
  if (n <? 10)%N then ascii_of_N (48 + n) else ascii_of_N (55 + n).

Definition percent (byte : N) : string :=
  String "%"%char (String (hexDigit (byte / 16)) (String (hexDigit (byte mod 16)) EmptyString)).

Definition isUnreserved (c : ascii) : bool :=
  Js.isLower c || Js.isUpper c || Js.isDigit c ||
  bool_decide (c ∈ ["-"; "_"; "."; "!"; "~"; "*"; "'"; "("; ")"]%char).

Definition encodeChar (c : ascii) : string :=
  if isUnreserved c then String c EmptyString
  else if (Js.code c <? 128)%N then percent (Js.code c)
  else percent (192 + Js.code c / 64) +:+ percent (128 + Js.code c mod 64).

Fixpoint encodeURIComponent (s : string) : string :=
  match s with
  | EmptyString => EmptyString
  | String c s' => encodeChar c +:+ encodeURIComponent s'
  end.

Record DohProvider := mkProvider {
  name : string;
  urlPattern : string -> RecordType -> string
}.

Record DohQueryResult := mkResult {
  providerName : string;
  recordType : RecordType;
  dnsStatus : option Z;
  data : option DnsJson;
  error : option string
}.

Definition providers : list DohProvider :=
  [ mkProvider "Cloudflare"
      (fun domain recordType =>
         "https://cloudflare-dns.com/dns-query?name=" +:+ encodeURIComponent domain
         +:+ "&type=" +:+ recordTypeName recordType);
    mkProvider "Google"
      (fun domain recordType =>
         "https://dns.google/resolve?name=" +:+ encodeURIComponent domain
         +:+ "&type=" +:+ recordTypeName recordType) ].

(** Message of the [TypeError] raised by [responseData.Status] on [null];
    the wording is the engine's. *)
Definition nullStatusMessage : string :=
  "Cannot read properties of null (reading 'Status')".

(** [responseData?.Status] *)
Definition optStatus (responseData : option DnsJson) : option Z :=
  match responseData with
  | None => None
  | Some d => Status d
  end.

(** [responseData.Status]: throws on [null]. *)
Definition getStatus (responseData : option DnsJson) : Completion (option Z) :=
  match responseData with
  | None => Abrupt (ErrorObject nullStatusMessage)
  | Some d => Normal (Status d)
  end.

Definition makeDohQuery (provider : DohProvider) (domain : string) (recordType : RecordType)
  : Promise DohQueryResult :=
  let url := urlPattern provider domain recordType in
  mkPromise [url] (fun net =>
    tryCatch
      (response ← net url;
       responseData ← json response;
       if negb (ok response) then
         Normal (mkResult (name provider) recordType
                   (optStatus responseData) None
                   (Some ("HTTP error " +:+ Js.numberToString (status response)
                          +:+ " " +:+ statusText response)))
       else
         st ← getStatus responseData;
         Normal (mkResult (name provider) recordType st responseData None))
      (fun err =>
         let message :=
           match err with
           | ErrorObject m => m
           | NotAnError => "Network/JSON error"
           end in
         Normal (mkResult (name provider) recordType None None (Some message)))).

(** The three accumulators of the [results.forEach] loop. *)
Record Tally := mkTally {
  takenReasons : list string;
  allQueriesReportNxDomain : bool;
  allQueryDetails : list string
}.

(** [(res.data?.Answer?.length ?? 0) > 0] *)
Definition hasRecords (res : DohQueryResult) : bool :=
  match data res with
  | Some d => match Answer d with
              | Some l => (0 <? length l)%nat
              | None => false
              end
  | None => false
  end.

(** [res.error ? ... : ...]: the empty message is falsy. *)
Definition errorText (res : DohQueryResult) : option string :=
  match error res with
  | Some e => if Js.truthy e then Some e else None
  | None => None
  end.

Definition tallyOne (t : Tally) (res : DohQueryResult) : Tally :=
  let detailPrefix := providerName res +:+ " " +:+ recordTypeName (recordType res) +:+ "-query" in
  match dnsStatus res with
  | Some 0%Z =>
      mkTally
        (takenReasons t ++
           [detailPrefix +:+ ": NOERROR" +:+
              (if hasRecords res then " (has records)"
               else " (no specific records, e.g., parked)")])
        false
        (allQueryDetails t)
  | Some 3%Z =>
      mkTally (takenReasons t) (allQueriesReportNxDomain t)
        (allQueryDetails t ++ [detailPrefix +:+ ": NXDOMAIN"])
  | other =>
      mkTally (takenReasons t) false
        (allQueryDetails t ++
           [detailPrefix +:+ ": " +:+
              match errorText res with
              | Some e => "Error (" +:+ e +:+ ")"
              | None => "Status " +:+
                  match other with
                  | None => "Unknown"
                  | Some n => Js.numberToString n
                  end
              end])
  end.

Definition tally (results : list DohQueryResult) : Tally :=
  fold_left tallyOne results (mkTally [] true []).

(** [d => !takenReasons.some(tr => d.startsWith(tr.substring(0, tr.indexOf(':'))))] *)
Definition notCoveredBy (takenReasons : list string) (d : string) : bool :=
  negb (existsb (fun tr => Js.startsWith d (Js.substringTo tr (Js.indexOf ":" tr))) takenReasons).

Definition classify (results : list DohQueryResult) : DomainCheckOutcome :=
  let t := tally results in
  if (0 <? length (takenReasons t))%nat then
    mkOutcome TAKEN
      (Some ("Taken because: " +:+ Js.join "; " (takenReasons t) +:+ ". Other details: "
             +:+ Js.join "; " (List.filter (notCoveredBy (takenReasons t)) (allQueryDetails t))))
  else if allQueriesReportNxDomain t then
    mkOutcome AVAILABLE
      (Some ("All providers reported NXDOMAIN for A & NS records. Details: "
             +:+ Js.join "; " (allQueryDetails t)))
  else
    mkOutcome TAKEN
      (Some ("Availability ambiguous, assuming taken. Details: "
             +:+ Js.join "; " (allQueryDetails t))).

(** [providers.forEach(p => { push(A); push(NS) })] *)
Definition queryPromises (domain : string) : list (Promise DohQueryResult) :=
  flat_map (fun provider =>
              [makeDohQuery provider domain A_; makeDohQuery provider domain NS_])
           providers.

Definition checkDomain (domain : string) : Promise DomainCheckOutcome :=
  let validation := Validator.isValidDomainFormat domain in
  if negb (valid validation) then
    resolved (mkOutcome INVALID (v_reason validation))
  else
    andThen (PromiseAll (queryPromises domain)) (fun results => Normal (classify results)).

(** The four query results [checkDomain] classifies, when none of the
    queries rejects. *)
Definition queryResults (domain : string) (net : Network) : Completion (list DohQueryResult) :=
  settle (PromiseAll (queryPromises domain)) net.

End DomainCheckerService.

(** ** [services/domainCheckerService.ts] on bodies of any shape

    [response.json()] is typed [any], and so is the [data] field that
    holds its result: a body need not have the shape of [DnsJson].  This
    module embeds [makeDohQuery] and [checkDomain] once more, for a body
    described by what the code reads off it.  [DomainCheckerService] is
    the restriction of this module to replies of the declared shape
    ([checkDomain_on_declared_shape]). *)

Module Untyped.
Import DomainCheckerService.

(** A [Status] value as the code reads it: compared with [0], [3] and
    [undefined] by [===], and spliced into a template literal. *)
Inductive StatusValue :=
| Absent
    (* [undefined]: no [Status] property *)
| Code (n : Z)
    (* an integral number that prints in decimal *)
| Other (printed : Completion string).
    (* any other value ([null], a string, an array, an object, another
       number): [printed] is what the template literal makes of it, its
       text or the exception its conversion to a string raises *)

(** A parsed body other than [null].  [hasAnswers] is the outcome of
    [(data?.Answer?.length ?? 0) > 0] on it: a boolean, or the exception
    the comparison raises when [length] is an object that has no
    primitive value. *)
Record Body := mkBody {
  statusField : StatusValue;
  hasAnswers : Completion bool
}.

(** What [fetch] resolves with; [parsed] is the outcome of
    [response.json()], [None] for the JSON text [null]. *)
Record Reply := mkReply {
  httpStatus : Z;
  httpStatusText : string;
  parsed : Completion (option Body)
}.

Definition replyOk (r : Reply) : bool := ((200 <=? httpStatus r) && (httpStatus r <=? 299))%Z.

(** One reply per requested URL. *)
Definition Replies := string -> Completion Reply.

Record Result := mkUntypedResult {
  q_providerName : string;
  q_recordType : RecordType;
  q_dnsStatus : StatusValue;
  q_data : option Body;
  q_error : option string
}.

(** [responseData?.Status] *)
Definition optStatus (responseData : option Body) : StatusValue :=
  match responseData with
  | None => Absent
  | Some d => statusField d
  end.

(** [responseData.Status]: throws on [null]. *)
Definition getStatus (responseData : option Body) : Completion StatusValue :=
  match responseData with
  | None => Abrupt (ErrorObject nullStatusMessage)
  | Some d => Normal (statusField d)
  end.

(** How the promise of [makeDohQuery] settles on the replies [net]. *)
Definition makeDohQuery (provider : DohProvider) (domain : string) (recordType : RecordType)
    (net : Replies) : Completion Result :=
  let url := urlPattern provider domain recordType in
  tryCatch
    (response ← net url;
     responseData ← parsed response;
     if negb (replyOk response) then
       Normal (mkUntypedResult (name provider) recordType
                 (optStatus responseData) None
                 (Some ("HTTP error " +:+ Js.numberToString (httpStatus response)
                        +:+ " " +:+ httpStatusText response)))
     else
       st ← getStatus responseData;
       Normal (mkUntypedResult (name provider) recordType st responseData None))
    (fun err =>
       let message :=
         match err with
         | ErrorObject m => m
         | NotAnError => "Network/JSON error"
         end in
       Normal (mkUntypedResult (name provider) recordType Absent None (Some message))).

(** [(res.data?.Answer?.length ?? 0) > 0] *)
Definition hasRecords (res : Result) : Completion bool :=
  match q_data res with
  | Some d => hasAnswers d
  | None => Normal false
  end.

(** [res.error ? ... : ...]: the empty message is falsy. *)
Definition errorText (res : Result) : option string :=
  match q_error res with
  | Some e => if Js.truthy e then Some e else None
  | None => None
  end.

(** [`${res.dnsStatus === undefined ? 'Unknown' : res.dnsStatus}`] *)
Definition printedStatus (st : StatusValue) : Completion string :=
  match st with
  | Absent => Normal "Unknown"
  | Code n => Normal (Js.numberToString n)
  | Other printed => printed
  end.

(** Body of [results.forEach]; an exception leaves the loop. *)
Definition tallyOne (t : Tally) (res : Result) : Completion Tally :=
  let detailPrefix :=
    q_providerName res +:+ " " +:+ recordTypeName (q_recordType res) +:+ "-query" in
  match q_dnsStatus res with
  | Code 0%Z =>
      has ← hasRecords res;
      Normal (mkTally
                (takenReasons t ++
                   [detailPrefix +:+ ": NOERROR" +:+
                      (if has : bool then " (has records)"
                       else " (no specific records, e.g., parked)")])
                false
                (allQueryDetails t))
  | Code 3%Z =>
      Normal (mkTally (takenReasons t) (allQueriesReportNxDomain t)
                (allQueryDetails t ++ [detailPrefix +:+ ": NXDOMAIN"]))
  | other =>
      text ← match errorText res with
             | Some e => Normal ("Error (" +:+ e +:+ ")")
             | None => printed ← printedStatus other; Normal ("Status " +:+ printed)
             end;
      Normal (mkTally (takenReasons t) false
                (allQueryDetails t ++ [detailPrefix +:+ ": " +:+ text]))
  end.

Fixpoint tallyFrom (t : Tally) (results : list Result) : Completion Tally :=
  match results with
  | [] => Normal t
  | res :: results' => t' ← tallyOne t res; tallyFrom t' results'
  end.

Definition tally (results : list Result) : Completion Tally :=
  tallyFrom (mkTally [] true []) results.

(** The three [return] statements after the loop. *)
Definition outcomeOf (t : Tally) : DomainCheckOutcome :=
  if (0 <? length (takenReasons t))%nat then
    mkOutcome TAKEN
      (Some ("Taken because: " +:+ Js.join "; " (takenReasons t) +:+ ". Other details: "
             +:+ Js.join "; " (List.filter (notCoveredBy (takenReasons t)) (allQueryDetails t))))
  else if allQueriesReportNxDomain t then
    mkOutcome AVAILABLE
      (Some ("All providers reported NXDOMAIN for A & NS records. Details: "
             +:+ Js.join "; " (allQueryDetails t)))
  else
    mkOutcome TAKEN
      (Some ("Availability ambiguous, assuming taken. Details: "
             +:+ Js.join "; " (allQueryDetails t))).

Definition classify (results : list Result) : Completion DomainCheckOutcome :=
  t ← tally results; Normal (outcomeOf t).

(** The four queries, in the order they are pushed. *)
Definition queryCompletions (domain : string) (net : Replies) : list (Completion Result) :=
  flat_map (fun provider =>
              [makeDohQuery provider domain A_ net; makeDohQuery provider domain NS_ net])
           providers.

(** How the promise of [checkDomain] settles on the replies [net]:
    [Abrupt] is a rejection. *)
Definition checkDomain (domain : string) (net : Replies) : Completion DomainCheckOutcome :=
  let validation := Validator.isValidDomainFormat domain in
  if negb (valid validation) then
    Normal (mkOutcome INVALID (v_reason validation))
  else
    results ← sequence (queryCompletions domain net);
    classify results.

(** *** Replies of the declared shape, read as replies of any shape *)

Definition ofStatus (st : option Z) : StatusValue :=
  match st with
  | Some n => Code n
  | None => Absent
  end.

Definition ofJson (d : DnsJson) : Body :=
  mkBody (ofStatus (Status d))
         (Normal match Answer d with
                 | Some l => (0 <? length l)%nat
                 | None => false
                 end).

Definition ofResponse (r : Response) : Reply :=
  mkReply (status r) (statusText r)
          (cbind (json r) (fun body => Normal (ofJson <$> body))).

Definition ofNetwork (net : Network) : Replies :=
  fun url => cbind (net url) (fun r => Normal (ofResponse r)).

Definition ofResult (r : DohQueryResult) : Result :=
  mkUntypedResult (providerName r) (recordType r) (ofStatus (dnsStatus r))
                  (ofJson <$> data r) (error r).

End Untyped.

(** ** [App.tsx]: grid, batcher and orchestrator *)

Module App.

Inductive Direction := ascending | descending.

#[global] Instance Direction_eq_dec : EqDecision Direction.
Proof. solve_decision. Defined.

Record SortConfig := mkSortConfig {
  key : string;
  direction : Direction
}.

Record PendingCellUpdate := mkUpdate {
  u_baseName : string;
  u_tld : string;
  u_status : DomainStatus;
  u_reason : option string
}.

(** The [{ status, reason }] value stored per cell. *)
Definition CellUpdate : Type := DomainStatus * option string.

(** What the [status] field of a cell holds at run time.  It is declared
    [DomainStatus]; the flush writes [cellUpdate.status] into it, and
    [cellUpdate] need not be an update: read off a builtin the property
    is [undefined], read off the function [Object] it is whatever the
    flush has put on [Object.status]. *)
Inductive CellStatus :=
| Known (st : DomainStatus)
| NoStatus
| StrayStatus (u : CellUpdate).
Coercion Known : DomainStatus >-> CellStatus.

#[global] Instance CellStatus_eq_dec : EqDecision CellStatus.
Proof. solve_decision. Defined.

(** What the [reason] field of a cell holds when it is not [undefined]. *)
Inductive ReasonValue :=
| Text (s : string)
| StrayReason (u : CellUpdate).
Coercion Text : string >-> ReasonValue.

#[global] Instance ReasonValue_eq_dec : EqDecision ReasonValue.
Proof. solve_decision. Defined.

(** [ProcessedTldResult] of [types.ts]. *)
Record ProcessedTldResult := mkCell {
  c_tld : string;
  c_status : CellStatus;
  c_reason : option ReasonValue;
  c_id : string
}.

(** [ProcessedBaseNameResult] of [types.ts]. *)
Record ProcessedBaseNameResult := mkRow {
  r_baseName : string;
  r_tldResults : list ProcessedTldResult
}.

(** A row object: the code never mutates a row in place, it either hands
    the same object on or allocates a new one, so a row object is its
    address paired with its contents. *)
Record RowObj := mkObj {
  addr : nat;
  row : ProcessedBaseNameResult
}.

Definition statusOrder (s : DomainStatus) : Z :=
  match s with
  | AVAILABLE => 0
  | CHECKING => 1
  | IDLE => 2
  | INVALID => 3
  | TAKEN => 4
  end.

Definition BATCH_UPDATE_INTERVAL : Z := 300.

(** One entry of [domainsToProcess]. *)
Record DomainToProcess := mkItem {
  d_baseName : string;
  d_tld : string;
  d_fullDomain : string
}.

(** The promise chain [checkDomain(..).then(..).catch(..).finally(..)] of
    one item: first the [then]/[catch] handler runs, later the [finally]
    handler. *)
Inductive Phase := AwaitingCheck | AwaitingFinally | Finished.

#[global] Instance Phase_eq_dec : EqDecision Phase.
Proof. solve_decision. Defined.

Record CheckTask := mkTask {
  item : DomainToProcess;
  phase : Phase
}.

(** How an updater passed to [setGridResults] can end short of a new grid. *)
Inductive Halt :=
| TypeErrorThrown
    (* a strict-mode assignment to a read-only property, or the use of an
       accessor that throws: React has no error boundary here and takes
       the component down *)
| OutsideModel.
    (* the updater replaces a builtin of the page or reaches one the
       embedding does not describe *)

#[global] Instance Halt_eq_dec : EqDecision Halt.
Proof. solve_decision. Defined.

(** State of the component ([useState] values and [useRef] cells) and of
    its environment: armed interval timers, the allocation counters, the
    promise chains launched so far, the requests put on the wire and the
    properties the flush has put on the function [Object].
    [timeTaken] holds the elapsed milliseconds that the source formats
    with [toFixed(2)].  [halted] is set when an updater ends short; the
    model stops there. *)
Record AppState := mkApp {
  baseNamesInput : string;
  tldsInput : string;
  gridResults : list RowObj;
  parsedTldsForTable : list string;
  isLoading : bool;
  errorMessage : option string;
  timeTaken : option Z;
  sortConfig : option SortConfig;
  startTimeRef : option Z;
  pendingCellUpdatesRef : list PendingCellUpdate;
  flushIntervalRef : option nat;
  completedChecksRef : Z;
  totalChecksRef : Z;
  liveIntervals : list nat;
  nextInterval : nat;
  nextObject : nat;
  tasks : list CheckTask;
  wire : list string;
  objectProperties : gmap string CellUpdate;
  halted : option Halt
}.

(** Assignment to one field of the state. *)
Definition set_baseNamesInput (v : string) (s : AppState) : AppState :=
    mkApp v (tldsInput s) (gridResults s) (parsedTldsForTable s) (isLoading s)
      (errorMessage s) (timeTaken s) (sortConfig s) (startTimeRef s)
      (pendingCellUpdatesRef s) (flushIntervalRef s) (completedChecksRef s)
      (totalChecksRef s) (liveIntervals s) (nextInterval s) (nextObject s) (tasks s)
      (wire s) (objectProperties s) (halted s).

Definition set_tldsInput (v : string) (s : AppState) : AppState :=
    mkApp (baseNamesInput s) v (gridResults s) (parsedTldsForTable s) (isLoading s)
      (errorMessage s) (timeTaken s) (sortConfig s) (startTimeRef s)
      (pendingCellUpdatesRef s) (flushIntervalRef s) (completedChecksRef s)
      (totalChecksRef s) (liveIntervals s) (nextInterval s) (nextObject s) (tasks s)
      (wire s) (objectProperties s) (halted s).

Definition set_gridResults (v : list RowObj) (s : AppState) : AppState :=
    mkApp (baseNamesInput s) (tldsInput s) v (parsedTldsForTable s) (isLoading s)
      (errorMessage s) (timeTaken s) (sortConfig s) (startTimeRef s)
      (pendingCellUpdatesRef s) (flushIntervalRef s) (completedChecksRef s)
      (totalChecksRef s) (liveIntervals s) (nextInterval s) (nextObject s) (tasks s)
      (wire s) (objectProperties s) (halted s).

Definition set_parsedTldsForTable (v : list string) (s : AppState) : AppState :=
    mkApp (baseNamesInput s) (tldsInput s) (gridResults s) v (isLoading s)
      (errorMessage s) (timeTaken s) (sortConfig s) (startTimeRef s)
      (pendingCellUpdatesRef s) (flushIntervalRef s) (completedChecksRef s)
      (totalChecksRef s) (liveIntervals s) (nextInterval s) (nextObject s) (tasks s)
      (wire s) (objectProperties s) (halted s).

Definition set_isLoading (v : bool) (s : AppState) : AppState :=
    mkApp (baseNamesInput s) (tldsInput s) (gridResults s) (parsedTldsForTable s) v
      (errorMessage s) (timeTaken s) (sortConfig s) (startTimeRef s)
      (pendingCellUpdatesRef s) (flushIntervalRef s) (completedChecksRef s)
      (totalChecksRef s) (liveIntervals s) (nextInterval s) (nextObject s) (tasks s)
      (wire s) (objectProperties s) (halted s).

Definition set_errorMessage (v : option string) (s : AppState) : AppState :=
    mkApp (baseNamesInput s) (tldsInput s) (gridResults s) (parsedTldsForTable s)
      (isLoading s) v (timeTaken s) (sortConfig s) (startTimeRef s)
      (pendingCellUpdatesRef s) (flushIntervalRef s) (completedChecksRef s)
      (totalChecksRef s) (liveIntervals s) (nextInterval s) (nextObject s) (tasks s)
      (wire s) (objectProperties s) (halted s).

Definition set_timeTaken (v : option Z) (s : AppState) : AppState :=
    mkApp (baseNamesInput s) (tldsInput s) (gridResults s) (parsedTldsForTable s)
      (isLoading s) (errorMessage s) v (sortConfig s) (startTimeRef s)
      (pendingCellUpdatesRef s) (flushIntervalRef s) (completedChecksRef s)
      (totalChecksRef s) (liveIntervals s) (nextInterval s) (nextObject s) (tasks s)
      (wire s) (objectProperties s) (halted s).

Definition set_sortConfig (v : option SortConfig) (s : AppState) : AppState :=
    mkApp (baseNamesInput s) (tldsInput s) (gridResults s) (parsedTldsForTable s)
      (isLoading s) (errorMessage s) (timeTaken s) v (startTimeRef s)
      (pendingCellUpdatesRef s) (flushIntervalRef s) (completedChecksRef s)
      (totalChecksRef s) (liveIntervals s) (nextInterval s) (nextObject s) (tasks s)
      (wire s) (objectProperties s) (halted s).

Definition set_startTimeRef (v : option Z) (s : AppState) : AppState :=
    mkApp (baseNamesInput s) (tldsInput s) (gridResults s) (parsedTldsForTable s)
      (isLoading s) (errorMessage s) (timeTaken s) (sortConfig s) v
      (pendingCellUpdatesRef s) (flushIntervalRef s) (completedChecksRef s)
      (totalChecksRef s) (liveIntervals s) (nextInterval s) (nextObject s) (tasks s)
      (wire s) (objectProperties s) (halted s).

Definition set_pendingCellUpdatesRef (v : list PendingCellUpdate) (s : AppState) : AppState :=
    mkApp (baseNamesInput s) (tldsInput s) (gridResults s) (parsedTldsForTable s)
      (isLoading s) (errorMessage s) (timeTaken s) (sortConfig s) (startTimeRef s) v
      (flushIntervalRef s) (completedChecksRef s) (totalChecksRef s) (liveIntervals s)
      (nextInterval s) (nextObject s) (tasks s) (wire s) (objectProperties s) (halted s).

Definition set_flushIntervalRef (v : option nat) (s : AppState) : AppState :=
    mkApp (baseNamesInput s) (tldsInput s) (gridResults s) (parsedTldsForTable s)
      (isLoading s) (errorMessage s) (timeTaken s) (sortConfig s) (startTimeRef s)
      (pendingCellUpdatesRef s) v (completedChecksRef s) (totalChecksRef s)
      (liveIntervals s) (nextInterval s) (nextObject s) (tasks s) (wire s)
      (objectProperties s) (halted s).

Definition set_completedChecksRef (v : Z) (s : AppState) : AppState :=
    mkApp (baseNamesInput s) (tldsInput s) (gridResults s) (parsedTldsForTable s)
      (isLoading s) (errorMessage s) (timeTaken s) (sortConfig s) (startTimeRef s)
      (pendingCellUpdatesRef s) (flushIntervalRef s) v (totalChecksRef s)
      (liveIntervals s) (nextInterval s) (nextObject s) (tasks s) (wire s)
      (objectProperties s) (halted s).

Definition set_totalChecksRef (v : Z) (s : AppState) : AppState :=
    mkApp (baseNamesInput s) (tldsInput s) (gridResults s) (parsedTldsForTable s)
      (isLoading s) (errorMessage s) (timeTaken s) (sortConfig s) (startTimeRef s)
      (pendingCellUpdatesRef s) (flushIntervalRef s) (completedChecksRef s) v
      (liveIntervals s) (nextInterval s) (nextObject s) (tasks s) (wire s)
      (objectProperties s) (halted s).

Definition set_liveIntervals (v : list nat) (s : AppState) : AppState :=
    mkApp (baseNamesInput s) (tldsInput s) (gridResults s) (parsedTldsForTable s)
      (isLoading s) (errorMessage s) (timeTaken s) (sortConfig s) (startTimeRef s)
      (pendingCellUpdatesRef s) (flushIntervalRef s) (completedChecksRef s)
      (totalChecksRef s) v (nextInterval s) (nextObject s) (tasks s) (wire s)
      (objectProperties s) (halted s).

Definition set_nextInterval (v : nat) (s : AppState) : AppState :=
    mkApp (baseNamesInput s) (tldsInput s) (gridResults s) (parsedTldsForTable s)
      (isLoading s) (errorMessage s) (timeTaken s) (sortConfig s) (startTimeRef s)
      (pendingCellUpdatesRef s) (flushIntervalRef s) (completedChecksRef s)
      (totalChecksRef s) (liveIntervals s) v (nextObject s) (tasks s) (wire s)
      (objectProperties s) (halted s).

Definition set_nextObject (v : nat) (s : AppState) : AppState :=
    mkApp (baseNamesInput s) (tldsInput s) (gridResults s) (parsedTldsForTable s)
      (isLoading s) (errorMessage s) (timeTaken s) (sortConfig s) (startTimeRef s)
      (pendingCellUpdatesRef s) (flushIntervalRef s) (completedChecksRef s)
      (totalChecksRef s) (liveIntervals s) (nextInterval s) v (tasks s) (wire s)
      (objectProperties s) (halted s).

Definition set_tasks (v : list CheckTask) (s : AppState) : AppState :=
    mkApp (baseNamesInput s) (tldsInput s) (gridResults s) (parsedTldsForTable s)
      (isLoading s) (errorMessage s) (timeTaken s) (sortConfig s) (startTimeRef s)
      (pendingCellUpdatesRef s) (flushIntervalRef s) (completedChecksRef s)
      (totalChecksRef s) (liveIntervals s) (nextInterval s) (nextObject s) v (wire s)
      (objectProperties s) (halted s).

Definition set_wire (v : list string) (s : AppState) : AppState :=
    mkApp (baseNamesInput s) (tldsInput s) (gridResults s) (parsedTldsForTable s)
      (isLoading s) (errorMessage s) (timeTaken s) (sortConfig s) (startTimeRef s)
      (pendingCellUpdatesRef s) (flushIntervalRef s) (completedChecksRef s)
      (totalChecksRef s) (liveIntervals s) (nextInterval s) (nextObject s) (tasks s) v
      (objectProperties s) (halted s).

Definition set_objectProperties (v : gmap string CellUpdate) (s : AppState) : AppState :=
    mkApp (baseNamesInput s) (tldsInput s) (gridResults s) (parsedTldsForTable s)
      (isLoading s) (errorMessage s) (timeTaken s) (sortConfig s) (startTimeRef s)
      (pendingCellUpdatesRef s) (flushIntervalRef s) (completedChecksRef s)
      (totalChecksRef s) (liveIntervals s) (nextInterval s) (nextObject s) (tasks s)
      (wire s) v (halted s).

Definition set_halted (v : option Halt) (s : AppState) : AppState :=
    mkApp (baseNamesInput s) (tldsInput s) (gridResults s) (parsedTldsForTable s)
      (isLoading s) (errorMessage s) (timeTaken s) (sortConfig s) (startTimeRef s)
      (pendingCellUpdatesRef s) (flushIntervalRef s) (completedChecksRef s)
      (totalChecksRef s) (liveIntervals s) (nextInterval s) (nextObject s) (tasks s)
      (wire s) (objectProperties s) v.

(** Statements of a handler are applied left to right. *)
Notation "s |> f" := (f s) (at level 45, left associativity, only parsing).

(** *** Object literals and what they inherit *)

(** The property names of [Object.prototype]: every object literal
    answers to them. *)
Definition objectPrototypeNames : list string :=
  [ "constructor"; "hasOwnProperty"; "isPrototypeOf"; "propertyIsEnumerable";
    "toLocaleString"; "toString"; "valueOf";
    "__defineGetter__"; "__defineSetter__"; "__lookupGetter__"; "__lookupSetter__";
    "__proto__" ].

(** An inherited name other than [constructor]: its value is a builtin
    method, or [Object.prototype] itself for [__proto__]. *)
Definition builtinName (k : string) : bool :=
  negb (String.eqb k "constructor") && bool_decide (k ∈ objectPrototypeNames).

(** The properties the function [Object] answers to before the flush
    adds any (ECMAScript 2024), by what an assignment to them does. *)
Inductive Builtin :=
| ReadOnly
    (* own and not writable: the assignment throws in strict code *)
| Poisoned
    (* an accessor of [Function.prototype] that throws on get and on set *)
| Replaceable.
    (* a writable data property, own or inherited, most of them methods
       the page and its libraries call: the assignment replaces it on
       [Object] *)

Definition objectProperty (k : string) : option Builtin :=
  if bool_decide (k ∈ ["length"; "name"; "prototype"]) then Some ReadOnly
  else if bool_decide (k ∈ ["arguments"; "caller"]) then Some Poisoned
  else if bool_decide
            (k ∈ [ "assign"; "create"; "defineProperties"; "defineProperty"; "entries";
                   "freeze"; "fromEntries"; "getOwnPropertyDescriptor";
                   "getOwnPropertyDescriptors"; "getOwnPropertyNames";
                   "getOwnPropertySymbols"; "getPrototypeOf"; "groupBy"; "hasOwn"; "is";
                   "isExtensible"; "isFrozen"; "isSealed"; "keys"; "preventExtensions";
                   "seal"; "setPrototypeOf"; "values";
                   "apply"; "bind"; "call" ]
             ++ objectPrototypeNames)
       then Some Replaceable
  else None.

(** *** The update batcher *)

(** A step of an updater: a value, or the reason it ends short. *)
Inductive Updater (A : Type) :=
| Done (a : A)
| Stopped (why : Halt).
Arguments Done {A} a.
Arguments Stopped {A} why.

(** The object literal [updatesByBaseName] while the loop fills it: its
    own properties, each an object literal of its own, and the
    properties of the function [Object], which the literal inherits as
    [constructor]. *)
Record Grouped := mkGrouped {
  own : gmap string (gmap string CellUpdate);
  onObject : gmap string CellUpdate
}.

(** [target[tld] = { status, reason }] on an object literal: an own
    property is created or replaced; [__proto__] is the setter that
    swaps the prototype. *)
Definition assignOwn (rowUpdates : gmap string CellUpdate) (tld : string) (v : CellUpdate)
  : Updater (gmap string CellUpdate) :=
  if String.eqb tld "__proto__" then Stopped OutsideModel
  else Done (<[tld := v]> rowUpdates).

(** [Object[tld] = { status, reason }] in strict code: a new property,
    or a [TypeError].  Where the assignment would replace a builtin, the
    course of the page is not followed further. *)
Definition assignOnObject (properties : gmap string CellUpdate) (tld : string) (v : CellUpdate)
  : Updater (gmap string CellUpdate) :=
  if String.eqb tld "__proto__" then Stopped OutsideModel
  else match objectProperty tld with
       | Some ReadOnly | Some Poisoned => Stopped TypeErrorThrown
       | Some Replaceable => Stopped OutsideModel
       | None => Done (<[tld := v]> properties)
       end.

(** Body of [updatesToApply.forEach]:
    [if (!updatesByBaseName[b]) updatesByBaseName[b] = {};
     updatesByBaseName[b][t] = { status, reason }].
    For [b = "constructor"] the lookup finds the function [Object], which
    is truthy: no record is created and the assignment lands on [Object]. *)
Definition groupOne (updatesByBaseName : Grouped) (update : PendingCellUpdate)
  : Updater Grouped :=
  let v := (u_status update, u_reason update) in
  match own updatesByBaseName !! u_baseName update with
  | Some rowUpdates =>
      match assignOwn rowUpdates (u_tld update) v with
      | Done rowUpdates' =>
          Done (mkGrouped (<[u_baseName update := rowUpdates']> (own updatesByBaseName))
                          (onObject updatesByBaseName))
      | Stopped why => Stopped why
      end
  | None =>
      if String.eqb (u_baseName update) "constructor" then
        match assignOnObject (onObject updatesByBaseName) (u_tld update) v with
        | Done properties => Done (mkGrouped (own updatesByBaseName) properties)
        | Stopped why => Stopped why
        end
      else if builtinName (u_baseName update) then Stopped OutsideModel
      else
        match assignOwn ∅ (u_tld update) v with
        | Done rowUpdates' =>
            Done (mkGrouped (<[u_baseName update := rowUpdates']> (own updatesByBaseName))
                            (onObject updatesByBaseName))
        | Stopped why => Stopped why
        end
  end.

(** [updatesToApply.forEach(..)]: what the loop has written when it ends,
    and why it ended early if it did. *)
Fixpoint groupUpdates (updatesByBaseName : Grouped) (updatesToApply : list PendingCellUpdate)
  : Grouped * option Halt :=
  match updatesToApply with
  | [] => (updatesByBaseName, None)
  | update :: rest =>
      match groupOne updatesByBaseName update with
      | Done g => groupUpdates g rest
      | Stopped why => (updatesByBaseName, Some why)
      end
  end.

(** The value of [updatesByBaseName[row.baseName]] when it is truthy. *)
Inductive RowUpdates :=
| Literal (properties : gmap string CellUpdate)
| TheObjectFunction.

Definition rowUpdatesOf (updatesByBaseName : Grouped) (baseName : string)
  : Updater (option RowUpdates) :=
  match own updatesByBaseName !! baseName with
  | Some properties => Done (Some (Literal properties))
  | None =>
      if String.eqb baseName "constructor" then Done (Some TheObjectFunction)
      else if builtinName baseName then Stopped OutsideModel
      else Done None
  end.

(** The value of [rowUpdates[cell.tld]]. *)
Inductive Found :=
| AnUpdate (v : CellUpdate)
    (* an update object: an own property of the literal, or a property
       the flush has put on [Object] *)
| TheObject
    (* the function [Object], which a literal inherits as [constructor] *)
| ABuiltin
    (* another builtin value, all of them truthy: a method, the name or
       the length of [Object], a prototype object *)
| Nothing.
    (* [undefined] *)

Definition lookupIn (updatesByBaseName : Grouped) (rowUpdates : RowUpdates) (tld : string)
  : Updater Found :=
  match rowUpdates with
  | Literal properties =>
      match properties !! tld with
      | Some v => Done (AnUpdate v)
      | None =>
          if String.eqb tld "constructor" then Done TheObject
          else if bool_decide (tld ∈ objectPrototypeNames) then Done ABuiltin
          else Done Nothing
      end
  | TheObjectFunction =>
      match onObject updatesByBaseName !! tld with
      | Some v => Done (AnUpdate v)
      | None =>
          match objectProperty tld with
          | Some Poisoned => Stopped TypeErrorThrown
          | Some ReadOnly | Some Replaceable => Done ABuiltin
          | None => Done Nothing
          end
      end
  end.

(** [cellUpdate.status] *)
Definition statusOf (updatesByBaseName : Grouped) (cellUpdate : Found) : CellStatus :=
  match cellUpdate with
  | AnUpdate v => Known (fst v)
  | TheObject =>
      match onObject updatesByBaseName !! "status" with
      | Some u => StrayStatus u
      | None => NoStatus
      end
  | ABuiltin | Nothing => NoStatus
  end.

(** [cellUpdate.reason] *)
Definition reasonOf (updatesByBaseName : Grouped) (cellUpdate : Found) : option ReasonValue :=
  match cellUpdate with
  | AnUpdate v => Text <$> snd v
  | TheObject => StrayReason <$> onObject updatesByBaseName !! "reason"
  | ABuiltin | Nothing => None
  end.

(** Body of [row.tldResults.map]: the cell, and whether it was rewritten. *)
Definition applyToCell (updatesByBaseName : Grouped) (rowUpdates : RowUpdates)
    (cell : ProcessedTldResult) : Updater (ProcessedTldResult * bool) :=
  match lookupIn updatesByBaseName rowUpdates (c_tld cell) with
  | Done Nothing => Done (cell, false)
  | Done cellUpdate =>
      Done (mkCell (c_tld cell) (statusOf updatesByBaseName cellUpdate)
                   (reasonOf updatesByBaseName cellUpdate) (c_id cell), true)
  | Stopped why => Stopped why
  end.

(** [row.tldResults.map(..)] with the flag [hasChanged] it sets. *)
Fixpoint applyToCells (updatesByBaseName : Grouped) (rowUpdates : RowUpdates)
    (cells : list ProcessedTldResult) : Updater (list ProcessedTldResult * bool) :=
  match cells with
  | [] => Done ([], false)
  | cell :: cells' =>
      match applyToCell updatesByBaseName rowUpdates cell with
      | Done (cell', changed) =>
          match applyToCells updatesByBaseName rowUpdates cells' with
          | Done (rest, hasChanged) => Done (cell' :: rest, changed || hasChanged)
          | Stopped why => Stopped why
          end
      | Stopped why => Stopped why
      end
  end.

(** Body of [prevResults.map]; [next] is the next free object address. *)
Definition applyToRow (updatesByBaseName : Grouped) (next : nat) (r : RowObj)
  : Updater (nat * RowObj) :=
  match rowUpdatesOf updatesByBaseName (r_baseName (row r)) with
  | Done None => Done (next, r)
  | Done (Some rowUpdates) =>
      match applyToCells updatesByBaseName rowUpdates (r_tldResults (row r)) with
      | Done (newTldResults, hasChanged) =>
          if hasChanged
          then Done (S next, mkObj next (mkRow (r_baseName (row r)) newTldResults))
          else Done (next, r)
      | Stopped why => Stopped why
      end
  | Stopped why => Stopped why
  end.

Fixpoint applyToRows (updatesByBaseName : Grouped) (next : nat) (rows : list RowObj)
  : Updater (nat * list RowObj) :=
  match rows with
  | [] => Done (next, [])
  | r :: rows' =>
      match applyToRow updatesByBaseName next r with
      | Done (next1, r') =>
          match applyToRows updatesByBaseName next1 rows' with
          | Done (next2, rs') => Done (next2, r' :: rs')
          | Stopped why => Stopped why
          end
      | Stopped why => Stopped why
      end
  end.

(** The buffer is taken and emptied, then the updater runs: it groups
    the updates, which can leave properties on [Object], and maps the
    grid.  When it ends short the grid is not replaced. *)
Definition flushPendingCellUpdates (s : AppState) : AppState :=
  if (length (pendingCellUpdatesRef s) =? 0)%nat then s
  else
    let updatesToApply := pendingCellUpdatesRef s in
    let s := set_pendingCellUpdatesRef [] s in
    let '(updatesByBaseName, stopped) :=
      groupUpdates (mkGrouped ∅ (objectProperties s)) updatesToApply in
    let s := set_objectProperties (onObject updatesByBaseName) s in
    match stopped with
    | Some why => set_halted (Some why) s
    | None =>
        match applyToRows updatesByBaseName (nextObject s) (gridResults s) with
        | Done (next, rows) => s |> set_gridResults rows |> set_nextObject next
        | Stopped why => set_halted (Some why) s
        end
    end.

(** *** Timers *)

Definition clearInterval (t : nat) (s : AppState) : AppState :=
  set_liveIntervals (filter (fun x => x ≠ t) (liveIntervals s)) s.

(** [window.setInterval]: handles are positive. *)
Definition setInterval (s : AppState) : nat * AppState :=
  let t := S (nextInterval s) in
  (t, s |> set_liveIntervals (liveIntervals s ++ [t]) |> set_nextInterval t).

(** [if (flushIntervalRef.current) { clearInterval(..); .. = null }] *)
Definition stopFlushInterval (s : AppState) : AppState :=
  match flushIntervalRef s with
  | Some t => if (t =? 0)%nat then s
              else s |> clearInterval t |> set_flushIntervalRef None
  | None => s
  end.

Definition clearAsyncOperations (s : AppState) : AppState :=
  s |> stopFlushInterval
    |> set_pendingCellUpdatesRef []
    |> set_completedChecksRef 0
    |> set_totalChecksRef 0.

Definition handleClear (s : AppState) : AppState :=
  s |> set_baseNamesInput ""
    |> set_tldsInput ""
    |> set_gridResults []
    |> set_parsedTldsForTable []
    |> set_isLoading false
    |> set_errorMessage None
    |> set_timeTaken None
    |> set_startTimeRef None
    |> set_sortConfig None
    |> clearAsyncOperations.

(** *** Input validation of [handleSubmit] *)

Definition isAlnum (c : ascii) : bool := Js.isLower c || Js.isUpper c || Js.isDigit c.

(** [/^[a-z0-9](?:[inner]{0,61}[a-z0-9])?$/i.test(s)] *)
Definition matchesLabel (inner : ascii -> bool) (s : string) : bool :=
  match s with
  | EmptyString => false
  | String c rest =>
      isAlnum c &&
      match rest with
      | EmptyString => true
      | String d rest' =>
          (String.length (Js.initChars d rest') <=? 61)%nat
          && Js.every inner (Js.initChars d rest')
          && isAlnum (Js.lastChar d rest')
      end
  end.

Definition isValidBaseName (name : string) : bool :=
  if Js.includes name "." then false
  else if Js.startsWith name "-" || Js.endsWith name "-" then false
  else matchesLabel (fun c => isAlnum c || Ascii.eqb c "-") name.

Definition isValidTld (tld : string) : bool :=
  if Js.startsWith tld "." || Js.endsWith tld "." then false
  else if Js.includes tld ".." then false
  else if (String.length tld <? 2)%nat then false
  else matchesLabel Validator.isDomainChar tld
       && negb (Validator.allDigits (List.last (Js.split "." tld) EmptyString)).

Definition newline : ascii := ascii_of_N 10.
Definition tab : ascii := ascii_of_N 9.

(** [s.replace(/[, \t]+/g, '\n')]; [inRun] tells that the previous code
    unit belonged to the run being replaced. *)
Fixpoint replaceDelimiters (inRun : bool) (s : string) : string :=
  match s with
  | EmptyString => EmptyString
  | String c s' =>
      if Ascii.eqb c "," || Ascii.eqb c " " || Ascii.eqb c tab then
        if inRun then replaceDelimiters true s'
        else String newline (replaceDelimiters true s')
      else String c (replaceDelimiters false s')
  end.

Definition nonEmpty (s : string) : bool := (0 <? String.length s)%nat.

Definition parseBaseNames (baseNamesInput : string) : list string :=
  Js.unique
    (List.filter nonEmpty
       (map (fun d => Js.toLowerCase (Js.trim d))
            (Js.split newline (replaceDelimiters false baseNamesInput)))).

Definition parseTlds (tldsInput : string) : list string :=
  Js.unique
    (List.filter nonEmpty
       (map (fun t => Js.toLowerCase (Js.trim t)) (Js.split "," tldsInput))).

(** The guards of [handleSubmit] that precede any state of a run: the
    error message to show, or the two lists to combine. *)
Definition validateInputs (uniqueBaseNames uniqueTlds : list string) : option string :=
  if (length uniqueBaseNames =? 0)%nat then Some "Please enter at least one base name."
  else if (length uniqueTlds =? 0)%nat then Some "Please enter at least one TLD."
  else
    let invalidBaseNames := List.filter (fun n => negb (isValidBaseName n)) uniqueBaseNames in
    if (0 <? length invalidBaseNames)%nat then
      Some ("Invalid base name(s): " +:+ Js.join ", " invalidBaseNames
            +:+ ". Base names cannot contain dots and must be valid DNS labels.")
    else
      let invalidTlds := List.filter (fun t => negb (isValidTld t)) uniqueTlds in
      if (0 <? length invalidTlds)%nat then
        Some ("Invalid TLD(s): " +:+ Js.join ", " invalidTlds
              +:+ ". TLDs must be valid (e.g., com, co.uk).")
      else None.

(** *** [handleSubmit] *)

(** [uniqueBaseNames.map(base => ({ baseName, tldResults: uniqueTlds.map(..) }))];
    [ids k] is the value of the [k]-th call of [generateUniqueId], which
    reads the clock and [Math.random]. *)
Definition initialGridResults (ids : nat -> string) (next : nat)
    (uniqueBaseNames uniqueTlds : list string) : list RowObj :=
  imap (fun i base =>
          mkObj (next + i)
            (mkRow base
               (imap (fun j tld => mkCell tld CHECKING None (ids (i * length uniqueTlds + j)))
                     uniqueTlds)))
       uniqueBaseNames.

Definition domainsToProcess (uniqueBaseNames uniqueTlds : list string) : list DomainToProcess :=
  flat_map (fun base => map (fun tld => mkItem base tld (base +:+ "." +:+ tld)) uniqueTlds)
           uniqueBaseNames.

(** [domainsToProcess.forEach(item => checkDomain(item.fullDomain).then(..)..)]:
    each call puts its requests on the wire at once and leaves a promise
    chain behind. *)
Definition launchChecks (items : list DomainToProcess) (s : AppState) : AppState :=
  s |> set_wire (wire s ++
                 flat_map (fun it => requests (DomainCheckerService.checkDomain (d_fullDomain it)))
                          items)
    |> set_tasks (tasks s ++ map (fun it => mkTask it AwaitingCheck) items).

Definition handleSubmit (now : Z) (ids : nat -> string) (s0 : AppState) : AppState :=
  let s := s0 |> set_errorMessage None
              |> set_gridResults []
              |> set_parsedTldsForTable []
              |> set_timeTaken None
              |> set_startTimeRef None
              |> set_sortConfig None
              |> clearAsyncOperations in
  let uniqueBaseNames := parseBaseNames (baseNamesInput s) in
  let uniqueTlds := parseTlds (tldsInput s) in
  match validateInputs uniqueBaseNames uniqueTlds with
  | Some message => s |> set_errorMessage (Some message)
  | None =>
      let grid := initialGridResults ids (nextObject s) uniqueBaseNames uniqueTlds in
      let items := domainsToProcess uniqueBaseNames uniqueTlds in
      let s := s |> set_isLoading true
                 |> set_parsedTldsForTable uniqueTlds
                 |> set_startTimeRef (Some now)
                 |> set_gridResults grid
                 |> set_nextObject (nextObject s + length grid)
                 |> set_totalChecksRef (Z.of_nat (length items))
                 |> set_completedChecksRef 0 in
      if (50000 <? totalChecksRef s)%Z then
        s |> set_errorMessage
               (Some "Generated more than 50,000 domain combinations. Please reduce base names or TLDs.")
          |> set_isLoading false
          |> set_gridResults []
          |> set_parsedTldsForTable []
          |> set_startTimeRef None
          |> clearAsyncOperations
      else if (totalChecksRef s =? 0)%Z then
        s |> set_errorMessage (Some "No valid domain combinations to check.")
          |> set_isLoading false
          |> set_startTimeRef None
          |> clearAsyncOperations
      else
        let '(t, s) := setInterval s in
        s |> set_flushIntervalRef (Some t)
          |> launchChecks items
  end.

(** *** Handlers of one promise chain *)

Definition push (u : PendingCellUpdate) (s : AppState) : AppState :=
  set_pendingCellUpdatesRef (pendingCellUpdatesRef s ++ [u]) s.

(** [.then(checkOutcome => ..)] *)
Definition onFulfilled (it : DomainToProcess) (checkOutcome : DomainCheckOutcome)
  : PendingCellUpdate :=
  mkUpdate (d_baseName it) (d_tld it) (o_status checkOutcome) (o_reason checkOutcome).

(** [.catch(error => ..)] *)
Definition onRejected (it : DomainToProcess) : PendingCellUpdate :=
  mkUpdate (d_baseName it) (d_tld it) INVALID (Some "Error during check").

(** The update pushed when the [checkDomain] promise of [it] settles on
    the replies [net]. *)
Definition settledUpdate (it : DomainToProcess) (net : Untyped.Replies) : PendingCellUpdate :=
  match Untyped.checkDomain (d_fullDomain it) net with
  | Normal checkOutcome => onFulfilled it checkOutcome
  | Abrupt _ => onRejected it
  end.

(** [.finally(() => ..)] *)
Definition onFinally (now : Z) (s : AppState) : AppState :=
  let s := set_completedChecksRef (completedChecksRef s + 1) s in
  if (completedChecksRef s =? totalChecksRef s)%Z then
    let s := s |> stopFlushInterval |> flushPendingCellUpdates |> set_isLoading false in
    match startTimeRef s with
    | Some start => if (start =? 0)%Z then s else set_timeTaken (Some (now - start)%Z) s
    | None => s
    end
  else s.

Definition setPhase (i : nat) (p : Phase) (s : AppState) : AppState :=
  match tasks s !! i with
  | Some t => set_tasks (<[i := mkTask (item t) p]> (tasks s)) s
  | None => s
  end.

(** *** Sorting the view *)

(** The numbers the comparator computes with: status ranks, [Infinity]
    for a missing cell, and what subtraction makes of them. *)
Inductive Num := Finite (z : Z) | PosInfinity | NegInfinity | NaN.

Definition minus (a b : Num) : Num :=
  match a, b with
  | NaN, _ | _, NaN => NaN
  | Finite x, Finite y => Finite (x - y)
  | Finite _, PosInfinity => NegInfinity
  | Finite _, NegInfinity => PosInfinity
  | PosInfinity, PosInfinity => NaN
  | PosInfinity, _ => PosInfinity
  | NegInfinity, NegInfinity => NaN
  | NegInfinity, _ => NegInfinity
  end.

(** [Array.prototype.sort] reads a comparator result [v] as "a after b"
    when [v > 0]; [NaN] counts as [0]. *)
Definition positive (v : Num) : bool :=
  match v with
  | Finite z => (0 <? z)%Z
  | PosInfinity => true
  | NegInfinity | NaN => false
  end.

Section Sort.
Context {A : Type} (compareFn : A -> A -> Num).

Fixpoint insertSorted (x : A) (l : list A) : list A :=
  match l with
  | [] => [x]
  | y :: l' => if positive (compareFn x y) then y :: insertSorted x l' else x :: l
  end.

(** [Array.prototype.sort(compareFn)]: the stable sort, which for a
    consistent comparator is the result the language prescribes. *)
Fixpoint sort (l : list A) : list A :=
  match l with
  | [] => []
  | x :: l' => insertSorted x (sort l')
  end.
End Sort.

(** [row.tldResults.find(r => r.tld === key)] *)
Definition findCell (k : string) (r : RowObj) : option ProcessedTldResult :=
  List.find (fun c => String.eqb (c_tld c) k) (r_tldResults (row r)).

(** [statusOrder[status]] as the subtraction reads it: [undefined], the
    answer for a value that is no [DomainStatus], converts to [NaN]. *)
Definition statusRank (status : CellStatus) : Num :=
  match status with
  | Known st => Finite (statusOrder st)
  | NoStatus | StrayStatus _ => NaN
  end.

(** [cell ? statusOrder[cell.status] : Infinity] *)
Definition rank (k : string) (r : RowObj) : Num :=
  match findCell k r with
  | Some cell => statusRank (c_status cell)
  | None => PosInfinity
  end.

Section View.
(** [String.prototype.localeCompare] is the host's collation. *)
Variable localeCompare : string -> string -> Z.

Definition compareRows (cfg : SortConfig) (a b : RowObj) : Num :=
  if String.eqb (key cfg) "baseName"
  then Finite (localeCompare (r_baseName (row a)) (r_baseName (row b)))
  else minus (rank (key cfg) a) (rank (key cfg) b).

Definition sortedAndFilteredResults (filteredResults : list RowObj)
    (cfg : option SortConfig) : list RowObj :=
  let sortableItems := filteredResults in
  match cfg with
  | None => sortableItems
  | Some c =>
      let sorted := sort (compareRows c) sortableItems in
      match direction c with
      | descending => rev sorted
      | ascending => sorted
      end
  end.
End View.

Definition nextSortConfig (current : option SortConfig) (k : string) : SortConfig :=
  match current with
  | Some c =>
      if String.eqb (key c) k && bool_decide (direction c = ascending)
      then mkSortConfig k descending
      else mkSortConfig k ascending
  | None => mkSortConfig k ascending
  end.

Definition handleSortRequest (k : string) (s : AppState) : AppState :=
  set_sortConfig (Some (nextSortConfig (sortConfig s) k)) s.

(** *** The component as a transition system *)

Inductive Event :=
| ChangeBaseNames (text : string)
| ChangeTlds (text : string)
| ClickCheck (now : Z) (ids : nat -> string)
| ClickClear
| ClickSort (k : string)
| IntervalFires (t : nat)
| CheckSettles (i : nat) (net : Untyped.Replies)
| CheckFinally (i : nat) (now : Z).

Definition taskPhase (s : AppState) (i : nat) : option Phase :=
  phase <$> tasks s !! i.

(** No updater has ended short. *)
Definition running (s : AppState) : bool := bool_decide (halted s = None).

(** What the rendered page and the event loop allow in state [s]: the
    inputs and the check button are disabled while loading, the clear
    button only while loading with both inputs empty; an interval fires
    while armed; a promise chain runs its handlers in order.  Nothing
    is followed further once an updater has ended short. *)
Definition enabled (s : AppState) (e : Event) : bool :=
  running s &&
  match e with
  | ChangeBaseNames _ | ChangeTlds _ => negb (isLoading s)
  | ClickCheck now _ =>
      negb (isLoading s) && Js.truthy (Js.trim (baseNamesInput s))
      && Js.truthy (Js.trim (tldsInput s)) && (0 <? now)%Z
  | ClickClear =>
      negb (isLoading s && (String.length (baseNamesInput s) =? 0)%nat
            && (String.length (tldsInput s) =? 0)%nat)
  | ClickSort k =>
      (0 <? length (gridResults s))%nat
      && (String.eqb k "baseName" || bool_decide (k ∈ parsedTldsForTable s))
  | IntervalFires t => bool_decide (t ∈ liveIntervals s)
  | CheckSettles i _ => bool_decide (taskPhase s i = Some AwaitingCheck)
  | CheckFinally i _ => bool_decide (taskPhase s i = Some AwaitingFinally)
  end.

Definition step (s : AppState) (e : Event) : AppState :=
  match e with
  | ChangeBaseNames text => set_baseNamesInput text s
  | ChangeTlds text => set_tldsInput text s
  | ClickCheck now ids => handleSubmit now ids s
  | ClickClear => handleClear s
  | ClickSort k => handleSortRequest k s
  | IntervalFires _ => flushPendingCellUpdates s
  | CheckSettles i net =>
      match tasks s !! i with
      | Some t => s |> push (settledUpdate (item t) net) |> setPhase i AwaitingFinally
      | None => s
      end
  | CheckFinally i now => s |> onFinally now |> setPhase i Finished
  end.

Definition initialState : AppState :=
  mkApp "" "" [] [] false None None None None [] None 0 0 [] 0 0 [] [] ∅ None.

(** States the component can be in. *)
Inductive reachable : AppState -> Prop :=
| reachable_init : reachable initialState
| reachable_step s e : reachable s -> enabled s e = true -> reachable (step s e).

(** Running a script of events; [None] when an event is not enabled. *)
Fixpoint run (s : AppState) (script : list Event) : option AppState :=
  match script with
  | [] => Some s
  | e :: script' => if enabled s e then run (step s e) script' else None
  end.

End App.

(** ** [App.tsx]: filters, summary counters and clipboard text *)

Module AppView.
Import App.

Record FilterOptions := mkFilterOptions {
  baseNameQuery : string;
  hasAvailable : bool;
  noTaken : bool;
  noInvalid : bool;
  bestConsonant : bool
}.

(** The value [filterOptions] starts with and is reset to. *)
Definition noFilter : FilterOptions := mkFilterOptions "" false false false false.

Definition VOWELS : list string := ["a"; "e"; "i"; "o"; "u"].

(** [VOWELS.includes(char.toLowerCase())] *)
Definition isVowel (char : string) : bool := bool_decide (Js.toLowerCase char ∈ VOWELS).

(** [/^[a-z]$/.test(s)] *)
Definition isLetter (s : string) : bool :=
  match s with
  | String c EmptyString => Js.isLower c
  | _ => false
  end.

Definition startsWithConsonant (name : string) : bool :=
  match name with
  | EmptyString => false
  | String c _ =>
      let firstChar := Js.toLowerCase (String c EmptyString) in
      isLetter firstChar && negb (isVowel firstChar)
  end.

Fixpoint hasVowel (name : string) : bool :=
  match name with
  | EmptyString => false
  | String c rest => if isVowel (String c EmptyString) then true else hasVowel rest
  end.

(** [row.tldResults.some(cell => cell.status === st)] *)
Definition someCell (st : DomainStatus) (r : RowObj) : bool :=
  existsb (fun cell => bool_decide (c_status cell = st)) (r_tldResults (row r)).

Definition filteredResults (gridResults : list RowObj) (filterOptions : FilterOptions)
  : list RowObj :=
  let results := gridResults in
  let results :=
    if Js.truthy (baseNameQuery filterOptions) then
      List.filter (fun r => Js.includes (Js.toLowerCase (r_baseName (row r)))
                                        (Js.toLowerCase (baseNameQuery filterOptions)))
                  results
    else results in
  let results :=
    if hasAvailable filterOptions then List.filter (someCell AVAILABLE) results else results in
  let results :=
    if noTaken filterOptions then List.filter (fun r => negb (someCell TAKEN r)) results
    else results in
  let results :=
    if noInvalid filterOptions then List.filter (fun r => negb (someCell INVALID r)) results
    else results in
  let results :=
    if bestConsonant filterOptions then
      List.filter (fun r =>
                     let name := r_baseName (row r) in
                     let startsWithC := startsWithConsonant name in
                     let containsVowel :=
                       if (1 <? String.length name)%nat then hasVowel name else true in
                     startsWithC && containsVowel)
                  results
    else results in
  results.

Definition isAnyFilterActive (filterOptions : FilterOptions) : bool :=
  negb (String.eqb (baseNameQuery filterOptions) "")
  || hasAvailable filterOptions || noTaken filterOptions || noInvalid filterOptions
  || bestConsonant filterOptions.

(** [handleClearFilters]; the filter options are kept beside the state. *)
Definition handleClearFilters (s : AppState) : FilterOptions * AppState :=
  (noFilter, set_sortConfig None s).

(** The four counters of the summary effect. *)
Record StatusCounts := mkCounts {
  availableCount : Z;
  takenCount : Z;
  invalidCount : Z;
  checkingStill : Z
}.

(** The [switch (cell.status)] of the summary effect. *)
Definition countCell (n : StatusCounts) (cell : ProcessedTldResult) : StatusCounts :=
  match c_status cell with
  | Known AVAILABLE =>
      mkCounts (availableCount n + 1) (takenCount n) (invalidCount n) (checkingStill n)
  | Known TAKEN =>
      mkCounts (availableCount n) (takenCount n + 1) (invalidCount n) (checkingStill n)
  | Known INVALID =>
      mkCounts (availableCount n) (takenCount n) (invalidCount n + 1) (checkingStill n)
  | Known CHECKING =>
      mkCounts (availableCount n) (takenCount n) (invalidCount n) (checkingStill n + 1)
  | Known IDLE => n
  | NoStatus | StrayStatus _ => n
  end.

(** [gridResults.forEach(row => row.tldResults.forEach(cell => ..))] *)
Definition countStatuses (gridResults : list RowObj) : StatusCounts :=
  fold_left (fun n r => fold_left countCell (r_tldResults (row r)) n) gridResults
            (mkCounts 0 0 0 0).

Definition currentTotalChecks (s : AppState) : Z :=
  if (0 <? totalChecksRef s)%Z then totalChecksRef s
  else Z.of_nat (length (parsedTldsForTable s) * length (gridResults s)).

(** [sortedAndFilteredResults.map(r => r.baseName).join('\n')] *)
Definition baseNamesToCopy (sortedAndFilteredResults : list RowObj) : string :=
  Js.join (String newline EmptyString)
          (map (fun r => r_baseName (row r)) sortedAndFilteredResults).

End AppView.


Import Validator DomainCheckerService App AppView.

(** ** Vocabulary of the specification *)

(** Code units of a string. *)
Definition chars (s : string) : list ascii := list_ascii_of_string s.

(** The class [[a-z0-9.-]]. *)
Definition inClass (c : ascii) : Prop :=
  Js.isLower c = true \/ Js.isDigit c = true \/ c = "."%char \/ c = "-"%char.

(** A label that is empty, longer than 63 characters, or has a leading or
    trailing hyphen. *)
Definition badLabel (l : string) : Prop :=
  String.length l = 0%nat \/ (63 < String.length l)%nat
  \/ Js.startsWith l "-" = true \/ Js.endsWith l "-" = true.

(** The full-domain strings the specification calls invalid, read on the
    string as the validator normalises it (lower-cased, trimmed): length
    outside [3,253]; no dot, or a leading or trailing dot; a character
    outside [[a-z0-9.-]]; consecutive dots; a bad label; a final label
    shorter than 2 characters or all-numeric. *)
Definition failsFormatValidation (domain : string) : Prop :=
  let s := Js.trim (Js.toLowerCase domain) in
  let labels := Js.split "." s in
  let tld := List.last labels "" in
  (String.length s < 3)%nat \/ (253 < String.length s)%nat
  \/ Js.includes s "." = false \/ Js.startsWith s "." = true \/ Js.endsWith s "." = true
  \/ (exists c, c ∈ chars s /\ ~ inClass c)
  \/ Js.includes s ".." = true
  \/ (exists l, l ∈ labels /\ badLabel l)
  \/ (String.length tld < 2)%nat
  \/ (forall c, c ∈ chars tld -> Js.isDigit c = true).

(** The checks of [isValidDomainFormat], all passed. *)
Definition passesChecks (s : string) : Prop :=
  let labels := Js.split "." s in
  let tld := lastLabel labels in
  ((String.length s <? 3)%nat || (253 <? String.length s)%nat) = false
  /\ (negb (Js.includes s ".") || Js.startsWith s "." || Js.endsWith s ".") = false
  /\ hasInvalidChar s = false
  /\ Js.includes s ".." = false
  /\ existsb badLabelLength labels = false
  /\ existsb hyphenEdge labels = false
  /\ (allDigits tld && (0 <? String.length tld)%nat) = false
  /\ (String.length tld <? 2)%nat = false.

(** A query that fails in transport, at the HTTP level, or while parsing
    the body. *)
Definition queryFails (reply : Completion Response) : Prop :=
  match reply with
  | Abrupt _ => True
  | Normal response =>
      ok response = false \/ match json response with Abrupt _ => True | Normal _ => False end
  end.

(** The update a flush must apply to cell [(b, t)]: the one enqueued last. *)
Fixpoint lastUpdateFor (b t : string) (updates : list PendingCellUpdate) : option CellUpdate :=
  match updates with
  | [] => None
  | u :: updates' =>
      match lastUpdateFor b t updates' with
      | Some x => Some x
      | None =>
          if bool_decide (u_baseName u = b /\ u_tld u = t)
          then Some (u_status u, u_reason u) else None
      end
  end.

(** Some update of [updates] is for row [b]. *)
Definition hasUpdateFor (b : string) (updates : list PendingCellUpdate) : bool :=
  existsb (fun u => String.eqb (u_baseName u) b) updates.

(** A cell that has taken the update [v]. *)
Definition updatedCell (cell : ProcessedTldResult) (v : CellUpdate) : ProcessedTldResult :=
  mkCell (c_tld cell) (Known (fst v)) (Text <$> snd v) (c_id cell).

(** A cell rewritten from a builtin: status and reason are [undefined]. *)
Definition blankedCell (cell : ProcessedTldResult) : ProcessedTldResult :=
  mkCell (c_tld cell) NoStatus None (c_id cell).

(** A cell rewritten from the function [Object] carrying [properties]. *)
Definition objectCell (properties : gmap string CellUpdate) (cell : ProcessedTldResult)
  : ProcessedTldResult :=
  mkCell (c_tld cell)
         match properties !! "status" with
         | Some u => StrayStatus u
         | None => NoStatus
         end
         (StrayReason <$> properties !! "reason") (c_id cell).

(** What a flush of the non-empty buffer [updates] makes of one cell of
    row [b] when its updater runs to the end; [properties] are those of
    [Object] after the flush.  A cell with buffered updates takes the
    last one.  A cell without any is still rewritten when its TLD names
    something its row's updates inherit: in the row named [constructor],
    whose updates are the function [Object] itself, and in any row with
    updates, under a TLD that is a property name of [Object.prototype]. *)
Definition flushedCell (properties : gmap string CellUpdate)
    (updates : list PendingCellUpdate) (b : string) (cell : ProcessedTldResult)
  : ProcessedTldResult :=
  if String.eqb b "constructor" then
    match properties !! c_tld cell with
    | Some v => updatedCell cell v
    | None =>
        match objectProperty (c_tld cell) with
        | Some _ => blankedCell cell
        | None => cell
        end
    end
  else
    match lastUpdateFor b (c_tld cell) updates with
    | Some v => updatedCell cell v
    | None =>
        if negb (hasUpdateFor b updates) then cell
        else if String.eqb (c_tld cell) "constructor" then objectCell properties cell
        else if bool_decide (c_tld cell ∈ objectPrototypeNames) then blankedCell cell
        else cell
    end.

(** The properties of [Object] after a flush of [updates]: the updates
    for the row named [constructor] have landed on it. *)
Definition objectAfter (properties : gmap string CellUpdate)
    (updates : list PendingCellUpdate) (t : string) : option CellUpdate :=
  match lastUpdateFor "constructor" t updates with
  | Some v => Some v
  | None => properties !! t
  end.

Definition lookup2 (m : gmap string (gmap string CellUpdate)) (b t : string)
  : option CellUpdate :=
  m !! b ≫= fun rowUpdates => rowUpdates !! t.

(** The own properties of [updatesByBaseName] are records the grouping
    loop has created: none sits under [constructor] or under the name of
    a builtin. *)
Definition ownRecords (g : Grouped) : Prop :=
  forall b, is_Some (own g !! b) -> b <> "constructor" /\ builtinName b = false.

(** A pair of keys as the validators let them through: the base name is
    no builtin of [Object.prototype] other than [constructor], and the
    TLD is not [__proto__]. *)
Definition modelled (b t : string) : Prop :=
  builtinName b = false /\ t <> "__proto__".


(** A cell whose [status] is no [DomainStatus]. *)
Definition statusless (c : ProcessedTldResult) : bool :=
  match c_status c with
  | Known _ => false
  | NoStatus | StrayStatus _ => true
  end.



(** The armed intervals are exactly the one [flushIntervalRef] holds. *)
Record TimerInv (s : AppState) : Prop := mkTimerInv {
  inv_live : liveIntervals s = match flushIntervalRef s with Some t => [t] | None => [] end;
  inv_handle : forall t, flushIntervalRef s = Some t -> t <> 0%nat
}.

(** Facts that hold in every state the component can reach. *)
Record Inv (s : AppState) : Prop := mkInv {
  inv_completed : (0 <= completedChecksRef s)%Z;
  inv_started :
    totalChecksRef s <> 0%Z -> exists start, startTimeRef s = Some start /\ (0 < start)%Z;
  inv_timer : TimerInv s
}.

(** Promise chains that have not run their [finally] handler yet. *)
Fixpoint unfinished (l : list CheckTask) : Z :=
  match l with
  | [] => 0
  | t :: l' => (if bool_decide (phase t = Finished) then 0 else 1) + unfinished l'
  end%Z.

(** States reached without the clear button. *)
Inductive reachableWithoutClear : AppState -> Prop :=
| uncleared_init : reachableWithoutClear initialState
| uncleared_step s e :
    reachableWithoutClear s -> enabled s e = true -> e <> ClickClear ->
    reachableWithoutClear (step s e).

(** What one promise chain adds to [unfinished]. *)
Definition weight (t : CheckTask) : Z := if bool_decide (phase t = Finished) then 0%Z else 1%Z.

(** The counters account for every promise chain, and none is left when
    the loading flag is off. *)
Definition Balanced (s : AppState) : Prop :=
  (completedChecksRef s + unfinished (tasks s) = totalChecksRef s)%Z
  /\ (isLoading s = false -> unfinished (tasks s) = 0%Z).

(** The DNS status a reply carries: the [Status] field of its body when
    the body parses to an object, whatever the HTTP status. *)
Definition bodyStatus (reply : Completion Response) : option Z :=
  match reply with
  | Normal response =>
      match json response with
      | Normal (Some body) => Status body
      | _ => None
      end
  | Abrupt _ => None
  end.

(** The queries of one check, in the order they are issued. *)
Definition queries : list (DohProvider * RecordType) :=
  flat_map (fun provider => [(provider, A_); (provider, NS_)]) providers.

(** Code units that lower-casing neither changes nor produces. *)
Definition caseless (x : ascii) : Prop := forall c, Js.toLowerChar c = x <-> c = x.

(** Base name of a row, and the TLDs of its cells in their order. *)
Definition rowName (r : RowObj) : string := r_baseName (row r).
Definition rowTlds (r : RowObj) : list string := map c_tld (r_tldResults (row r)).

(** A status that a finished check leaves in a cell. *)
Definition decided (st : DomainStatus) : Prop := st = AVAILABLE \/ st = TAKEN \/ st = INVALID.

(** What [handleSubmit] leaves when it turns a submission down. *)
Definition rejected (s s' : AppState) : Prop :=
  is_Some (errorMessage s')
  /\ gridResults s' = [] /\ parsedTldsForTable s' = []
  /\ pendingCellUpdatesRef s' = []
  /\ tasks s' = tasks s /\ wire s' = wire s
  /\ totalChecksRef s' = 0%Z /\ completedChecksRef s' = 0%Z
  /\ startTimeRef s' = None /\ timeTaken s' = None /\ sortConfig s' = None
  /\ (isLoading s = false -> isLoading s' = false)
  /\ (TimerInv s -> flushIntervalRef s' = None /\ liveIntervals s' = []).

(** What [handleSubmit] leaves when it starts a run. *)
Definition started (now : Z) (ids : nat -> string) (s s' : AppState) : Prop :=
  let uniqueBaseNames := parseBaseNames (baseNamesInput s) in
  let uniqueTlds := parseTlds (tldsInput s) in
  let items := domainsToProcess uniqueBaseNames uniqueTlds in
  errorMessage s' = None /\ isLoading s' = true
  /\ gridResults s' = initialGridResults ids (nextObject s) uniqueBaseNames uniqueTlds
  /\ parsedTldsForTable s' = uniqueTlds
  /\ pendingCellUpdatesRef s' = []
  /\ tasks s' = tasks s ++ map (fun it => mkTask it AwaitingCheck) items
  /\ wire s' = wire s ++ flat_map (fun it => requests (checkDomain (d_fullDomain it))) items
  /\ totalChecksRef s' = Z.of_nat (length items) /\ completedChecksRef s' = 0%Z
  /\ startTimeRef s' = Some now /\ timeTaken s' = None /\ sortConfig s' = None
  /\ flushIntervalRef s' = Some (S (nextInterval s))
  /\ (TimerInv s -> liveIntervals s' = [S (nextInterval s)]).

(** How a flush relates a row to the row that replaces it. *)
Definition flushedRow (properties : gmap string CellUpdate) (us : list PendingCellUpdate)
    (r r' : RowObj) : Prop :=
  rowName r' = rowName r
  /\ r_tldResults (row r')
     = map (flushedCell properties us (rowName r)) (r_tldResults (row r)).

(** The shape every reachable grid has: a rectangle of cells, one row per
    base name and one column per TLD of the header, with no Idle cell;
    only decided statuses wait in the buffer or sit on [Object]; no key
    is the name of a builtin of [Object.prototype] other than
    [constructor]. *)
Record GridInv (s : AppState) : Prop := mkGridInv {
  grid_tlds : NoDup (parsedTldsForTable s);
  grid_names : NoDup (map rowName (gridResults s));
  grid_rect : forall r, r ∈ gridResults s -> rowTlds r = parsedTldsForTable s;
  grid_valid : forall r, r ∈ gridResults s ->
    isValidBaseName (rowName r) = true /\ Js.toLowerCase (rowName r) = rowName r;
  grid_known : forall r c, r ∈ gridResults s -> c ∈ r_tldResults (row r) -> c_status c <> IDLE;
  grid_buffer : forall u, u ∈ pendingCellUpdatesRef s ->
    decided (u_status u) /\ modelled (u_baseName u) (u_tld u);
  grid_object : forall t v, objectProperties s !! t = Some v -> decided (fst v);
  grid_tasks : forall t, t ∈ tasks s -> modelled (d_baseName (item t)) (d_tld (item t));
  grid_total :
    totalChecksRef s = Z.of_nat (length (gridResults s) * length (parsedTldsForTable s));
  grid_ceiling : (totalChecksRef s <= 50000)%Z;
  grid_lower : forall t, t ∈ parsedTldsForTable s -> Js.toLowerCase t = t
}.

(** The flush timer is armed exactly while the loading flag is on. *)
Definition Armed (s : AppState) : Prop :=
  if isLoading s then flushIntervalRef s <> None else flushIntervalRef s = None.

(** Cell [(b, t)] has a result waiting in the buffer. *)
Definition buffered (s : AppState) (b t : string) : Prop :=
  exists u, u ∈ pendingCellUpdatesRef s /\ u_baseName u = b /\ u_tld u = t.

(** Cell [(b, t)] has a check in flight. *)
Definition awaited (s : AppState) (b t : string) : Prop :=
  exists i task, tasks s !! i = Some task /\ phase task = AwaitingCheck
                 /\ d_baseName (item task) = b /\ d_tld (item task) = t.

(** Every cell still shown as Checking has its result in the buffer or
    its check in flight, as long as no updater has ended short. *)
Definition Covered (s : AppState) : Prop :=
  halted s = None ->
  forall r c, r ∈ gridResults s -> c ∈ r_tldResults (row r) -> c_status c = CHECKING ->
    buffered s (rowName r) (c_tld c) \/ awaited s (rowName r) (c_tld c).

(** Nothing is buffered while the loading flag is off. *)
Definition Quiet (s : AppState) : Prop :=
  isLoading s = false -> pendingCellUpdatesRef s = [].

(** What holds as long as the clear button is not used. *)
Record RunInv (s : AppState) : Prop := mkRunInv {
  run_balanced : Balanced s;
  run_covered : Covered s;
  run_quiet : Quiet s
}.

(** The rows a set of filter options lets through. *)
Definition passesFilters (f : FilterOptions) (r : RowObj) : Prop :=
  (baseNameQuery f <> "" ->
     Js.includes (Js.toLowerCase (rowName r)) (Js.toLowerCase (baseNameQuery f)) = true)
  /\ (hasAvailable f = true -> exists c, c ∈ r_tldResults (row r) /\ c_status c = AVAILABLE)
  /\ (noTaken f = true -> forall c, c ∈ r_tldResults (row r) -> c_status c <> TAKEN)
  /\ (noInvalid f = true -> forall c, c ∈ r_tldResults (row r) -> c_status c <> INVALID)
  /\ (bestConsonant f = true ->
        startsWithConsonant (rowName r) = true
        /\ ((1 < String.length (rowName r))%nat -> hasVowel (rowName r) = true)).

(** Number of cells of a grid. *)
Definition cellCount (grid : list RowObj) : nat :=
  list_sum (map (fun r => length (r_tldResults (row r))) grid).

(** Sum of the four counters of the summary. *)
Definition counted (n : StatusCounts) : Z :=
  (availableCount n + takenCount n + invalidCount n + checkingStill n)%Z.

(** Number of such cells in a grid. *)
Definition statuslessCount (grid : list RowObj) : nat :=
  list_sum (map (fun r => length (List.filter statusless (r_tldResults (row r)))) grid).

(** What a settled check says about the pair of a base name and a TLD:
    the status and reason [checkDomain] resolves with for
    [`${base}.${tld}`], or those of the [catch] handler, which can only
    run when the format is valid and the replies are read. *)
Definition verdict (b t : string) (st : DomainStatus) (reason : option string) : Prop :=
  let validation := isValidDomainFormat (b +:+ "." +:+ t) in
  is_Some reason
  /\ if valid validation
     then ((st = AVAILABLE \/ st = TAKEN) /\ reason <> Some "Error during check")
          \/ (st = INVALID /\ reason = Some "Error during check")
     else st = INVALID /\ reason = v_reason validation.

(** Every promise chain checks the pair it reports on, and whatever sits
    in the buffer, on [Object] or in a cell that shows a status other
    than Checking is a verdict on that cell's own pair; a cell on
    Checking or without a status carries no reason text. *)
Record VerdictInv (s : AppState) : Prop := mkVerdictInv {
  verdict_tasks : forall t, t ∈ tasks s ->
    d_fullDomain (item t) = d_baseName (item t) +:+ "." +:+ d_tld (item t);
  verdict_buffer : forall u, u ∈ pendingCellUpdatesRef s ->
    verdict (u_baseName u) (u_tld u) (u_status u) (u_reason u);
  verdict_object : forall t v, objectProperties s !! t = Some v ->
    verdict "constructor" t (fst v) (snd v);
  verdict_cells : forall r c (st : DomainStatus),
    r ∈ gridResults s -> c ∈ r_tldResults (row r) -> c_status c = st -> st <> CHECKING ->
    exists reason, c_reason c = Text <$> reason
                   /\ verdict (rowName r) (c_tld c) st reason;
  verdict_unset : forall r c,
    r ∈ gridResults s -> c ∈ r_tldResults (row r) ->
    c_status c = CHECKING \/ statusless c = true ->
    forall text, c_reason c <> Some (Text text)
}.

(** What the page shows while an error message is up. *)
Definition ErrorView (s : AppState) : Prop :=
  gridResults s = [] /\ parsedTldsForTable s = []
  /\ isLoading s = false /\ timeTaken s = None
  /\ totalChecksRef s = 0%Z /\ (0 <= completedChecksRef s)%Z.

(** ** Concrete scenarios *)

(** A 2xx reply whose body carries DNS status [st]. *)
Definition reply (st : Z) : Completion Response :=
  Normal (mkResponse 200 "OK" (Normal (Some (mkDnsJson (Some st) None)))).


Definition allNxDomain : Network := fun _ => reply 3.
Definition allNoError : Network := fun _ => reply 0.

(** Cloudflare answers NOERROR to the A query for foo.com, every other
    query gets NXDOMAIN. *)
Definition cloudflareANoError : Network := fun url =>
  if String.eqb url "https://cloudflare-dns.com/dns-query?name=foo.com&type=A"
  then reply 0 else reply 3.

Definition someIds (k : nat) : string := "cell-" +:+ pretty k.

(** One run: foo.com submitted at time 1000. *)
Definition fooSubmitted : AppState :=
  step (step (step initialState (ChangeBaseNames "foo")) (ChangeTlds "com"))
       (ClickCheck 1000 someIds).

(** ... and its only check has settled, the [finally] handler still to run. *)
Definition fooSettled : AppState :=
  step fooSubmitted (CheckSettles 0 (Untyped.ofNetwork allNxDomain)).

(** A run cleared while its check is in flight, then the check settles. *)
Definition clearedThenSettled : list Event :=
  [ ChangeBaseNames "foo"; ChangeTlds "com"; ClickCheck 1000 someIds;
    ClickClear;
    CheckSettles 0 (Untyped.ofNetwork allNxDomain); CheckFinally 0 1500 ].

(** A run cleared while its check is in flight, the same domain submitted
    again, then the check of the first run settles with NOERROR. *)
Definition resubmittedThenStaleSettles : list Event :=
  [ ChangeBaseNames "foo"; ChangeTlds "com"; ClickCheck 1000 someIds;
    ClickClear;
    ChangeBaseNames "foo"; ChangeTlds "com"; ClickCheck 2000 someIds;
    CheckSettles 0 (Untyped.ofNetwork allNoError); CheckFinally 0 2500 ].

(** The statuses shown by a grid. *)
Definition shownStatuses (grid : list RowObj) : list (string * list (string * CellStatus)) :=
  map (fun r => (r_baseName (row r),
                 map (fun c => (c_tld c, c_status c)) (r_tldResults (row r)))) grid.

(** [n] names [prefix0], [prefix1], ... joined by [sep]. *)
Definition numbered (prefix sep : string) (n : nat) : string :=
  Js.join sep (map (fun i => prefix +:+ pretty i) (seq 0 n)).

(** 251 base names and 200 TLDs typed in: 50,200 combinations. *)
Definition tooManyTyped : AppState :=
  step (step initialState (ChangeBaseNames (numbered "b" "," 251)))
       (ChangeTlds (numbered "t" "," 200)).

(** A two-row grid with three buffered updates, two of them for one cell. *)
Definition twoRows : list RowObj :=
  [ mkObj 0 (mkRow "foo" [mkCell "com" CHECKING None "cell-0"; mkCell "net" CHECKING None "cell-1"]);
    mkObj 1 (mkRow "bar" [mkCell "com" CHECKING None "cell-2"; mkCell "net" CHECKING None "cell-3"]) ].

Definition bufferedTwice : AppState :=
  initialState
    |> set_gridResults twoRows
    |> set_nextObject 2
    |> set_pendingCellUpdatesRef
         [ mkUpdate "foo" "com" TAKEN (Some "first");
           mkUpdate "foo" "net" AVAILABLE None;
           mkUpdate "foo" "com" AVAILABLE (Some "second") ].

(** A row with a cell for com and a row without one. *)
Definition rowWithCom : RowObj := mkObj 0 (mkRow "foo" [mkCell "com" TAKEN None "cell-0"]).
Definition rowWithoutCom : RowObj := mkObj 1 (mkRow "bar" [mkCell "net" AVAILABLE None "cell-1"]).

Definition byCodeUnits (a b : string) : Z :=
  match String.compare a b with Lt => -1 | Eq => 0 | Gt => 1 end.

(** ... and the [finally] handler of that check has run: the run is over. *)
Definition fooFinished : AppState := step fooSettled (CheckFinally 0 1500).

(** The row the grid shows for foo while its check is in flight. *)
Definition fooRow : RowObj := mkObj 0 (mkRow "foo" [mkCell "com" CHECKING None "cell-0"]).

Definition dohReplies (st : Z) (httpStatus : Z) : Network := fun _ =>
  Normal (mkResponse httpStatus "" (Normal (Some (mkDnsJson (Some st) None)))).

(** Every query gets a 2xx reply with the body
    [{"Status":0,"Answer":{"length":{"valueOf":0,"toString":0}}}]: the
    status is 0, and comparing [Answer.length] with 0 throws a TypeError,
    as the object has neither a callable [valueOf] nor a callable
    [toString]; the message is the engine's. *)
Definition lengthWithoutPrimitive : Untyped.Replies := fun _ =>
  Normal (Untyped.mkReply 200 "OK"
            (Normal (Some (Untyped.mkBody
                             (Untyped.Code 0)
                             (Abrupt (ErrorObject "Cannot convert object to primitive value")))))).

(** foo.com checked against such replies: the check is rejected, the
    [catch] handler reports it, and the run finishes. *)
Definition rejectedFinished : AppState :=
  step (step fooSubmitted (CheckSettles 0 lengthWithoutPrimitive)) (CheckFinally 0 1500).





(** The base names constructor and foo over the TLD name: submitted, and
    the check of foo.name, the second promise chain, has settled. *)
Definition inheritedNames : list Event :=
  [ ChangeBaseNames "constructor foo"; ChangeTlds "name"; ClickCheck 1000 someIds;
    CheckSettles 1 (Untyped.ofNetwork allNxDomain) ].

Definition inheritedSettled : AppState :=
  step (step (step (step initialState (ChangeBaseNames "constructor foo")) (ChangeTlds "name"))
             (ClickCheck 1000 someIds))
       (CheckSettles 1 (Untyped.ofNetwork allNxDomain)).

(** ... the interval has fired, the check of constructor.name has
    settled, and the interval has fired again. *)
Definition inheritedThrown : AppState :=
  step (step (step inheritedSettled (IntervalFires 1))
             (CheckSettles 0 (Untyped.ofNetwork allNxDomain)))
       (IntervalFires 1).

(** A submission turned down: the TLD c has one character. *)
Definition fooRejected : AppState :=
  step (step (step initialState (ChangeBaseNames "foo")) (ChangeTlds "c"))
       (ClickCheck 1000 someIds).

(** * Properties *)

(** ** String predicates *)

Lemma every_spec p s : Js.every p s = true <-> forall c, c ∈ chars s -> p c = true.
Proof.
  induction s as [|a s IH]; simpl.
  - split; [intros _ c Hc; inversion Hc | reflexivity].
  - rewrite andb_true_iff, IH. unfold chars; simpl. split.
    + intros [Ha Hs] c Hc. apply elem_of_cons in Hc as [->|Hc]; auto.
    + intros H. split; [apply H; left | intros c Hc; apply H; right; exact Hc].
Qed.

Lemma every_false p s : Js.every p s = false -> exists c, c ∈ chars s /\ p c = false.
Proof.
  induction s as [|a s IH]; simpl; [discriminate|].
  intros H. apply andb_false_iff in H as [H|H].
  - exists a. split; [left | exact H].
  - destruct (IH H) as (c & Hc & Hp). exists c. split; [right; exact Hc | exact Hp].
Qed.

Lemma some_spec p s : Js.some p s = true <-> exists c, c ∈ chars s /\ p c = true.
Proof.
  unfold Js.some. induction s as [|a s IH]; simpl.
  - split; [discriminate | intros (c & Hc & _); inversion Hc].
  - rewrite negb_andb, orb_true_iff, IH, negb_involutive. unfold chars; simpl. split.
    + intros [Ha | (c & Hc & Hp)];
        [exists a; split; [left | exact Ha] | exists c; split; [right; exact Hc | exact Hp]].
    + intros (c & Hc & Hp).
      apply elem_of_cons in Hc as [->|Hc]; [left; exact Hp | right; eauto].
Qed.

Lemma toLowerChar_not_upper c : Js.isUpper (Js.toLowerChar c) = false.
Proof. destruct c as [[] [] [] [] [] [] [] []]; vm_compute; reflexivity. Qed.

Lemma toLowerCase_no_upper s :
  Js.every (fun c => negb (Js.isUpper c)) (Js.toLowerCase s) = true.
Proof.
  induction s as [|a s IH]; simpl; [reflexivity|].
  rewrite toLowerChar_not_upper, IH. reflexivity.
Qed.

Lemma trimStart_every p s : Js.every p s = true -> Js.every p (Js.trimStart s) = true.
Proof.
  induction s as [|a s IH]; simpl; [auto|].
  intros H. destruct (Js.isWhiteSpace a); [apply IH; apply andb_true_iff in H; tauto | exact H].
Qed.

Lemma trimEnd_every p s : Js.every p s = true -> Js.every p (Js.trimEnd s) = true.
Proof.
  induction s as [|a s IH]; simpl; [auto|].
  intros H. apply andb_true_iff in H as [Ha Hs]. specialize (IH Hs).
  destruct (Js.trimEnd s) as [|b t].
  - destruct (Js.isWhiteSpace a); simpl; [reflexivity | rewrite Ha; reflexivity].
  - simpl in *. rewrite Ha. exact IH.
Qed.

(** The normalised string holds no upper-case ASCII letter, so the [i]
    flag of the validator's character class admits nothing more. *)
Lemma normalized_no_upper d c :
  c ∈ chars (Js.trim (Js.toLowerCase d)) -> Js.isUpper c = false.
Proof.
  intros Hc.
  pose proof (trimEnd_every _ _ (trimStart_every _ _ (toLowerCase_no_upper d))) as H.
  rewrite every_spec in H. specialize (H c Hc). apply negb_true_iff in H. exact H.
Qed.

Lemma inClass_domainChar c : inClass c -> isDomainChar c = true.
Proof.
  unfold inClass, isDomainChar.
  intros [H|[H|[->| ->]]]; rewrite ?H, ?orb_true_r; reflexivity.
Qed.

Lemma domainChar_inClass c : Js.isUpper c = false -> isDomainChar c = true -> inClass c.
Proof.
  unfold inClass, isDomainChar. intros Hu H. rewrite Hu, orb_false_r in H.
  repeat (apply orb_true_iff in H as [H|H]); auto.
  - right; right; left. apply Ascii.eqb_eq in H. exact H.
  - right; right; right. apply Ascii.eqb_eq in H. exact H.
Qed.

Lemma existsb_false_Forall {A} (p : A -> bool) (l : list A) :
  existsb p l = false <-> forall x, x ∈ l -> p x = false.
Proof.
  induction l as [|a l IH]; simpl.
  - split; [intros _ x Hx; inversion Hx | reflexivity].
  - rewrite orb_false_iff, IH. split.
    + intros [Ha Hl] x Hx. apply elem_of_cons in Hx as [->|Hx]; auto.
    + intros H. split; [apply H; left | intros x Hx; apply H; right; exact Hx].
Qed.

Lemma badLabel_iff l : badLabel l <-> badLabelLength l = true \/ hyphenEdge l = true.
Proof.
  unfold badLabel, badLabelLength, hyphenEdge.
  rewrite !orb_true_iff, Nat.eqb_eq, Nat.ltb_lt. tauto.
Qed.

(** ** The validator *)

Ltac fires :=
  simpl; split;
  [ intros H; discriminate H
  | intros H; decompose [and] H; congruence ].

Lemma valid_iff_passes d :
  valid (isValidDomainFormat d) = true <-> passesChecks (Js.trim (Js.toLowerCase d)).
Proof.
  unfold isValidDomainFormat, passesChecks, dot. cbv zeta.
  destruct (String.eqb_spec d "") as [->|_].
  - split; [simpl; discriminate | intros (H & _); vm_compute in H; discriminate].
  - set (s := Js.trim (Js.toLowerCase d)).
    set (tld := lastLabel (Js.split "." s)).
    destruct ((String.length s <? 3)%nat || (253 <? String.length s)%nat); [fires|].
    destruct (negb (Js.includes s ".") || Js.startsWith s "." || Js.endsWith s "."); [fires|].
    destruct (hasInvalidChar s); [fires|].
    destruct (Js.includes s ".."); [fires|].
    destruct (existsb badLabelLength (Js.split "." s)); [fires|].
    destruct (existsb hyphenEdge (Js.split "." s)); [fires|].
    destruct (allDigits tld && (0 <? String.length tld)%nat); [fires|].
    destruct (String.length tld <? 2)%nat; [fires|].
    simpl; split; [intros _; repeat split; reflexivity | reflexivity].
Qed.

Lemma invalid_has_reason d :
  valid (isValidDomainFormat d) = false ->
  exists reason, isValidDomainFormat d = mkValidation false (Some reason).
Proof.
  unfold isValidDomainFormat. cbv zeta.
  repeat match goal with
         | |- context [if ?b then _ else _] => destruct b; simpl
         end; intros H; try discriminate; eauto.
Qed.

(** The validator rejects exactly the strings the specification lists. *)
Lemma fails_iff_invalid d :
  failsFormatValidation d <-> valid (isValidDomainFormat d) = false.
Proof.
  rewrite <- not_true_iff_false, valid_iff_passes.
  unfold failsFormatValidation, passesChecks, lastLabel. cbv zeta.
  set (s := Js.trim (Js.toLowerCase d)).
  set (labels := Js.split "." s).
  set (tld := List.last labels "").
  assert (Hchars : hasInvalidChar s = false <-> forall c, c ∈ chars s -> inClass c).
  { unfold hasInvalidChar. rewrite <- not_true_iff_false, some_spec. split.
    - intros H c Hc. apply domainChar_inClass; [eapply normalized_no_upper; exact Hc|].
      destruct (isDomainChar c) eqn:E; [reflexivity|].
      exfalso. apply H. exists c. rewrite E. auto.
    - intros H (c & Hc & Hn). apply negb_true_iff in Hn.
      rewrite (inClass_domainChar c (H c Hc)) in Hn. discriminate. }
  assert (Hdigits : allDigits tld && (0 <? String.length tld)%nat = false
                    <-> tld = "" \/ exists c, c ∈ chars tld /\ Js.isDigit c = false).
  { unfold allDigits. destruct tld as [|a t] eqn:Et; [simpl; split; auto|].
    change (0 <? String.length (String a t))%nat with true. rewrite andb_true_r.
    change (negb (String.eqb (String a t) "")) with true. rewrite andb_true_l.
    rewrite <- not_true_iff_false, every_spec. split.
    - intros H. right. destruct (Js.every Js.isDigit (String a t)) eqn:E.
      + exfalso. apply H. apply every_spec. exact E.
      + apply every_false in E. exact E.
    - intros [H|(c & Hc & Hn)] Hall; [discriminate|]. rewrite (Hall c Hc) in Hn. discriminate. }
  split.
  - intros Hf (P1 & P2 & P3 & P4 & P5 & P6 & P7 & P8).
    apply orb_false_iff in P1 as [P1a P1b]. apply Nat.ltb_ge in P1a, P1b.
    apply orb_false_iff in P2 as [P2 P2c]. apply orb_false_iff in P2 as [P2a P2b].
    apply negb_false_iff in P2a. apply Nat.ltb_ge in P8.
    destruct Hf as [H|[H|[H|[H|[H|[H|[H|[H|[H|H]]]]]]]]]; try lia; try congruence.
    + destruct H as (c & Hc & Hn). apply Hn. apply Hchars; assumption.
    + destruct H as (l & Hl & Hb). apply badLabel_iff in Hb.
      rewrite existsb_false_Forall in P5, P6.
      specialize (P5 l Hl). specialize (P6 l Hl). destruct Hb; congruence.
    + apply Hdigits in P7 as [P7|(c & Hc & Hn)].
      * rewrite P7 in P8. simpl in P8. lia.
      * rewrite (H c Hc) in Hn. discriminate.
  - intros Hn.
    destruct (Nat.ltb_spec (String.length s) 3); [tauto|].
    destruct (Nat.ltb_spec 253 (String.length s)); [tauto|].
    destruct (Js.includes s ".") eqn:E1; [|tauto].
    destruct (Js.startsWith s ".") eqn:E2; [tauto|].
    destruct (Js.endsWith s ".") eqn:E3; [tauto|].
    destruct (hasInvalidChar s) eqn:E4.
    { do 5 right; left. unfold hasInvalidChar in E4. apply some_spec in E4 as (c & Hc & Hx).
      exists c. split; [exact Hc|]. intros Hi.
      rewrite (inClass_domainChar c Hi) in Hx. discriminate. }
    destruct (Js.includes s "..") eqn:E5; [tauto|].
    destruct (existsb badLabelLength labels) eqn:E6.
    { do 7 right; left. apply existsb_exists in E6 as (l & Hl & Hb).
      exists l. split; [apply list_elem_of_In; exact Hl | apply badLabel_iff; auto]. }
    destruct (existsb hyphenEdge labels) eqn:E7.
    { do 7 right; left. apply existsb_exists in E7 as (l & Hl & Hb).
      exists l. split; [apply list_elem_of_In; exact Hl | apply badLabel_iff; auto]. }
    destruct (Nat.ltb_spec (String.length tld) 2); [tauto|].
    destruct (allDigits tld && (0 <? String.length tld)%nat) eqn:E8.
    { do 9 right. apply andb_true_iff in E8 as [E8 _]. unfold allDigits in E8.
      apply andb_true_iff in E8 as [_ E8]. apply every_spec. exact E8. }
    exfalso. apply Hn. repeat split; auto.
Qed.

(** C3. A full-domain string that fails format validation (length outside
    [3,253]; no dot or a leading/trailing dot; a character outside
    [a-z0-9.-]; consecutive dots; an empty, over-long or hyphen-edged
    label; a final label shorter than 2 characters or all-numeric) makes
    [checkDomain] resolve with status Invalid and the validator's reason,
    and [checkDomain] puts no request on the wire. *)
Theorem checkDomain_invalid_format (domain : string) :
  failsFormatValidation domain ->
  exists reason,
    isValidDomainFormat domain = mkValidation false (Some reason)
    /\ requests (checkDomain domain) = []
    /\ forall net, settle (checkDomain domain) net = Normal (mkOutcome INVALID (Some reason)).
Proof.
  intros H. apply fails_iff_invalid in H.
  destruct (invalid_has_reason domain H) as (reason & E).
  exists reason. unfold checkDomain. rewrite E. simpl. auto.
Qed.

Lemma checkDomain_invalid_format_witness :
  exists reason,
    isValidDomainFormat "-bad.com" = mkValidation false (Some reason)
    /\ requests (checkDomain "-bad.com") = []
    /\ forall net, settle (checkDomain "-bad.com") net = Normal (mkOutcome INVALID (Some reason)).
Proof.
  apply (checkDomain_invalid_format "-bad.com").
  do 7 right; left. exists "-bad". split.
  - vm_compute. constructor.
  - right; right; left. reflexivity.
Defined.

(** ** The resolver client *)

(** [makeDohQuery] always resolves: a rejected [fetch], a failing
    [response.json()], a non-2xx status and a [null] body all end in a
    result, and the first three set its [error] field. *)
Lemma makeDohQuery_settles p d t net :
  exists r, settle (makeDohQuery p d t) net = Normal r
            /\ providerName r = name p /\ recordType r = t
            /\ (queryFails (net (urlPattern p d t)) -> is_Some (error r)).
Proof.
  unfold makeDohQuery, queryFails. simpl.
  destruct (net (urlPattern p d t)) as [response|e]; simpl.
  - destruct (json response) as [responseData|e]; simpl.
    + destruct (ok response); simpl.
      * destruct responseData as [body|]; simpl; eexists; repeat split; eauto;
          intros [H|[]]; discriminate H.
      * eexists; repeat split; eauto.
    + eexists; repeat split; eauto.
  - eexists; repeat split; eauto.
Qed.

Lemma PromiseAll_settles {A} (ps : list (Promise A)) net :
  (forall p, p ∈ ps -> exists a, settle p net = Normal a) ->
  exists l, settle (PromiseAll ps) net = Normal l /\ length l = length ps.
Proof.
  unfold PromiseAll. simpl. induction ps as [|p ps IH]; intros H; simpl.
  - exists []. auto.
  - destruct (H p) as (a & Ea); [left|].
    destruct IH as (l & El & Hl); [intros q Hq; apply H; right; exact Hq|].
    exists (a :: l). rewrite Ea. simpl. rewrite El. simpl. auto.
Qed.

(** The queries of one domain always yield four results. *)
Lemma queryResults_settle d net :
  exists results, queryResults d net = Normal results /\ length results = 4%nat.
Proof.
  unfold queryResults.
  destruct (PromiseAll_settles (queryPromises d) net) as (l & El & Hl).
  - intros p Hp. unfold queryPromises in Hp. apply list_elem_of_In, in_flat_map in Hp.
    destruct Hp as (prov & _ & Hp). simpl in Hp.
    destruct Hp as [<-|[<-|[]]];
      [destruct (makeDohQuery_settles prov d A_ net) as (r & Er & _)
      |destruct (makeDohQuery_settles prov d NS_ net) as (r & Er & _)]; eauto.
  - exists l. split; [exact El | rewrite Hl; reflexivity].
Qed.

(** ** The status classifier *)

Lemma tallyOne_noerror t r :
  dnsStatus r = Some 0%Z ->
  takenReasons (tallyOne t r) <> [] /\ allQueriesReportNxDomain (tallyOne t r) = false.
Proof.
  intros H. unfold tallyOne. rewrite H. simpl. split; [|reflexivity].
  destruct (takenReasons t); discriminate.
Qed.

Lemma tallyOne_nxdomain t r :
  dnsStatus r = Some 3%Z ->
  takenReasons (tallyOne t r) = takenReasons t
  /\ allQueriesReportNxDomain (tallyOne t r) = allQueriesReportNxDomain t.
Proof. intros H. unfold tallyOne. rewrite H. simpl. auto. Qed.

Lemma tallyOne_other t r :
  dnsStatus r <> Some 0%Z -> dnsStatus r <> Some 3%Z ->
  takenReasons (tallyOne t r) = takenReasons t
  /\ allQueriesReportNxDomain (tallyOne t r) = false.
Proof.
  intros H0 H3. unfold tallyOne.
  destruct (dnsStatus r) as [[|p|p]|]; simpl; auto; try congruence.
  destruct p as [[p|p|]|p|]; simpl; auto; congruence.
Qed.

Lemma fold_tally rs : forall t,
  (takenReasons (fold_left tallyOne rs t) = [] <->
     takenReasons t = [] /\ Forall (fun r => dnsStatus r <> Some 0%Z) rs)
  /\ (allQueriesReportNxDomain (fold_left tallyOne rs t) = true <->
        allQueriesReportNxDomain t = true /\ Forall (fun r => dnsStatus r = Some 3%Z) rs).
Proof.
  induction rs as [|r rs IH]; intros t; simpl.
  - split; split; try tauto; intros H; split; try apply H; constructor.
  - destruct (IH (tallyOne t r)) as [IH1 IH2]. rewrite IH1, IH2, !Forall_cons.
    destruct (decide (dnsStatus r = Some 0%Z)) as [E0|N0].
    { destruct (tallyOne_noerror t r E0) as [H1 H2]. rewrite H2. intuition congruence. }
    destruct (decide (dnsStatus r = Some 3%Z)) as [E3|N3].
    { destruct (tallyOne_nxdomain t r E3) as [H1 H2]. rewrite H1, H2. tauto. }
    destruct (tallyOne_other t r N0 N3) as [H1 H2]. rewrite H1, H2.
    intuition congruence.
Qed.

Lemma classify_status results :
  o_status (classify results)
  = if bool_decide (Forall (fun r => dnsStatus r <> Some 0%Z) results)
    then if bool_decide (Forall (fun r => dnsStatus r = Some 3%Z) results)
         then AVAILABLE else TAKEN
    else TAKEN.
Proof.
  unfold classify, tally. destruct (fold_tally results (mkTally [] true [])) as [H1 H2].
  simpl in H1, H2.
  destruct (takenReasons (fold_left tallyOne results (mkTally [] true []))) as [|x l] eqn:Et.
  - simpl. rewrite bool_decide_eq_true_2 by (apply H1; reflexivity).
    destruct (allQueriesReportNxDomain _) eqn:En.
    + rewrite bool_decide_eq_true_2 by (apply H2; reflexivity). reflexivity.
    + rewrite bool_decide_eq_false_2; [reflexivity|]. intros H.
      assert (false = true) by (apply H2; auto). discriminate.
  - simpl. rewrite bool_decide_eq_false_2; [reflexivity|].
    intros H. assert (x :: l = []) by (apply H1; auto). discriminate.
Qed.

Lemma classify_has_reason results : exists reason, o_reason (classify results) = Some reason.
Proof.
  unfold classify. destruct (0 <? length _)%nat; [eauto|].
  destruct (allQueriesReportNxDomain _); eauto.
Qed.

Lemma checkDomain_valid domain net results :
  valid (isValidDomainFormat domain) = true ->
  queryResults domain net = Normal results ->
  settle (checkDomain domain) net = Normal (classify results).
Proof.
  intros Hv Hq. unfold checkDomain. rewrite Hv. simpl.
  unfold queryResults in Hq. simpl in Hq. rewrite Hq. reflexivity.
Qed.

Lemma outcome_eta (o : DomainCheckOutcome) st reason :
  o_status o = st -> o_reason o = Some reason -> o = mkOutcome st (Some reason).
Proof. destruct o; simpl; intros -> ->; reflexivity. Qed.






(** ** Replies of any shape *)

Lemma makeDohQuery_declared p d t net :
  Untyped.makeDohQuery p d t (Untyped.ofNetwork net)
  = cbind (settle (makeDohQuery p d t) net) (fun r => Normal (Untyped.ofResult r)).
Proof.
  unfold Untyped.makeDohQuery, makeDohQuery, Untyped.ofNetwork. simpl.
  destruct (net (urlPattern p d t)) as [response|e]; simpl; [|reflexivity].
  destruct (json response) as [responseData|e]; simpl; [|reflexivity].
  change (Untyped.replyOk (Untyped.ofResponse response)) with (ok response).
  destruct (ok response); simpl; destruct responseData as [body|]; reflexivity.
Qed.

Lemma tallyOne_declared t r :
  Untyped.tallyOne t (Untyped.ofResult r) = Normal (tallyOne t r).
Proof.
  destruct r as [pn rt st da er]. unfold Untyped.tallyOne, tallyOne. simpl.
  destruct st as [[|q|q]|]; simpl.
  - unfold Untyped.hasRecords, hasRecords. simpl. destruct da as [d|]; reflexivity.
  - destruct q as [[q|q|]|q|]; simpl;
      unfold Untyped.errorText, errorText; simpl;
      destruct er as [e|]; simpl; try destruct (Js.truthy e); reflexivity.
  - unfold Untyped.errorText, errorText; simpl.
    destruct er as [e|]; simpl; try destruct (Js.truthy e); reflexivity.
  - unfold Untyped.errorText, errorText; simpl.
    destruct er as [e|]; simpl; try destruct (Js.truthy e); reflexivity.
Qed.

Lemma tallyFrom_declared results : forall t,
  Untyped.tallyFrom t (map Untyped.ofResult results) = Normal (fold_left tallyOne results t).
Proof.
  induction results as [|r results IH]; intros t; simpl; [reflexivity|].
  rewrite tallyOne_declared. simpl. apply IH.
Qed.

Lemma classify_declared results :
  Untyped.classify (map Untyped.ofResult results) = Normal (classify results).
Proof. unfold Untyped.classify, Untyped.tally. rewrite tallyFrom_declared. reflexivity. Qed.

Lemma sequence_declared {A B} (f : A -> B) (l : list (Completion A)) :
  sequence (map (fun c => cbind c (fun a => Normal (f a))) l)
  = cbind (sequence l) (fun rs => Normal (map f rs)).
Proof.
  induction l as [|c l IH]; simpl; [reflexivity|].
  destruct c as [a|e]; simpl; [|reflexivity].
  rewrite IH. destruct (sequence l); reflexivity.
Qed.

Lemma queryCompletions_declared d net :
  Untyped.queryCompletions d (Untyped.ofNetwork net)
  = map (fun c => cbind c (fun r => Normal (Untyped.ofResult r)))
        (map (fun p => settle p net) (queryPromises d)).
Proof.
  unfold Untyped.queryCompletions, queryPromises.
  induction providers as [|p ps IH]; simpl; [reflexivity|].
  rewrite !makeDohQuery_declared, IH. reflexivity.
Qed.

(** On replies of the declared shape the two embeddings of [checkDomain]
    agree. *)
Lemma checkDomain_on_declared_shape d net :
  Untyped.checkDomain d (Untyped.ofNetwork net) = settle (checkDomain d) net.
Proof.
  unfold Untyped.checkDomain, checkDomain.
  destruct (valid (isValidDomainFormat d)); cbn [negb]; [|reflexivity].
  rewrite queryCompletions_declared, sequence_declared.
  change (settle (andThen (PromiseAll (queryPromises d))
                          (fun results => Normal (classify results))) net)
    with (cbind (sequence (map (fun p => settle p net) (queryPromises d)))
                (fun results => Normal (classify results))).
  destruct (sequence (map (fun p => settle p net) (queryPromises d))) as [results|e];
    [|reflexivity].
  apply classify_declared.
Qed.

Lemma Untyped_makeDohQuery_settles p d t net :
  exists r, Untyped.makeDohQuery p d t net = Normal r
            /\ forall e,
                 (Untyped.q_dnsStatus r = Untyped.Code 0
                  /\ Untyped.hasRecords r = Abrupt e)
                 \/ Untyped.q_dnsStatus r = Untyped.Other (Abrupt e) ->
                 exists response body,
                   net (urlPattern p d t) = Normal response
                   /\ Untyped.parsed response = Normal (Some body)
                   /\ ((Untyped.statusField body = Untyped.Code 0
                        /\ Untyped.hasAnswers body = Abrupt e)
                       \/ Untyped.statusField body = Untyped.Other (Abrupt e)).
Proof.
  unfold Untyped.makeDohQuery, Untyped.hasRecords.
  destruct (net (urlPattern p d t)) as [response|e0]; simpl.
  - destruct (Untyped.parsed response) as [responseData|e0] eqn:Ep; simpl.
    + destruct (Untyped.replyOk response); simpl.
      * destruct responseData as [body|]; simpl; eexists; (split; [reflexivity|]);
          simpl; intros e [[H1 H2]|H]; try discriminate; eauto 10.
      * destruct responseData as [body|]; simpl; eexists; (split; [reflexivity|]);
          simpl; intros e [[H1 H2]|H]; try discriminate; eauto 10.
    + eexists; (split; [reflexivity|]); simpl; intros e [[H1 H2]|H]; discriminate.
  - eexists; (split; [reflexivity|]); simpl; intros e [[H1 H2]|H]; discriminate.
Qed.

Lemma Untyped_outcomeOf t :
  (o_status (Untyped.outcomeOf t) = AVAILABLE \/ o_status (Untyped.outcomeOf t) = TAKEN)
  /\ is_Some (o_reason (Untyped.outcomeOf t))
  /\ o_reason (Untyped.outcomeOf t) <> Some "Error during check".
Proof.
  unfold Untyped.outcomeOf. destruct (0 <? length _)%nat; simpl; [split; [auto|split; [eauto|discriminate]]|].
  destruct (allQueriesReportNxDomain t); simpl; (split; [auto|split; [eauto|discriminate]]).
Qed.

Lemma Untyped_tallyOne_throws t r e :
  Untyped.tallyOne t r = Abrupt e ->
  (Untyped.q_dnsStatus r = Untyped.Code 0 /\ Untyped.hasRecords r = Abrupt e)
  \/ Untyped.q_dnsStatus r = Untyped.Other (Abrupt e).
Proof.
  unfold Untyped.tallyOne.
  destruct (Untyped.q_dnsStatus r) as [|n|printed] eqn:Es.
  - simpl. destruct (Untyped.errorText r); discriminate.
  - destruct n as [|q|q].
    + destruct (Untyped.hasRecords r) as [has|e0]; simpl; [discriminate|].
      intros [= ->]. left. split; reflexivity.
    + destruct q as [[q|q|]|q|]; simpl; destruct (Untyped.errorText r); discriminate.
    + simpl. destruct (Untyped.errorText r); discriminate.
  - simpl. destruct (Untyped.errorText r); simpl; [discriminate|].
    destruct printed as [text|e0]; simpl; [discriminate|].
    intros [= ->]. right. reflexivity.
Qed.

Lemma Untyped_tallyFrom_throws results e : forall t,
  Untyped.tallyFrom t results = Abrupt e ->
  exists r, r ∈ results
            /\ ((Untyped.q_dnsStatus r = Untyped.Code 0 /\ Untyped.hasRecords r = Abrupt e)
                \/ Untyped.q_dnsStatus r = Untyped.Other (Abrupt e)).
Proof.
  induction results as [|r results IH]; intros t; simpl; [discriminate|].
  destruct (Untyped.tallyOne t r) as [t'|e0] eqn:E; simpl.
  - intros H. destruct (IH t' H) as (r' & Hr' & H'). exists r'. split; [right; exact Hr' | exact H'].
  - intros [= ->]. exists r. split; [left | eapply Untyped_tallyOne_throws; exact E].
Qed.

(** The four queries never reject, whatever the replies. *)
Lemma Untyped_queries_settle d net :
  exists results,
    sequence (Untyped.queryCompletions d net) = Normal results
    /\ forall r, r ∈ results ->
         exists p t, p ∈ providers /\ Untyped.makeDohQuery p d t net = Normal r.
Proof.
  unfold Untyped.queryCompletions.
  assert (H : forall ps, (forall p, p ∈ ps -> p ∈ providers) ->
            exists results,
              sequence (flat_map (fun provider =>
                          [Untyped.makeDohQuery provider d A_ net;
                           Untyped.makeDohQuery provider d NS_ net]) ps) = Normal results
              /\ forall r, r ∈ results ->
                   exists p t, p ∈ providers /\ Untyped.makeDohQuery p d t net = Normal r).
  { induction ps as [|p ps IH]; intros Hps; simpl.
    - exists []. split; [reflexivity|]. intros r Hr. inversion Hr.
    - destruct (Untyped_makeDohQuery_settles p d A_ net) as (ra & Ea & _).
      destruct (Untyped_makeDohQuery_settles p d NS_ net) as (rn & En & _).
      destruct IH as (rs & Es & Hrs); [intros q Hq; apply Hps; right; exact Hq|].
      exists (ra :: rn :: rs). rewrite Ea, En. simpl. rewrite Es. simpl.
      split; [reflexivity|]. intros r Hr.
      apply elem_of_cons in Hr as [->|Hr]; [exists p, A_; split; [apply Hps; left | exact Ea]|].
      apply elem_of_cons in Hr as [->|Hr]; [exists p, NS_; split; [apply Hps; left | exact En]|].
      apply Hrs, Hr. }
  apply H. auto.
Qed.

(** How a check ends on replies of any shape. *)
Lemma Untyped_checkDomain_cases d net :
  (valid (isValidDomainFormat d) = false /\
   Untyped.checkDomain d net = Normal (mkOutcome INVALID (v_reason (isValidDomainFormat d))))
  \/ (valid (isValidDomainFormat d) = true /\
      ((exists o, Untyped.checkDomain d net = Normal o
                  /\ (o_status o = AVAILABLE \/ o_status o = TAKEN)
                  /\ is_Some (o_reason o)
                  /\ o_reason o <> Some "Error during check")
       \/ (exists e p t response body,
             Untyped.checkDomain d net = Abrupt e
             /\ p ∈ providers
             /\ net (urlPattern p d t) = Normal response
             /\ Untyped.parsed response = Normal (Some body)
             /\ ((Untyped.statusField body = Untyped.Code 0
                  /\ Untyped.hasAnswers body = Abrupt e)
                 \/ Untyped.statusField body = Untyped.Other (Abrupt e))))).
Proof.
  unfold Untyped.checkDomain.
  destruct (valid (isValidDomainFormat d)) eqn:Hv; cbn [negb]; [right | left; auto].
  split; [reflexivity|].
  destruct (Untyped_queries_settle d net) as (results & -> & Hres).
  cbn [mbind Completion_bind cbind].
  unfold Untyped.classify, Untyped.tally.
  destruct (Untyped.tallyFrom (mkTally [] true []) results) as [t|e] eqn:Et; simpl.
  - left. eexists. split; [reflexivity|]. apply Untyped_outcomeOf.
  - right. destruct (Untyped_tallyFrom_throws _ _ _ Et) as (r & Hr & H).
    destruct (Hres r Hr) as (p & t & Hp & E).
    destruct (Untyped_makeDohQuery_settles p d t net) as (r' & E' & Hback).
    rewrite E in E'. injection E' as <-.
    destruct (Hback e H) as (response & body & H1 & H2 & H3).
    exists e, p, t, response, body. auto.
Qed.

(** C10, amended. On replies of the declared shape [checkDomain] never
    rejects: every query resolves to a result that carries transport,
    HTTP and JSON-parse failures in its [error] field, the check itself
    resolves with an outcome, and the update the orchestrator pushes is
    the one of its [then] branch, not the "Error during check" of its
    [catch] branch. *)
Theorem checkDomain_never_rejects (it : DomainToProcess) (net : Network) :
  (forall p t, exists r,
      settle (makeDohQuery p (d_fullDomain it) t) net = Normal r
      /\ (queryFails (net (urlPattern p (d_fullDomain it) t)) -> is_Some (error r)))
  /\ exists outcome,
      settle (checkDomain (d_fullDomain it)) net = Normal outcome
      /\ Untyped.checkDomain (d_fullDomain it) (Untyped.ofNetwork net) = Normal outcome
      /\ settledUpdate it (Untyped.ofNetwork net) = onFulfilled it outcome.
Proof.
  split.
  - intros p t. destruct (makeDohQuery_settles p (d_fullDomain it) t net) as (r & E & _ & _ & H).
    exists r. auto.
  - assert (H : exists outcome, settle (checkDomain (d_fullDomain it)) net = Normal outcome).
    { destruct (valid (isValidDomainFormat (d_fullDomain it))) eqn:Hv.
      - destruct (queryResults_settle (d_fullDomain it) net) as (results & Hq & _).
        exists (classify results). apply checkDomain_valid; assumption.
      - unfold checkDomain. rewrite Hv. simpl. eauto. }
    destruct H as (outcome & E). exists outcome. split; [exact E|].
    unfold settledUpdate. rewrite checkDomain_on_declared_shape, E. split; reflexivity.
Qed.

(** C10, as the specification words it, fails: a 2xx reply whose body
    makes the comparison of [Answer.length] with 0 throw lets the loop
    of [checkDomain] throw outside every [try]; the check rejects and
    the orchestrator pushes the update of its [catch] branch. *)
Lemma answer_length_without_primitive_value_rejects :
  Untyped.checkDomain "foo.com" lengthWithoutPrimitive
  = Abrupt (ErrorObject "Cannot convert object to primitive value")
  /\ settledUpdate (mkItem "foo" "com" "foo.com") lengthWithoutPrimitive
     = mkUpdate "foo" "com" INVALID (Some "Error during check").
Proof. split; reflexivity. Qed.

(** ** The update batcher *)

Lemma assignOwn_Done m t v m' :
  assignOwn m t v = Done m' -> t <> "__proto__" /\ m' = <[t := v]> m.
Proof.
  unfold assignOwn. destruct (String.eqb_spec t "__proto__"); [discriminate|].
  intros [= <-]. auto.
Qed.

Lemma assignOwn_Stopped m t v why :
  assignOwn m t v = Stopped why -> t = "__proto__".
Proof.
  unfold assignOwn. destruct (String.eqb_spec t "__proto__"); [auto|discriminate].
Qed.

Lemma assignOnObject_Done m t v m' :
  assignOnObject m t v = Done m' ->
  t <> "__proto__" /\ m' = <[t := v]> m.
Proof.
  unfold assignOnObject. destruct (String.eqb_spec t "__proto__"); [discriminate|].
  destruct (objectProperty t) as [[]|]; try discriminate; intros [= <-]; auto.
Qed.



Lemma ownRecords_empty properties : ownRecords (mkGrouped ∅ properties).
Proof. intros b [x Hx]. simpl in Hx. rewrite lookup_empty in Hx. discriminate. Qed.

Lemma ownRecords_constructor g : ownRecords g -> own g !! "constructor" = None.
Proof.
  intros H. destruct (own g !! "constructor") eqn:E; [|reflexivity].
  destruct (H "constructor") as [N _]; [eauto|]. contradiction.
Qed.

(** One round of the grouping loop that runs to its end: the update is
    for keys the flush is modelled on, and it lands on [Object] when its
    base name is [constructor], in the row's own literal otherwise. *)
Lemma groupOne_Done g u g' :
  ownRecords g -> groupOne g u = Done g' ->
  ownRecords g'
  /\ modelled (u_baseName u) (u_tld u)
  /\ if String.eqb (u_baseName u) "constructor"
     then own g' = own g
          /\ onObject g' = <[u_tld u := (u_status u, u_reason u)]> (onObject g)
     else own g'
          = <[u_baseName u :=
                <[u_tld u := (u_status u, u_reason u)]> (default ∅ (own g !! u_baseName u))]>
              (own g)
          /\ onObject g' = onObject g.
Proof.
  unfold groupOne, modelled. intros Hg H.
  pose proof (ownRecords_constructor g Hg) as Hc.
  assert (Hins : forall m, builtinName (u_baseName u) = false ->
                           u_baseName u <> "constructor" ->
                           ownRecords (mkGrouped (<[u_baseName u := m]> (own g)) (onObject g))).
  { intros m Hb N b [x Hx]. simpl in Hx.
    destruct (decide (u_baseName u = b)) as [<-|Hne]; [auto|].
    rewrite lookup_insert_ne in Hx by exact Hne. apply Hg. eauto. }
  destruct (String.eqb_spec (u_baseName u) "constructor") as [E|N].
  - rewrite E in *. rewrite Hc in H.
    destruct (assignOnObject _ _ _) as [m|] eqn:Ea; [|discriminate].
    injection H as <-. apply assignOnObject_Done in Ea as (Ht & ->).
    split; [exact Hg|]. split; [split; [reflexivity | exact Ht] | split; reflexivity].
  - destruct (own g !! u_baseName u) as [rowUpdates|] eqn:Eo.
    + destruct (assignOwn _ _ _) as [m|] eqn:Ea; [|discriminate].
      injection H as <-. apply assignOwn_Done in Ea as (Ht & ->).
      destruct (Hg (u_baseName u)) as [_ Hb]; [eauto|].
      split; [apply Hins; assumption|].
      split; [split; [exact Hb | exact Ht] | split; reflexivity].
    + destruct (builtinName (u_baseName u)) eqn:Eb; [discriminate|].
      destruct (assignOwn _ _ _) as [m|] eqn:Ea; [|discriminate].
      injection H as <-. apply assignOwn_Done in Ea as (Ht & ->).
      split; [apply Hins; auto|].
      split; [split; [reflexivity | exact Ht] | split; reflexivity].
Qed.

(** On keys the validators let through, a round ends short only for the
    base name [constructor]. *)
Lemma groupOne_Stopped g u why :
  ownRecords g -> groupOne g u = Stopped why -> modelled (u_baseName u) (u_tld u) ->
  u_baseName u = "constructor".
Proof.
  unfold groupOne, modelled. intros Hg H [Hb Ht].
  destruct (own g !! u_baseName u) as [rowUpdates|] eqn:Eo.
  - destruct (assignOwn _ _ _) as [m|] eqn:Ea; [discriminate|].
    apply assignOwn_Stopped in Ea. contradiction.
  - destruct (String.eqb_spec (u_baseName u) "constructor") as [E|N]; [exact E|].
    rewrite Hb in H. destruct (assignOwn _ _ _) as [m|] eqn:Ea; [discriminate|].
    apply assignOwn_Stopped in Ea. contradiction.
Qed.

Lemma lookup2_insert m b t v b' t' :
  lookup2 (<[b := <[t := v]> (default ∅ (m !! b))]> m) b' t'
  = if bool_decide (b = b' /\ t = t') then Some v else lookup2 m b' t'.
Proof.
  unfold lookup2.
  destruct (decide (b = b')) as [<-|Hb].
  - rewrite lookup_insert_eq. simpl.
    destruct (decide (t = t')) as [<-|Ht].
    + rewrite lookup_insert_eq, bool_decide_eq_true_2; auto.
    + rewrite lookup_insert_ne by exact Ht. rewrite bool_decide_eq_false_2 by tauto.
      destruct (m !! b); simpl; [reflexivity | apply lookup_empty].
  - rewrite lookup_insert_ne by exact Hb. rewrite bool_decide_eq_false_2 by tauto. reflexivity.
Qed.

(** The grouping loop, run to its end: per cell the update enqueued last;
    a record of its own for exactly the rows with an update, the row
    named [constructor] apart, whose updates are on [Object]. *)
Lemma groupUpdates_Done updates : forall g g',
  ownRecords g -> groupUpdates g updates = (g', None) ->
  ownRecords g'
  /\ Forall (fun u => modelled (u_baseName u) (u_tld u)) updates
  /\ (forall b t, b <> "constructor" ->
        lookup2 (own g') b t
        = match lastUpdateFor b t updates with
          | Some x => Some x
          | None => lookup2 (own g) b t
          end)
  /\ (forall b, b <> "constructor" ->
        own g' !! b = None <-> own g !! b = None /\ hasUpdateFor b updates = false)
  /\ (forall t, onObject g' !! t = objectAfter (onObject g) updates t).
Proof.
  induction updates as [|u us IH]; intros g g' Hg H; simpl in H.
  - injection H as <-. split; [exact Hg|]. split; [constructor|].
    split; [reflexivity|]. split; [|reflexivity].
    intros b _. simpl. split; [auto | intros [? _]; assumption].
  - destruct (groupOne g u) as [g1|] eqn:E1; [|discriminate].
    destruct (groupOne_Done g u g1 Hg E1) as (Hg1 & Hm & Hone).
    destruct (IH g1 g' Hg1 H) as (Hg' & Hms & Hl & Hd & Ho).
    split; [exact Hg'|]. split; [constructor; assumption|].
    destruct (String.eqb_spec (u_baseName u) "constructor") as [E|N];
      destruct Hone as [Hown Hobj].
    + split; [|split].
      * intros b t Hb. rewrite Hl by exact Hb. simpl. rewrite Hown.
        destruct (lastUpdateFor b t us); [reflexivity|].
        rewrite bool_decide_eq_false_2; [reflexivity|]. intros [Hx _]. congruence.
      * intros b Hb. rewrite Hd by exact Hb. rewrite Hown. simpl.
        destruct (String.eqb_spec (u_baseName u) b); [congruence|]. simpl. tauto.
      * intros t. rewrite Ho. unfold objectAfter. simpl. rewrite Hobj.
        destruct (lastUpdateFor "constructor" t us); [reflexivity|].
        destruct (decide (u_tld u = t)) as [<-|Ht].
        -- rewrite bool_decide_eq_true_2 by auto. apply lookup_insert_eq.
        -- rewrite bool_decide_eq_false_2 by tauto. apply lookup_insert_ne. exact Ht.
    + split; [|split].
      * intros b t Hb. rewrite Hl by exact Hb. simpl. rewrite Hown, lookup2_insert.
        destruct (lastUpdateFor b t us); [reflexivity|].
        destruct (bool_decide _); reflexivity.
      * intros b Hb. rewrite Hd by exact Hb. rewrite Hown. simpl.
        destruct (String.eqb_spec (u_baseName u) b) as [<-|Hne]; simpl.
        -- rewrite lookup_insert_eq.
           split; [intros [? _]; discriminate | intros [_ ?]; discriminate].
        -- rewrite lookup_insert_ne by exact Hne. tauto.
      * intros t. rewrite Ho. unfold objectAfter. simpl. rewrite Hobj.
        destruct (lastUpdateFor "constructor" t us); [reflexivity|].
        rewrite bool_decide_eq_false_2; [reflexivity|]. tauto.
Qed.

(** Whatever the loop has put on [Object] when it ends, early or not,
    is an update for the row named [constructor]. *)
Lemma groupUpdates_onObject updates : forall g g' stopped,
  ownRecords g -> groupUpdates g updates = (g', stopped) ->
  forall t v, onObject g' !! t = Some v ->
    onObject g !! t = Some v
    \/ exists u, u ∈ updates /\ u_baseName u = "constructor" /\ u_tld u = t
                 /\ v = (u_status u, u_reason u).
Proof.
  induction updates as [|u us IH]; intros g g' stopped Hg H t v Hv; simpl in H.
  - injection H as <- <-. auto.
  - destruct (groupOne g u) as [g1|] eqn:E1.
    + destruct (groupOne_Done g u g1 Hg E1) as (Hg1 & Hm & Hone).
      destruct (IH g1 g' stopped Hg1 H t v Hv) as [H1|(u' & Hin & Hu')].
      * destruct (String.eqb_spec (u_baseName u) "constructor") as [E|N];
          destruct Hone as [Hown Hobj]; rewrite Hobj in H1; [|auto].
        destruct (decide (u_tld u = t)) as [Ht|Ht].
        -- subst t. rewrite lookup_insert_eq in H1. injection H1 as <-.
           right. exists u. split; [left|auto].
        -- rewrite lookup_insert_ne in H1 by exact Ht. auto.
      * right. exists u'. split; [right; exact Hin | exact Hu'].
    + injection H as <- <-. auto.
Qed.

(** On keys the validators let through, the loop ends early only at an
    update for the base name [constructor]. *)
Lemma groupUpdates_Stopped updates : forall g g' why,
  ownRecords g -> groupUpdates g updates = (g', Some why) ->
  Forall (fun u => modelled (u_baseName u) (u_tld u)) updates ->
  exists u, u ∈ updates /\ u_baseName u = "constructor".
Proof.
  induction updates as [|u us IH]; intros g g' why Hg H Hm; simpl in H; [discriminate|].
  inversion Hm as [|? ? Hu Hus]; subst.
  destruct (groupOne g u) as [g1|] eqn:E1.
  - destruct (groupOne_Done g u g1 Hg E1) as (Hg1 & _).
    destruct (IH g1 g' why Hg1 H Hus) as (u' & Hin & Hc).
    exists u'. split; [right; exact Hin | exact Hc].
  - exists u. split; [left|]. eapply groupOne_Stopped; eauto.
Qed.

Section Mapping.
Variables (updates : list PendingCellUpdate) (g : Grouped).
Hypothesis records : ownRecords g.
Hypothesis lookups : forall b t, b <> "constructor" ->
  lookup2 (own g) b t = lastUpdateFor b t updates.
Hypothesis domain : forall b, b <> "constructor" ->
  own g !! b = None <-> hasUpdateFor b updates = false.

Lemma rowUpdatesOf_None b :
  rowUpdatesOf g b = Done None ->
  b <> "constructor" /\ hasUpdateFor b updates = false
  /\ forall cell, flushedCell (onObject g) updates b cell = cell.
Proof.
  unfold rowUpdatesOf. destruct (own g !! b) eqn:E; [discriminate|].
  destruct (String.eqb_spec b "constructor") as [|N]; [discriminate|].
  destruct (builtinName b); [discriminate|]. intros _.
  pose proof (proj1 (domain b N) E) as Hh.
  split; [exact N|]. split; [exact Hh|].
  intros cell. unfold flushedCell.
  rewrite (proj2 (String.eqb_neq b "constructor") N).
  rewrite <- lookups by exact N. unfold lookup2. rewrite E. simpl. rewrite Hh. reflexivity.
Qed.

Lemma applyToCell_spec b rowUpdates cell cell' changed :
  rowUpdatesOf g b = Done (Some rowUpdates) ->
  applyToCell g rowUpdates cell = Done (cell', changed) ->
  cell' = flushedCell (onObject g) updates b cell /\ (changed = false -> cell' = cell).
Proof.
  unfold rowUpdatesOf, applyToCell, lookupIn, flushedCell.
  destruct (own g !! b) as [properties|] eqn:E.
  - intros [= <-].
    destruct (records b) as [N _]; [eauto|].
    rewrite (proj2 (String.eqb_neq b "constructor") N).
    rewrite <- lookups by exact N. unfold lookup2. rewrite E. simpl.
    assert (Hh : hasUpdateFor b updates = true).
    { destruct (hasUpdateFor b updates) eqn:Hh; [reflexivity|].
      apply (domain b N) in Hh. congruence. }
    rewrite Hh. simpl.
    destruct (properties !! c_tld cell) as [v|].
    + intros [= <- <-]. split; [reflexivity | discriminate].
    + destruct (String.eqb (c_tld cell) "constructor").
      * intros [= <- <-]. split; [reflexivity | discriminate].
      * destruct (bool_decide (c_tld cell ∈ objectPrototypeNames));
          intros [= <- <-]; split; first [reflexivity | discriminate].
  - destruct (String.eqb_spec b "constructor") as [->|N].
    + intros [= <-]. simpl.
      destruct (onObject g !! c_tld cell) as [v|].
      * intros [= <- <-]. split; [reflexivity | discriminate].
      * destruct (objectProperty (c_tld cell)) as [[]|]; try discriminate;
          intros [= <- <-]; split; first [reflexivity | discriminate].
    + destruct (builtinName b); discriminate.
Qed.

Lemma applyToCells_spec b rowUpdates cells : forall cells' changed,
  rowUpdatesOf g b = Done (Some rowUpdates) ->
  applyToCells g rowUpdates cells = Done (cells', changed) ->
  cells' = map (flushedCell (onObject g) updates b) cells
  /\ (changed = false -> cells' = cells).
Proof.
  induction cells as [|c cs IH]; intros cells' changed Hr H; simpl in H.
  - injection H as <- <-. auto.
  - destruct (applyToCell g rowUpdates c) as [[c' ch]|] eqn:Ec; [|discriminate].
    destruct (applyToCells g rowUpdates cs) as [[rest hc]|] eqn:Ecs; [|discriminate].
    injection H as <- <-.
    destruct (applyToCell_spec b rowUpdates c c' ch Hr Ec) as [-> Hsame].
    destruct (IH rest hc Hr eq_refl) as [-> Hrest].
    split; [reflexivity|]. intros Hf. apply orb_false_iff in Hf as [-> ->].
    simpl. f_equal; [apply Hsame | apply Hrest]; reflexivity.
Qed.

(** A row comes out of the updater with its cells flushed, as a new
    object when a cell was rewritten and as the same object otherwise;
    a row without updates, other than the one named [constructor], is
    the same object. *)
Lemma applyToRow_spec next r next' r' :
  applyToRow g next r = Done (next', r') ->
  flushedRow (onObject g) updates r r'
  /\ (r' = r /\ next' = next \/ addr r' = next /\ next' = S next)
  /\ (rowName r <> "constructor" -> hasUpdateFor (rowName r) updates = false -> r' = r).
Proof.
  unfold applyToRow, flushedRow, rowName.
  destruct (rowUpdatesOf g (r_baseName (row r))) as [[rowUpdates|]|] eqn:Er; [| |discriminate].
  - destruct (applyToCells g rowUpdates (r_tldResults (row r))) as [[cells hc]|] eqn:Ec;
      [|discriminate].
    destruct (applyToCells_spec _ _ _ _ _ Er Ec) as [Hcells Hsame].
    assert (Hno : r_baseName (row r) <> "constructor" ->
                  hasUpdateFor (r_baseName (row r)) updates = false -> False).
    { intros N Hh. apply (domain _ N) in Hh. unfold rowUpdatesOf in Er. rewrite Hh in Er.
      rewrite (proj2 (String.eqb_neq _ _) N) in Er.
      destruct (builtinName _); discriminate. }
    destruct hc; intros [= <- <-]; simpl.
    + split; [split; [reflexivity | exact Hcells]|]. split; [auto|].
      intros N Hh. destruct (Hno N Hh).
    + split; [split; [reflexivity|]|].
      * rewrite <- Hcells. symmetry. apply Hsame. reflexivity.
      * split; [auto|]. intros N Hh. destruct (Hno N Hh).
  - intros [= <- <-]. destruct (rowUpdatesOf_None _ Er) as (N & Hh & Hc).
    split; [split; [reflexivity|]|].
    + symmetry. etransitivity; [|apply map_id]. apply map_ext. exact Hc.
    + auto.
Qed.

(** Reading an object literal never throws. *)
Lemma applyToCells_Literal properties cells :
  exists out, applyToCells g (Literal properties) cells = Done out.
Proof.
  induction cells as [|c cs IH]; simpl; [eauto|].
  destruct IH as ([rest hc] & ->). unfold applyToCell, lookupIn.
  destruct (properties !! c_tld c); [eauto|].
  destruct (String.eqb (c_tld c) "constructor"); [eauto|].
  destruct (bool_decide (c_tld c ∈ objectPrototypeNames)); eauto.
Qed.

Lemma applyToRow_Stopped next r why :
  applyToRow g next r = Stopped why -> builtinName (rowName r) = false ->
  rowName r = "constructor".
Proof.
  unfold applyToRow, rowName, rowUpdatesOf. intros H Hb. rewrite Hb in H.
  destruct (own g !! r_baseName (row r)) as [properties|] eqn:Eo.
  - exfalso.
    destruct (applyToCells_Literal properties (r_tldResults (row r))) as ([cells hc] & E).
    rewrite E in H. destruct hc; discriminate.
  - destruct (String.eqb_spec (r_baseName (row r)) "constructor") as [E|N]; [exact E|].
    discriminate.
Qed.

Lemma applyToRows_spec rows : forall next next' rows',
  applyToRows g next rows = Done (next', rows') ->
  (next <= next')%nat
  /\ Forall2 (fun r r' =>
                flushedRow (onObject g) updates r r'
                /\ (r' = r \/ (next <= addr r' < next')%nat)
                /\ (rowName r <> "constructor" ->
                    hasUpdateFor (rowName r) updates = false -> r' = r))
             rows rows'.
Proof.
  induction rows as [|r rs IH]; intros next next' rows' H; simpl in H.
  - injection H as <- <-. split; [lia | constructor].
  - destruct (applyToRow g next r) as [[next1 r1]|] eqn:E1; [|discriminate].
    destruct (applyToRows g next1 rs) as [[next2 rs2]|] eqn:E2; [|discriminate].
    injection H as <- <-.
    destruct (applyToRow_spec _ _ _ _ E1) as (Hf & Ha & Hs).
    destruct (IH _ _ _ E2) as (Hle & Hrest).
    assert (Hn : (next <= next1)%nat) by (destruct Ha as [[_ ->]|[_ ->]]; lia).
    split; [lia|]. constructor.
    + split; [exact Hf|]. split; [|exact Hs].
      destruct Ha as [[-> _]|[Ha ->]]; [left; reflexivity | right; lia].
    + eapply Forall2_impl; [exact Hrest|]. intros x y (H1 & H2 & H3).
      split; [exact H1|]. split; [|exact H3]. destruct H2 as [->|H2]; [auto | right; lia].
Qed.

Lemma applyToRows_Stopped rows : forall next why,
  applyToRows g next rows = Stopped why ->
  (forall r, r ∈ rows -> builtinName (rowName r) = false) ->
  exists r, r ∈ rows /\ rowName r = "constructor".
Proof.
  induction rows as [|r rs IH]; intros next why H Hb; simpl in H; [discriminate|].
  destruct (applyToRow g next r) as [[next1 r1]|] eqn:E1.
  - destruct (applyToRows g next1 rs) as [[next2 rs2]|] eqn:E2; [discriminate|].
    destruct (IH next1 _ E2 (fun x Hx => Hb x (list_elem_of_further _ _ _ Hx)))
      as (r' & Hin & Hc).
    exists r'. split; [right; exact Hin | exact Hc].
  - exists r. split; [left|]. eapply applyToRow_Stopped; [exact E1|]. apply Hb. left.
Qed.

End Mapping.

Lemma flush_empty s :
  pendingCellUpdatesRef s = [] -> flushPendingCellUpdates s = s.
Proof. unfold flushPendingCellUpdates. intros ->. reflexivity. Qed.

(** What the flush of a non-empty buffer does when its updater runs to
    the end, and what it leaves when the updater ends short, which on
    keys the validators let through takes the base name [constructor]. *)
Lemma flush_outcome s :
  pendingCellUpdatesRef s <> [] ->
  let updates := pendingCellUpdatesRef s in
  let s' := flushPendingCellUpdates s in
  (forall t v, objectProperties s' !! t = Some v ->
     objectProperties s !! t = Some v
     \/ exists u, u ∈ updates /\ u_baseName u = "constructor" /\ u_tld u = t
                  /\ v = (u_status u, u_reason u))
  /\ ((halted s' = halted s
       /\ Forall (fun u => modelled (u_baseName u) (u_tld u)) updates
       /\ (forall t, objectProperties s' !! t = objectAfter (objectProperties s) updates t)
       /\ (nextObject s <= nextObject s')%nat
       /\ Forall2 (fun r r' =>
                     flushedRow (objectProperties s') updates r r'
                     /\ (r' = r \/ (nextObject s <= addr r' < nextObject s')%nat)
                     /\ (rowName r <> "constructor" ->
                         hasUpdateFor (rowName r) updates = false -> r' = r))
                  (gridResults s) (gridResults s'))
      \/ (exists why, halted s' = Some why
            /\ gridResults s' = gridResults s /\ nextObject s' = nextObject s
            /\ (Forall (fun u => modelled (u_baseName u) (u_tld u)) updates ->
                (forall r, r ∈ gridResults s -> builtinName (rowName r) = false) ->
                (exists u, u ∈ updates /\ u_baseName u = "constructor")
                \/ (exists r, r ∈ gridResults s /\ rowName r = "constructor")))).
Proof.
  intros Hne updates s'. subst s'. unfold flushPendingCellUpdates. fold updates.
  destruct (length updates =? 0)%nat eqn:El.
  { apply Nat.eqb_eq, length_zero_iff_nil in El. contradiction. }
  change (objectProperties (set_pendingCellUpdatesRef [] s)) with (objectProperties s).
  pose proof (ownRecords_empty (objectProperties s)) as H0.
  destruct (groupUpdates (mkGrouped ∅ (objectProperties s)) updates) as [g stopped] eqn:Eg.
  pose proof (groupUpdates_onObject _ _ _ _ H0 Eg) as Hprov.
  destruct stopped as [why|].
  - split; [exact Hprov|]. right. exists why. repeat split.
    intros Hm _. left. exact (groupUpdates_Stopped _ _ _ _ H0 Eg Hm).
  - destruct (groupUpdates_Done _ _ _ H0 Eg) as (Hg & Hm & Hl & Hd & Ho).
    assert (Hl' : forall b t, b <> "constructor" ->
                    lookup2 (own g) b t = lastUpdateFor b t updates).
    { intros b t N. rewrite Hl by exact N. destruct (lastUpdateFor b t updates); [reflexivity|].
      unfold lookup2. simpl. rewrite lookup_empty. reflexivity. }
    assert (Hd' : forall b, b <> "constructor" ->
                    own g !! b = None <-> hasUpdateFor b updates = false).
    { intros b N. rewrite Hd by exact N. simpl. rewrite lookup_empty. tauto. }
    change (nextObject (set_objectProperties (onObject g) (set_pendingCellUpdatesRef [] s)))
      with (nextObject s).
    change (gridResults (set_objectProperties (onObject g) (set_pendingCellUpdatesRef [] s)))
      with (gridResults s).
    destruct (applyToRows g (nextObject s) (gridResults s)) as [[next rows]|why] eqn:Ea.
    + split; [exact Hprov|]. left.
      destruct (applyToRows_spec updates g Hg Hl' Hd' _ _ _ _ Ea) as (Hle & Hrows).
      split; [reflexivity|]. split; [exact Hm|]. split; [exact Ho|]. split; [exact Hle|].
      exact Hrows.
    + split; [exact Hprov|]. right. exists why. repeat split.
      intros _ Hb. right. exact (applyToRows_Stopped g _ _ _ Ea Hb).
Qed.

(** The state cells a flush does not write. *)
Lemma flush_frame s :
  completedChecksRef (flushPendingCellUpdates s) = completedChecksRef s
  /\ totalChecksRef (flushPendingCellUpdates s) = totalChecksRef s
  /\ startTimeRef (flushPendingCellUpdates s) = startTimeRef s
  /\ liveIntervals (flushPendingCellUpdates s) = liveIntervals s
  /\ flushIntervalRef (flushPendingCellUpdates s) = flushIntervalRef s
  /\ isLoading (flushPendingCellUpdates s) = isLoading s
  /\ timeTaken (flushPendingCellUpdates s) = timeTaken s
  /\ tasks (flushPendingCellUpdates s) = tasks s
  /\ pendingCellUpdatesRef (flushPendingCellUpdates s) = [].
Proof.
  unfold flushPendingCellUpdates.
  destruct (length (pendingCellUpdatesRef s) =? 0)%nat eqn:El.
  { apply Nat.eqb_eq, length_zero_iff_nil in El. rewrite El. repeat split. }
  destruct (groupUpdates _ _) as [g [why|]]; [repeat split|].
  destruct (applyToRows _ _ _) as [[next rows]|why]; repeat split.
Qed.

(** C8. The flush rewrites cells for which nothing is buffered and can
    drop a buffered update.  Base names [constructor] and [foo] are
    checked over the TLD [name].  The check of foo.name settles first and
    the interval fires with that one update in the buffer: the row
    [constructor], for which nothing is buffered, comes out as a new
    object whose cell has no status, because [updatesByBaseName] inherits
    [constructor], the function [Object], whose [name] is truthy.  When
    the check of constructor.name settles and the interval fires again,
    the assignment [Object[name] = ..] throws: the update is not applied
    and the cell stays without a status. *)
Theorem flush_rewrites_row_without_update :
  run initialState inheritedNames = Some inheritedSettled
  /\ map (fun u => (u_baseName u, u_tld u)) (pendingCellUpdatesRef inheritedSettled)
     = [("foo", "name")]
  /\ gridResults inheritedSettled !! 0%nat
     = Some (mkObj 0 (mkRow "constructor" [mkCell "name" CHECKING None "cell-0"]))
  /\ enabled inheritedSettled (IntervalFires 1) = true
  /\ gridResults (flushPendingCellUpdates inheritedSettled) !! 0%nat
     = Some (mkObj 2 (mkRow "constructor" [mkCell "name" NoStatus None "cell-0"]))
  /\ run (flushPendingCellUpdates inheritedSettled)
         [CheckSettles 0 (Untyped.ofNetwork allNxDomain); IntervalFires 1]
     = Some inheritedThrown
  /\ halted inheritedThrown = Some TypeErrorThrown
  /\ pendingCellUpdatesRef inheritedThrown = []
  /\ shownStatuses (gridResults inheritedThrown)
     = [("constructor", [("name", NoStatus)]); ("foo", [("name", Known AVAILABLE)])].
Proof. vm_compute. repeat split. Qed.

(** ** Sorting the view *)





Section SortFacts.
Context {A : Type} (compareFn : A -> A -> Num) (le : A -> A -> Prop).
Hypothesis le_compare : forall a b, positive (compareFn a b) = false -> le a b.
Hypothesis le_total : forall a b, positive (compareFn a b) = true -> le b a.
Hypothesis le_trans : forall a b c, le a b -> le b c -> le a c.

Lemma insertSorted_perm x l : Permutation (insertSorted compareFn x l) (x :: l).
Proof.
  induction l as [|y l IH]; simpl; [reflexivity|].
  destruct (positive (compareFn x y)); [|reflexivity].
  rewrite IH. apply perm_swap.
Qed.

Lemma sort_perm l : Permutation (sort compareFn l) l.
Proof.
  induction l as [|x l IH]; simpl; [reflexivity|].
  rewrite insertSorted_perm, IH. reflexivity.
Qed.

Lemma insertSorted_sorted x l :
  StronglySorted le l -> StronglySorted le (insertSorted compareFn x l).
Proof.
  induction 1 as [|y l Hs IH Hy]; simpl.
  - constructor; constructor.
  - destruct (positive (compareFn x y)) eqn:E.
    + constructor; [exact IH|].
      rewrite Forall_forall. intros z Hz.
      rewrite insertSorted_perm in Hz.
      apply elem_of_cons in Hz as [->|Hz]; [apply le_total; exact E|].
      rewrite Forall_forall in Hy. apply Hy. exact Hz.
    + constructor; [constructor; assumption|].
      constructor; [apply le_compare; exact E|].
      eapply Forall_impl; [exact Hy|]. intros z Hz. simpl in Hz.
      eapply le_trans; [apply le_compare; exact E | exact Hz].
Qed.

Lemma sort_sorted l : StronglySorted le (sort compareFn l).
Proof.
  induction l as [|x l IH]; simpl; [constructor | apply insertSorted_sorted; exact IH].
Qed.
End SortFacts.

Lemma sorted_lookup {A} (le : A -> A -> Prop) l :
  StronglySorted le l ->
  forall i j a b, (i < j)%nat -> l !! i = Some a -> l !! j = Some b -> le a b.
Proof.
  induction 1 as [|x l Hs IH Hx]; intros i j a b Hij Hi Hj; [discriminate|].
  destruct j as [|j]; [lia|]. simpl in Hj. destruct i as [|i]; simpl in Hi.
  - injection Hi as <-. rewrite Forall_forall in Hx. apply Hx.
    eapply list_elem_of_lookup_2. exact Hj.
  - eapply IH; [|exact Hi|exact Hj]. lia.
Qed.


(** The sort on lists whose elements the comparator orders consistently. *)
Section SortFactsOn.
Context {A : Type} (compareFn : A -> A -> Num) (le : A -> A -> Prop) (P : A -> Prop).
Hypothesis le_compare : forall a b, P a -> P b -> positive (compareFn a b) = false -> le a b.
Hypothesis le_total : forall a b, P a -> P b -> positive (compareFn a b) = true -> le b a.
Hypothesis le_trans : forall a b c, P a -> P b -> P c -> le a b -> le b c -> le a c.


End SortFactsOn.


(** ** The orchestrator *)

Lemma clearAsyncOperations_frame s :
  baseNamesInput (clearAsyncOperations s) = baseNamesInput s
  /\ tldsInput (clearAsyncOperations s) = tldsInput s
  /\ wire (clearAsyncOperations s) = wire s
  /\ tasks (clearAsyncOperations s) = tasks s
  /\ gridResults (clearAsyncOperations s) = gridResults s
  /\ isLoading (clearAsyncOperations s) = isLoading s
  /\ errorMessage (clearAsyncOperations s) = errorMessage s.
Proof.
  unfold clearAsyncOperations, stopFlushInterval.
  destruct (flushIntervalRef s) as [[|t]|]; simpl; repeat split.
Qed.

(** The state [handleSubmit] starts from: the results of the previous
    submission are dropped, the inputs kept. *)
Lemma submit_reset_frame s :
  let s1 := clearAsyncOperations
              (set_sortConfig None (set_startTimeRef None (set_timeTaken None
                 (set_parsedTldsForTable [] (set_gridResults [] (set_errorMessage None s)))))) in
  baseNamesInput s1 = baseNamesInput s /\ tldsInput s1 = tldsInput s
  /\ wire s1 = wire s /\ tasks s1 = tasks s.
Proof.
  intros s1. unfold s1.
  destruct (clearAsyncOperations_frame
              (set_sortConfig None (set_startTimeRef None (set_timeTaken None
                 (set_parsedTldsForTable [] (set_gridResults [] (set_errorMessage None s)))))))
    as (-> & -> & -> & -> & _).
  repeat split.
Qed.

Lemma overCeiling_result s1 m now n next grid tlds :
  let s' := clearAsyncOperations
         (set_startTimeRef None (set_parsedTldsForTable [] (set_gridResults []
            (set_isLoading false (set_errorMessage m
               (set_completedChecksRef 0 (set_totalChecksRef n (set_nextObject next
                  (set_gridResults grid (set_startTimeRef (Some now)
                     (set_parsedTldsForTable tlds (set_isLoading true s1)))))))))))) in
  errorMessage s' = m /\ gridResults s' = [] /\ isLoading s' = false
  /\ wire s' = wire s1 /\ tasks s' = tasks s1.
Proof.
  intros s'. unfold s'.
  match goal with |- context [clearAsyncOperations ?x] =>
    destruct (clearAsyncOperations_frame x) as (_ & _ & -> & -> & -> & -> & ->) end.
  repeat split.
Qed.

(** C4. When the combinations produced by a submission number more than
    50,000, [handleSubmit] ends with the error message that asks to reduce
    the input, an empty grid and the loading flag off, and it launches no
    check: nothing is added to the wire or to the promise chains. *)
Theorem handleSubmit_over_ceiling (now : Z) (ids : nat -> string) (s : AppState) :
  let uniqueBaseNames := parseBaseNames (baseNamesInput s) in
  let uniqueTlds := parseTlds (tldsInput s) in
  validateInputs uniqueBaseNames uniqueTlds = None ->
  (50000 < Z.of_nat (length (domainsToProcess uniqueBaseNames uniqueTlds)))%Z ->
  errorMessage (handleSubmit now ids s)
  = Some "Generated more than 50,000 domain combinations. Please reduce base names or TLDs."
  /\ gridResults (handleSubmit now ids s) = []
  /\ isLoading (handleSubmit now ids s) = false
  /\ wire (handleSubmit now ids s) = wire s
  /\ tasks (handleSubmit now ids s) = tasks s.
Proof.
  intros bs ts Hv Hn. unfold handleSubmit.
  destruct (submit_reset_frame s) as (Hb & Ht & Hw & Hk).
  revert Hb Ht Hw Hk.
  generalize (clearAsyncOperations
                (set_sortConfig None (set_startTimeRef None (set_timeTaken None
                   (set_parsedTldsForTable [] (set_gridResults [] (set_errorMessage None s))))))).
  intros s1 Hb Ht Hw Hk.
  rewrite Hb, Ht. fold bs ts. rewrite Hv.
  change (totalChecksRef (set_completedChecksRef 0 (set_totalChecksRef ?n ?x))) with n.
  apply Z.ltb_lt in Hn. rewrite Hn.
  rewrite <- Hw, <- Hk. apply overCeiling_result.
Qed.

Lemma handleSubmit_over_ceiling_witness :
  errorMessage (handleSubmit 1000 someIds tooManyTyped)
  = Some "Generated more than 50,000 domain combinations. Please reduce base names or TLDs."
  /\ gridResults (handleSubmit 1000 someIds tooManyTyped) = []
  /\ isLoading (handleSubmit 1000 someIds tooManyTyped) = false
  /\ wire (handleSubmit 1000 someIds tooManyTyped) = wire tooManyTyped
  /\ tasks (handleSubmit 1000 someIds tooManyTyped) = tasks tooManyTyped.
Proof.
  apply (handleSubmit_over_ceiling 1000 someIds tooManyTyped).
  - vm_compute. reflexivity.
  - apply Z.ltb_lt. vm_compute. reflexivity.
Defined.

(** ** Invariants of the component *)

Section Invariants.
#[local] Open Scope Z_scope.

Lemma TimerInv_ext s s' :
  liveIntervals s' = liveIntervals s ->
  flushIntervalRef s' = flushIntervalRef s ->
  TimerInv s -> TimerInv s'.
Proof. intros E1 E2 [H1 H2]. constructor; rewrite ?E1, ?E2; assumption. Qed.

Lemma Inv_ext s s' :
  completedChecksRef s' = completedChecksRef s ->
  totalChecksRef s' = totalChecksRef s ->
  startTimeRef s' = startTimeRef s ->
  liveIntervals s' = liveIntervals s ->
  flushIntervalRef s' = flushIntervalRef s ->
  Inv s -> Inv s'.
Proof.
  intros E1 E2 E3 E4 E5 [H1 H2 H3].
  constructor; rewrite ?E1, ?E2, ?E3; try assumption.
  revert H3. apply TimerInv_ext; assumption.
Qed.

Lemma Inv_flush s : Inv s -> Inv (flushPendingCellUpdates s).
Proof.
  destruct (flush_frame s) as (E1 & E2 & E3 & E4 & E5 & _). apply Inv_ext; assumption.
Qed.

Lemma stop_frame s :
  TimerInv s ->
  flushIntervalRef (stopFlushInterval s) = None
  /\ liveIntervals (stopFlushInterval s) = []
  /\ completedChecksRef (stopFlushInterval s) = completedChecksRef s
  /\ totalChecksRef (stopFlushInterval s) = totalChecksRef s
  /\ startTimeRef (stopFlushInterval s) = startTimeRef s
  /\ pendingCellUpdatesRef (stopFlushInterval s) = pendingCellUpdatesRef s
  /\ isLoading (stopFlushInterval s) = isLoading s
  /\ tasks (stopFlushInterval s) = tasks s.
Proof.
  intros [H3 H4]. unfold stopFlushInterval, clearInterval.
  destruct (flushIntervalRef s) as [t|] eqn:E.
  - destruct t as [|t]; [exfalso; eapply H4; eauto|]. simpl. rewrite H3.
    rewrite filter_cons_False by (intros H; apply H; reflexivity). rewrite filter_nil.
    repeat split.
  - rewrite E, H3. repeat split.
Qed.

Lemma clearAsyncOperations_resets s :
  TimerInv s ->
  flushIntervalRef (clearAsyncOperations s) = None
  /\ liveIntervals (clearAsyncOperations s) = []
  /\ pendingCellUpdatesRef (clearAsyncOperations s) = []
  /\ completedChecksRef (clearAsyncOperations s) = 0%Z
  /\ totalChecksRef (clearAsyncOperations s) = 0.
Proof.
  intros H. destruct (stop_frame s H) as (E1 & E2 & _).
  unfold clearAsyncOperations. simpl. repeat split; assumption.
Qed.

Lemma Inv_clearAsyncOperations s : TimerInv s -> Inv (clearAsyncOperations s).
Proof.
  intros H. destruct (clearAsyncOperations_resets s H) as (E1 & E2 & E3 & E4 & E5).
  constructor; [rewrite E4; lia | rewrite E5; intros Hc; contradiction|].
  constructor; rewrite E1; [exact E2 | discriminate].
Qed.

Lemma Inv_setPhase i p s : Inv s -> Inv (setPhase i p s).
Proof.
  unfold setPhase. destruct (tasks s !! i); [|auto]. apply Inv_ext; reflexivity.
Qed.

Lemma Inv_handleClear s : Inv s -> Inv (handleClear s).
Proof.
  intros [_ _ H]. unfold handleClear. apply Inv_clearAsyncOperations.
  revert H. apply TimerInv_ext; reflexivity.
Qed.

Lemma Inv_inputError s1 m : Inv s1 -> Inv (set_errorMessage (Some m) s1).
Proof. apply Inv_ext; reflexivity. Qed.

Lemma Inv_overCeiling s1 m now n next grid tlds :
  TimerInv s1 ->
  Inv (clearAsyncOperations
         (set_startTimeRef None (set_parsedTldsForTable [] (set_gridResults []
            (set_isLoading false (set_errorMessage m
               (set_completedChecksRef 0 (set_totalChecksRef n (set_nextObject next
                  (set_gridResults grid (set_startTimeRef (Some now)
                     (set_parsedTldsForTable tlds (set_isLoading true s1))))))))))))).
Proof. intros H. apply Inv_clearAsyncOperations. revert H. apply TimerInv_ext; reflexivity. Qed.

Lemma Inv_noCombination s1 m now n next grid tlds :
  TimerInv s1 ->
  Inv (clearAsyncOperations
         (set_startTimeRef None (set_isLoading false (set_errorMessage m
            (set_completedChecksRef 0 (set_totalChecksRef n (set_nextObject next
               (set_gridResults grid (set_startTimeRef (Some now)
                  (set_parsedTldsForTable tlds (set_isLoading true s1))))))))))).
Proof. intros H. apply Inv_clearAsyncOperations. revert H. apply TimerInv_ext; reflexivity. Qed.

Lemma Inv_runStarted s1 now n next grid tlds items :
  (0 < now)%Z -> liveIntervals s1 = [] ->
  Inv (let '(t, s0) :=
         setInterval
           (set_completedChecksRef 0 (set_totalChecksRef n (set_nextObject next
              (set_gridResults grid (set_startTimeRef (Some now)
                 (set_parsedTldsForTable tlds (set_isLoading true s1)))))))
       in launchChecks items (set_flushIntervalRef (Some t) s0)).
Proof.
  intros Hnow El. constructor.
  - simpl. apply Z.le_refl.
  - intros _. exists now. split; [reflexivity | exact Hnow].
  - constructor; simpl; [rewrite El; reflexivity | intros t [= <-]; discriminate].
Qed.

Lemma Inv_handleSubmit now ids s : (0 < now)%Z -> Inv s -> Inv (handleSubmit now ids s).
Proof.
  intros Hnow [_ _ H]. unfold handleSubmit.
  assert (Ht : TimerInv (set_sortConfig None (set_startTimeRef None (set_timeTaken None
                 (set_parsedTldsForTable [] (set_gridResults [] (set_errorMessage None s))))))).
  { revert H. apply TimerInv_ext; reflexivity. }
  pose proof (Inv_clearAsyncOperations _ Ht) as H1.
  destruct (clearAsyncOperations_resets _ Ht) as (Ef & El & _ & _ & _).
  clear Ht H. revert H1 Ef El.
  generalize (clearAsyncOperations
                (set_sortConfig None (set_startTimeRef None (set_timeTaken None
                   (set_parsedTldsForTable [] (set_gridResults [] (set_errorMessage None s))))))).
  intros s1 H1 Ef El.
  match goal with |- context [validateInputs ?a ?b] => generalize (validateInputs a b) end.
  intros [message|]; [apply Inv_inputError; exact H1|].
  match goal with |- context [Z.ltb ?a ?b] => generalize (Z.ltb a b) end.
  intros [|]; [apply Inv_overCeiling, H1|].
  match goal with |- context [Z.eqb ?a ?b] => generalize (Z.eqb a b) end.
  intros [|]; [apply Inv_noCombination, H1|].
  apply Inv_runStarted; assumption.
Qed.

Lemma Inv_stop s : Inv s -> Inv (stopFlushInterval s).
Proof.
  intros [H1 H2 H3]. destruct (stop_frame s H3) as (E1 & E2 & E3 & E4 & E5 & _).
  constructor; rewrite ?E3, ?E4, ?E5; try assumption.
  constructor; rewrite E1; [exact E2 | discriminate].
Qed.

Lemma Inv_counted s : Inv s -> Inv (set_completedChecksRef (completedChecksRef s + 1) s).
Proof.
  intros [H1 H2 H3]. constructor; [simpl; lia | exact H2|].
  revert H3. apply TimerInv_ext; reflexivity.
Qed.

Lemma Inv_loaded s : Inv s -> Inv (set_isLoading false s).
Proof. apply Inv_ext; reflexivity. Qed.

Lemma Inv_timed s d : Inv s -> Inv (set_timeTaken d s).
Proof. apply Inv_ext; reflexivity. Qed.

Lemma Inv_onFinally now s : Inv s -> Inv (onFinally now s).
Proof.
  intros H. unfold onFinally.
  pose proof (Inv_counted s H) as H1. clear H. revert H1.
  generalize (set_completedChecksRef (completedChecksRef s + 1) s). intros s1 H1.
  match goal with |- context [Z.eqb ?a ?b] => generalize (Z.eqb a b) end.
  intros [|]; [|exact H1].
  pose proof (Inv_loaded _ (Inv_flush _ (Inv_stop _ H1))) as H2. clear H1. revert H2.
  generalize (set_isLoading false (flushPendingCellUpdates (stopFlushInterval s1))).
  intros s2 H2.
  destruct (startTimeRef s2) as [start|]; [|exact H2].
  destruct (start =? 0); [exact H2 | apply Inv_timed; exact H2].
Qed.

Lemma Inv_step s e : Inv s -> enabled s e = true -> Inv (step s e).
Proof.
  intros H He. unfold enabled in He. apply andb_true_iff in He as [_ He]. destruct e; simpl.
  - revert H. apply Inv_ext; reflexivity.
  - revert H. apply Inv_ext; reflexivity.
  - simpl in He. apply andb_true_iff in He as [_ He]. apply Z.ltb_lt in He.
    apply Inv_handleSubmit; assumption.
  - apply Inv_handleClear; assumption.
  - revert H. apply Inv_ext; reflexivity.
  - apply Inv_flush; assumption.
  - destruct (tasks s !! i); [|exact H]. apply Inv_setPhase.
    revert H. apply Inv_ext; reflexivity.
  - apply Inv_setPhase, Inv_onFinally. exact H.
Qed.

Lemma reachable_Inv s : reachable s -> Inv s.
Proof.
  induction 1 as [|s e _ IH He].
  - constructor; simpl; [lia | intros H; contradiction|].
    constructor; simpl; [reflexivity | discriminate].
  - apply Inv_step; assumption.
Qed.

Lemma setPhase_frame i p s :
  flushIntervalRef (setPhase i p s) = flushIntervalRef s
  /\ liveIntervals (setPhase i p s) = liveIntervals s
  /\ pendingCellUpdatesRef (setPhase i p s) = pendingCellUpdatesRef s
  /\ isLoading (setPhase i p s) = isLoading s
  /\ timeTaken (setPhase i p s) = timeTaken s
  /\ completedChecksRef (setPhase i p s) = completedChecksRef s
  /\ totalChecksRef (setPhase i p s) = totalChecksRef s.
Proof. unfold setPhase. destruct (tasks s !! i); repeat split. Qed.


(** ** The progress counters *)

Lemma unfinished_nonneg l : 0 <= unfinished l.
Proof. induction l as [|t l IH]; simpl; [lia|]. destruct (bool_decide _); lia. Qed.

Lemma unfinished_app l1 l2 : unfinished (l1 ++ l2) = unfinished l1 + unfinished l2.
Proof. induction l1 as [|t l IH]; simpl; [lia|]. rewrite IH. lia. Qed.

Lemma unfinished_launched (items : list DomainToProcess) :
  unfinished (map (fun it => mkTask it AwaitingCheck) items) = Z.of_nat (length items).
Proof. induction items as [|it l IH]; simpl length; simpl; [reflexivity|]. rewrite IH. lia. Qed.

Lemma unfinished_insert l : forall i t t',
  l !! i = Some t ->
  unfinished (<[i := t']> l) = unfinished l - weight t + weight t'.
Proof.
  induction l as [|x l IH]; intros i t t' H; [discriminate|].
  destruct i as [|i]; simpl in *.
  - injection H as ->. unfold weight. lia.
  - rewrite (IH i t t' H). lia.
Qed.

Lemma stop_frame_counters s :
  completedChecksRef (stopFlushInterval s) = completedChecksRef s
  /\ totalChecksRef (stopFlushInterval s) = totalChecksRef s
  /\ isLoading (stopFlushInterval s) = isLoading s
  /\ tasks (stopFlushInterval s) = tasks s.
Proof.
  unfold stopFlushInterval. destruct (flushIntervalRef s) as [[|t]|]; repeat split.
Qed.

Lemma onFinally_counters now s :
  completedChecksRef (onFinally now s) = completedChecksRef s + 1
  /\ totalChecksRef (onFinally now s) = totalChecksRef s
  /\ tasks (onFinally now s) = tasks s
  /\ (isLoading (onFinally now s) = isLoading s
      \/ completedChecksRef s + 1 = totalChecksRef s).
Proof.
  unfold onFinally.
  change (completedChecksRef (set_completedChecksRef (completedChecksRef s + 1) s))
    with (completedChecksRef s + 1).
  change (totalChecksRef (set_completedChecksRef (completedChecksRef s + 1) s))
    with (totalChecksRef s).
  destruct (Z.eqb_spec (completedChecksRef s + 1) (totalChecksRef s)) as [E|E].
  - destruct (stop_frame_counters (set_completedChecksRef (completedChecksRef s + 1) s))
      as (E1 & E2 & E3 & E4).
    destruct (flush_frame (stopFlushInterval (set_completedChecksRef (completedChecksRef s + 1) s)))
      as (F1 & F2 & _ & _ & _ & _ & _ & F8 & _).
    revert F1 F2 F8.
    generalize (flushPendingCellUpdates
                  (stopFlushInterval (set_completedChecksRef (completedChecksRef s + 1) s))).
    intros s2 F1 F2 F8.
    change (startTimeRef (set_isLoading false s2)) with (startTimeRef s2).
    destruct (startTimeRef s2) as [start|]; [destruct (start =? 0)|];
      (split; [|split; [|split; [|right; exact E]]]);
      first [ change (completedChecksRef s2 = completedChecksRef s + 1)
            | change (totalChecksRef s2 = totalChecksRef s)
            | change (tasks s2 = tasks s) ];
      rewrite ?F1, ?F2, ?F8, ?E1, ?E2, ?E4; reflexivity.
  - repeat split. left. reflexivity.
Qed.

Lemma rejected_counters (s' : AppState) :
  completedChecksRef (clearAsyncOperations s') = 0
  /\ totalChecksRef (clearAsyncOperations s') = 0.
Proof.
  unfold clearAsyncOperations. repeat split.
Qed.

Lemma runStarted_counters s1 now n next grid tlds items :
  let s' := (let '(t, s0) :=
         setInterval
           (set_completedChecksRef 0 (set_totalChecksRef n (set_nextObject next
              (set_gridResults grid (set_startTimeRef (Some now)
                 (set_parsedTldsForTable tlds (set_isLoading true s1)))))))
       in launchChecks items (set_flushIntervalRef (Some t) s0)) in
  completedChecksRef s' = 0 /\ totalChecksRef s' = n /\ isLoading s' = true
  /\ tasks s' = tasks s1 ++ map (fun it => mkTask it AwaitingCheck) items.
Proof. repeat split. Qed.

Lemma handleSubmit_counters now ids s :
  let s' := handleSubmit now ids s in
  (completedChecksRef s' = 0 /\ totalChecksRef s' = 0 /\ tasks s' = tasks s)
  \/ (exists items, completedChecksRef s' = 0 /\ totalChecksRef s' = Z.of_nat (length items)
        /\ isLoading s' = true
        /\ tasks s' = tasks s ++ map (fun it => mkTask it AwaitingCheck) items).
Proof.
  intros s'. unfold s', handleSubmit.
  destruct (submit_reset_frame s) as (_ & _ & _ & Hk).
  destruct (rejected_counters (set_sortConfig None (set_startTimeRef None (set_timeTaken None
                 (set_parsedTldsForTable [] (set_gridResults [] (set_errorMessage None s)))))))
    as (Hc & Hn).
  revert Hk Hc Hn.
  generalize (clearAsyncOperations
                (set_sortConfig None (set_startTimeRef None (set_timeTaken None
                   (set_parsedTldsForTable [] (set_gridResults [] (set_errorMessage None s))))))).
  intros s1 Hk Hc Hn.
  match goal with |- context [validateInputs ?a ?b] => generalize (validateInputs a b) end.
  intros [message|].
  { left. rewrite <- Hk. repeat split; assumption. }
  match goal with |- context [Z.ltb ?a ?b] => generalize (Z.ltb a b) end.
  intros [|].
  { left. rewrite <- Hk.
    match goal with |- context [clearAsyncOperations ?x] =>
      destruct (rejected_counters x) as (-> & ->);
      destruct (clearAsyncOperations_frame x) as (_ & _ & _ & -> & _) end.
    repeat split. }
  match goal with |- context [Z.eqb ?a ?b] => generalize (Z.eqb a b) end.
  intros [|].
  { left. rewrite <- Hk.
    match goal with |- context [clearAsyncOperations ?x] =>
      destruct (rejected_counters x) as (-> & ->);
      destruct (clearAsyncOperations_frame x) as (_ & _ & _ & -> & _) end.
    repeat split. }
  right. eexists. rewrite <- Hk. apply runStarted_counters.
Qed.

Lemma setPhase_tasks i p s t :
  tasks s !! i = Some t -> tasks (setPhase i p s) = <[i := mkTask (item t) p]> (tasks s).
Proof. intros H. unfold setPhase. rewrite H. reflexivity. Qed.

Lemma Balanced_step s e :
  Balanced s -> enabled s e = true -> e <> ClickClear -> Balanced (step s e).
Proof.
  intros [Hsum Hidle] He Hne. unfold enabled in He. apply andb_true_iff in He as [_ He].
  destruct e; try contradiction.
  - split; [exact Hsum | exact Hidle].
  - split; [exact Hsum | exact Hidle].
  - simpl in He. apply andb_true_iff in He as [He _]. apply andb_true_iff in He as [He _].
    apply andb_true_iff in He as [He _]. apply negb_true_iff in He.
    specialize (Hidle He).
    change (step s (ClickCheck now ids)) with (handleSubmit now ids s).
    destruct (handleSubmit_counters now ids s) as [(E1 & E2 & E3)|(items & E1 & E2 & E3 & E4)];
      unfold Balanced; rewrite E1, E2.
    + rewrite E3, Hidle. split; [reflexivity | auto].
    + rewrite E4, E3, unfinished_app, unfinished_launched, Hidle.
      split; [lia | discriminate].
  - split; [exact Hsum | exact Hidle].
  - change (step s (IntervalFires t)) with (flushPendingCellUpdates s).
    destruct (flush_frame s) as (F1 & F2 & _ & _ & _ & F6 & _ & F8 & _).
    unfold Balanced. rewrite F1, F2, F6, F8. split; assumption.
  - simpl in He. apply bool_decide_eq_true in He. unfold taskPhase in He.
    destruct (tasks s !! i) as [t|] eqn:Et; [|discriminate]. simpl in He. injection He as Hp.
    simpl. rewrite Et.
    pose proof (setPhase_tasks i AwaitingFinally (push (settledUpdate (item t) net) s) t Et) as Hk.
    destruct (setPhase_frame i AwaitingFinally (push (settledUpdate (item t) net) s))
      as (_ & _ & _ & Hl & _ & Hc & Hn).
    unfold Balanced. rewrite Hk, Hl, Hc, Hn.
    change (tasks (push _ s)) with (tasks s).
    change (isLoading (push _ s)) with (isLoading s).
    change (completedChecksRef (push _ s)) with (completedChecksRef s).
    change (totalChecksRef (push _ s)) with (totalChecksRef s).
    rewrite (unfinished_insert _ i t _ Et). unfold weight. simpl. rewrite Hp. simpl.
    split; [lia | intros H; specialize (Hidle H); lia].
  - simpl in He. apply bool_decide_eq_true in He. unfold taskPhase in He.
    destruct (tasks s !! i) as [t|] eqn:Et; [|discriminate]. simpl in He. injection He as Hp.
    change (step s (CheckFinally i now)) with (setPhase i Finished (onFinally now s)).
    destruct (onFinally_counters now s) as (C1 & C2 & C3 & C4).
    assert (Et' : tasks (onFinally now s) !! i = Some t) by (rewrite C3; exact Et).
    pose proof (setPhase_tasks i Finished (onFinally now s) t Et') as Hk.
    destruct (setPhase_frame i Finished (onFinally now s)) as (_ & _ & _ & Hl & _ & Hc & Hn).
    unfold Balanced. rewrite Hk, Hl, Hc, Hn, C1, C2, C3.
    rewrite (unfinished_insert _ i t _ Et). unfold weight. simpl. rewrite Hp. simpl.
    pose proof (unfinished_nonneg (tasks s)) as Hnn.
    assert (Hpos : 1 <= unfinished (tasks s)).
    { clear - Et Hp. revert i Et. induction (tasks s) as [|x l IH]; intros i Et; [discriminate|].
      destruct i as [|i]; simpl in *.
      - injection Et as ->. rewrite Hp. simpl. pose proof (unfinished_nonneg l). lia.
      - specialize (IH i Et). destruct (bool_decide _); lia. }
    split; [lia|]. intros H. destruct C4 as [C4|C4]; [|lia].
    rewrite C4 in H. specialize (Hidle H). lia.
Qed.

(** While a run is neither cleared nor superseded, [completedChecks] stays
    at or below [totalChecks]. *)
Theorem uncleared_run_keeps_completed_below_total s :
  reachableWithoutClear s -> completedChecksRef s <= totalChecksRef s.
Proof.
  intros H. assert (Hb : Balanced s).
  { induction H as [|s e _ IH He Hne].
    - split; reflexivity.
    - apply Balanced_step; assumption. }
  destruct Hb as [Hsum _]. pose proof (unfinished_nonneg (tasks s)). lia.
Qed.

(** C6 fails on the code: a run of one check is cleared while the check is
    in flight; when the check settles, its [finally] handler counts it,
    and [completedChecks] is 1 with [totalChecks] at 0. *)
Theorem completed_exceeds_total_after_clear :
  completedChecksRef <$> run initialState clearedThenSettled = Some 1
  /\ totalChecksRef <$> run initialState clearedThenSettled = Some 0
  /\ pendingCellUpdatesRef <$> run initialState clearedThenSettled
     = Some [mkUpdate "foo" "com" AVAILABLE
               (Some "All providers reported NXDOMAIN for A & NS records. Details: Cloudflare A-query: NXDOMAIN; Cloudflare NS-query: NXDOMAIN; Google A-query: NXDOMAIN; Google NS-query: NXDOMAIN")].
Proof. repeat split. Qed.

(** C5 fails on the code: a run for foo.com is cleared while its check is
    in flight and foo.com is submitted again; the check of the first run
    then settles with NOERROR. Its result is buffered, counted and flushed
    into the grid of the second run, which shows Taken and stops loading
    while its own check has not settled yet. *)
Theorem stale_result_applied_to_new_run :
  (fun s => shownStatuses (gridResults s)) <$> run initialState resubmittedThenStaleSettles
  = Some [("foo", [("com", Known TAKEN)])]
  /\ completedChecksRef <$> run initialState resubmittedThenStaleSettles = Some 1
  /\ totalChecksRef <$> run initialState resubmittedThenStaleSettles = Some 1
  /\ isLoading <$> run initialState resubmittedThenStaleSettles = Some false
  /\ (fun s => taskPhase s 1) <$> run initialState resubmittedThenStaleSettles
     = Some (Some AwaitingCheck).
Proof. repeat split. Qed.

End Invariants.

(** * Further properties of the code *)

(** ** What a query result carries *)

Lemma makeDohQuery_result p d t net :
  exists r, settle (makeDohQuery p d t) net = Normal r
            /\ providerName r = name p /\ recordType r = t
            /\ dnsStatus r = bodyStatus (net (urlPattern p d t)).
Proof.
  unfold makeDohQuery, bodyStatus. simpl.
  destruct (net (urlPattern p d t)) as [response|e]; simpl.
  - destruct (json response) as [responseData|e]; simpl.
    + destruct (ok response); simpl.
      * destruct responseData as [body|]; simpl; eexists; repeat split; eauto.
      * destruct responseData as [body|]; simpl; eexists; repeat split; eauto.
    + eexists; repeat split; eauto.
  - eexists; repeat split; eauto.
Qed.

Lemma sequence_Forall2 {A B} (f : A -> Completion B) l : forall rs,
  sequence (map f l) = Normal rs -> Forall2 (fun x r => f x = Normal r) l rs.
Proof.
  induction l as [|x l IH]; simpl; intros rs H.
  - injection H as <-. constructor.
  - destruct (f x) as [a|e] eqn:E; simpl in H; [|discriminate].
    destruct (sequence (map f l)) as [r|e] eqn:Es; simpl in H; [|discriminate].
    injection H as <-. constructor; [exact E | apply IH; reflexivity].
Qed.

Lemma queryResults_each d net results :
  queryResults d net = Normal results ->
  Forall2 (fun q r => settle (makeDohQuery (fst q) d (snd q)) net = Normal r) queries results.
Proof.
  intros H. apply (sequence_Forall2 (fun q => settle (makeDohQuery (fst q) d (snd q)) net)).
  exact H.
Qed.

Lemma queryResults_statuses d net results :
  queryResults d net = Normal results ->
  Forall2 (fun q r => providerName r = name (fst q) /\ recordType r = snd q
                      /\ dnsStatus r = bodyStatus (net (urlPattern (fst q) d (snd q))))
          queries results.
Proof.
  intros H. apply queryResults_each in H.
  eapply Forall2_impl; [exact H|]. intros [p t] r E. cbn [fst snd] in *.
  destruct (makeDohQuery_result p d t net) as (r' & E' & H1 & H2 & H3).
  rewrite E in E'. injection E' as <-. auto.
Qed.

(** X1. Whatever the domain string, on replies of the declared shape
    [checkDomain] resolves with one of the statuses Available, Taken and
    Invalid (never Checking or Idle), and its outcome carries a reason.
    On replies of any shape it does the same or rejects; it rejects only
    for a format-valid domain, and only with what the loop over the
    results throws on the parsed body of a reply: at status 0 by
    comparing [Answer.length] with 0, or by printing a [Status] that
    has no primitive value. *)
Theorem checkDomain_outcome_final (domain : string) :
  (forall net : Network,
     exists st reason,
       settle (checkDomain domain) net = Normal (mkOutcome st (Some reason))
       /\ (st = AVAILABLE \/ st = TAKEN \/ st = INVALID))
  /\ (forall net : Untyped.Replies,
        (exists st reason,
           Untyped.checkDomain domain net = Normal (mkOutcome st (Some reason))
           /\ (st = AVAILABLE \/ st = TAKEN \/ st = INVALID))
        \/ (valid (isValidDomainFormat domain) = true
            /\ exists e p t response body,
                 Untyped.checkDomain domain net = Abrupt e
                 /\ p ∈ providers
                 /\ net (urlPattern p domain t) = Normal response
                 /\ Untyped.parsed response = Normal (Some body)
                 /\ ((Untyped.statusField body = Untyped.Code 0
                      /\ Untyped.hasAnswers body = Abrupt e)
                     \/ Untyped.statusField body = Untyped.Other (Abrupt e)))).
Proof.
  split.
  - intros net. destruct (valid (isValidDomainFormat domain)) eqn:Hv.
    + destruct (queryResults_settle domain net) as (results & Hq & _).
      destruct (classify_has_reason results) as (reason & Hr).
      exists (o_status (classify results)), reason.
      rewrite (checkDomain_valid domain net results Hv Hq). split.
      * f_equal. apply outcome_eta; [reflexivity | exact Hr].
      * rewrite classify_status. repeat destruct (bool_decide _); auto.
    + destruct (invalid_has_reason domain Hv) as (reason & E).
      exists INVALID, reason. unfold checkDomain. rewrite E. simpl. auto.
  - intros net.
    destruct (Untyped_checkDomain_cases domain net)
      as [(Hv & E)|(Hv & [(o & E & Ho & [reason Hr] & _)|H])].
    + left. destruct (invalid_has_reason domain Hv) as (reason & Er).
      exists INVALID, reason. rewrite E, Er. simpl. auto.
    + left. exists (o_status o), reason. rewrite E. split; [|tauto].
      f_equal. apply outcome_eta; [reflexivity | exact Hr].
    + right. split; [exact Hv | exact H].
Qed.

Lemma checkDomain_outcome_final_witness :
  (exists st reason,
     settle (checkDomain "foo.com") allNxDomain = Normal (mkOutcome st (Some reason))
     /\ (st = AVAILABLE \/ st = TAKEN \/ st = INVALID))
  /\ Untyped.checkDomain "foo.com" lengthWithoutPrimitive
     = Abrupt (ErrorObject "Cannot convert object to primitive value").
Proof.
  split; [apply (checkDomain_outcome_final "foo.com") | reflexivity].
Defined.

(** X2. A format-valid domain is reported Available exactly when the body
    of each of the four replies (both providers, A and NS) parses to an
    object whose [Status] is 3. The HTTP status of a reply plays no part:
    a non-2xx reply that carries status 3 counts as NXDOMAIN. *)
Theorem checkDomain_available_iff (domain : string) (net : Network) :
  valid (isValidDomainFormat domain) = true ->
  (exists reason, settle (checkDomain domain) net = Normal (mkOutcome AVAILABLE (Some reason)))
  <-> (forall p t, p ∈ providers -> bodyStatus (net (urlPattern p domain t)) = Some 3%Z).
Proof.
  intros Hv.
  destruct (queryResults_settle domain net) as (results & Hq & _).
  rewrite (checkDomain_valid domain net results Hv Hq).
  pose proof (queryResults_statuses domain net results Hq) as Hs.
  assert (Hall : Forall (fun r => dnsStatus r = Some 3%Z) results
                 <-> forall p t, p ∈ providers ->
                       bodyStatus (net (urlPattern p domain t)) = Some 3%Z).
  { split.
    - intros H p t Hp.
      assert (Hq' : (p, t) ∈ queries).
      { unfold queries. apply list_elem_of_In, in_flat_map. exists p.
        split; [apply list_elem_of_In; exact Hp|]. destruct t; simpl; auto. }
      apply list_elem_of_lookup in Hq' as (i & Hi).
      destruct (Forall2_lookup_l _ _ _ _ _ Hs Hi) as (r & Hr & _ & _ & E).
      simpl in E. rewrite <- E. rewrite Forall_forall in H. apply H.
      eapply list_elem_of_lookup_2. exact Hr.
    - intros H. rewrite Forall_forall. intros r Hr.
      apply list_elem_of_lookup in Hr as (i & Hi).
      destruct (Forall2_lookup_r _ _ _ _ _ Hs Hi) as ([p t] & Hq' & _ & _ & E).
      simpl in E. rewrite E. apply H.
      apply list_elem_of_lookup_2 in Hq'. unfold queries in Hq'.
      apply list_elem_of_In, in_flat_map in Hq' as (p' & Hp' & Hin).
      simpl in Hin. destruct Hin as [[= <- <-]|[[= <- <-]|[]]]; apply list_elem_of_In; exact Hp'. }
  rewrite <- Hall. pose proof (classify_status results) as Hc.
  split.
  - intros (reason & E). injection E as E. rewrite E in Hc. simpl in Hc.
    destruct (bool_decide (Forall (fun r => dnsStatus r <> Some 0%Z) results)); [|discriminate].
    destruct (bool_decide (Forall (fun r => dnsStatus r = Some 3%Z) results)) eqn:E3; [|discriminate].
    apply bool_decide_eq_true in E3. exact E3.
  - intros H3. destruct (classify_has_reason results) as (reason & Hr).
    exists reason. f_equal. apply outcome_eta; [|exact Hr].
    rewrite Hc. rewrite bool_decide_eq_true_2.
    + rewrite bool_decide_eq_true_2 by exact H3. reflexivity.
    + eapply Forall_impl; [exact H3|]. intros r E. simpl in E. rewrite E. discriminate.
Qed.

Lemma checkDomain_available_iff_witness :
  exists reason,
    settle (checkDomain "foo.com") (dohReplies 3 500) = Normal (mkOutcome AVAILABLE (Some reason)).
Proof.
  apply (checkDomain_available_iff "foo.com" (dohReplies 3 500)).
  - reflexivity.
  - intros p t _. reflexivity.
Defined.

(** ** The reason text *)

Lemma tallyOne_shape t r :
  let detailPrefix := providerName r +:+ " " +:+ recordTypeName (recordType r) +:+ "-query" in
  (exists x, takenReasons (tallyOne t r) = takenReasons t ++ [detailPrefix +:+ ": NOERROR" +:+ x]
             /\ allQueryDetails (tallyOne t r) = allQueryDetails t)
  \/ (exists y, takenReasons (tallyOne t r) = takenReasons t
                /\ allQueryDetails (tallyOne t r) = allQueryDetails t ++ [detailPrefix +:+ ": " +:+ y]).
Proof.
  unfold tallyOne.
  destruct (dnsStatus r) as [[|q|q]|]; simpl; eauto.
  destruct q as [[q|q|]|q|]; simpl; eauto.
Qed.

(** X3. The filter applied to the "Other details" of a Taken reason drops
    nothing: the prefixes of the four queries are pairwise different, so
    no detail starts with the prefix of a taken reason. Every query is
    reported once, among the taken reasons or among the details. *)
Theorem other_details_keep_every_detail (domain : string) (net : Network)
    (results : list DohQueryResult) :
  queryResults domain net = Normal results ->
  List.filter (notCoveredBy (takenReasons (tally results))) (allQueryDetails (tally results))
  = allQueryDetails (tally results)
  /\ (length (takenReasons (tally results)) + length (allQueryDetails (tally results)) = 4)%nat.
Proof.
  intros Hq. pose proof (queryResults_statuses domain net results Hq) as Hs.
  unfold queries, providers in Hs. simpl in Hs.
  repeat match goal with
         | H : Forall2 _ (_ :: _) _ |- _ =>
             apply Forall2_cons_inv_l in H as (? & ? & (? & ? & _) & ? & ->)
         | H : Forall2 _ [] _ |- _ => apply Forall2_nil_inv_l in H as ->
         end.
  simpl in *. unfold tally. simpl.
  repeat match goal with
         | |- context [tallyOne ?t ?r] =>
             lazymatch t with
             | context [tallyOne] => fail
             | _ => idtac
             end;
             let x := fresh "x" in let A := fresh "A" in let B := fresh "B" in
             destruct (tallyOne_shape t r) as [(x & A & B)|(x & A & B)];
             revert A B; generalize (tallyOne t r); intros ? A B
         end.
  all: repeat match goal with
         | H : takenReasons _ = _ |- _ => rewrite H; clear H
         | H : allQueryDetails _ = _ |- _ => rewrite H; clear H
         end.
  all: repeat match goal with
         | H : providerName _ = _ |- _ => rewrite H; clear H
         | H : recordType _ = _ |- _ => rewrite H; clear H
         end.
  all: vm_compute; split; reflexivity.
Qed.

Lemma other_details_keep_every_detail_witness :
  exists results,
    queryResults "foo.com" cloudflareANoError = Normal results
    /\ List.filter (notCoveredBy (takenReasons (tally results))) (allQueryDetails (tally results))
       = allQueryDetails (tally results)
    /\ (length (takenReasons (tally results)) + length (allQueryDetails (tally results)) = 4)%nat.
Proof.
  eexists. split; [reflexivity|].
  apply (other_details_keep_every_detail "foo.com" cloudflareANoError). reflexivity.
Defined.

(** ** Normalisation of a domain string *)

Ltac each_char c :=
  destruct c as [[] [] [] [] [] [] [] []]; vm_compute;
  try reflexivity; try (intros; congruence).

Lemma toLowerChar_idem c : Js.toLowerChar (Js.toLowerChar c) = Js.toLowerChar c.
Proof. each_char c. Qed.

Lemma toLowerChar_whiteSpace c : Js.isWhiteSpace (Js.toLowerChar c) = Js.isWhiteSpace c.
Proof. each_char c. Qed.

Lemma toLowerCase_idem s : Js.toLowerCase (Js.toLowerCase s) = Js.toLowerCase s.
Proof. induction s as [|c s IH]; simpl; [reflexivity|]. rewrite toLowerChar_idem, IH. reflexivity. Qed.

Lemma toLowerCase_app s t : Js.toLowerCase (s +:+ t) = Js.toLowerCase s +:+ Js.toLowerCase t.
Proof. induction s as [|c s IH]; simpl; [reflexivity|]. rewrite IH. reflexivity. Qed.

Lemma toLowerCase_length s : String.length (Js.toLowerCase s) = String.length s.
Proof. induction s as [|c s IH]; simpl; [reflexivity|]. rewrite IH. reflexivity. Qed.

Lemma chars_toLowerCase s : chars (Js.toLowerCase s) = map Js.toLowerChar (chars s).
Proof. induction s as [|c s IH]; simpl; [reflexivity|]. unfold chars in *. simpl. rewrite IH. reflexivity. Qed.

Lemma trimStart_toLowerCase s : Js.trimStart (Js.toLowerCase s) = Js.toLowerCase (Js.trimStart s).
Proof.
  induction s as [|c s IH]; simpl; [reflexivity|].
  rewrite toLowerChar_whiteSpace. destruct (Js.isWhiteSpace c); [exact IH | reflexivity].
Qed.

Lemma trimEnd_toLowerCase s : Js.trimEnd (Js.toLowerCase s) = Js.toLowerCase (Js.trimEnd s).
Proof.
  induction s as [|c s IH]; simpl; [reflexivity|].
  rewrite IH, toLowerChar_whiteSpace. destruct (Js.trimEnd s); simpl; [|reflexivity].
  destruct (Js.isWhiteSpace c); reflexivity.
Qed.

(** Lower-casing and trimming commute. *)
Lemma trim_toLowerCase s : Js.trim (Js.toLowerCase s) = Js.toLowerCase (Js.trim s).
Proof. unfold Js.trim. rewrite trimStart_toLowerCase, trimEnd_toLowerCase. reflexivity. Qed.

Lemma trimStart_head s :
  match Js.trimStart s with
  | EmptyString => True
  | String c _ => Js.isWhiteSpace c = false
  end.
Proof.
  induction s as [|c s IH]; simpl; [exact I|].
  destruct (Js.isWhiteSpace c) eqn:E; [exact IH | exact E].
Qed.

Lemma trimEnd_head c s :
  Js.isWhiteSpace c = false -> exists t, Js.trimEnd (String c s) = String c t.
Proof. intros H. simpl. destruct (Js.trimEnd s); [rewrite H|]; eauto. Qed.

Lemma trimEnd_idem s : Js.trimEnd (Js.trimEnd s) = Js.trimEnd s.
Proof.
  induction s as [|c s IH]; simpl; [reflexivity|].
  destruct (Js.trimEnd s) as [|d t] eqn:E.
  - destruct (Js.isWhiteSpace c) eqn:Ec; simpl; [reflexivity | rewrite Ec; reflexivity].
  - simpl in *. rewrite IH. reflexivity.
Qed.

Lemma trim_idem s : Js.trim (Js.trim s) = Js.trim s.
Proof.
  unfold Js.trim. pose proof (trimStart_head s) as H.
  destruct (Js.trimStart s) as [|c x]; [reflexivity|].
  destruct (trimEnd_head c x H) as (t & E). rewrite E.
  change (Js.trimStart (String c t)) with (if Js.isWhiteSpace c then Js.trimStart t else String c t).
  rewrite H, <- E. apply trimEnd_idem.
Qed.

(** X4. The verdict of [isValidDomainFormat] depends neither on letter case
    nor on white space around the domain. *)
Theorem isValidDomainFormat_ignores_case_and_padding (domain : string) :
  valid (isValidDomainFormat (Js.toLowerCase domain)) = valid (isValidDomainFormat domain)
  /\ valid (isValidDomainFormat (Js.trim domain)) = valid (isValidDomainFormat domain).
Proof.
  assert (H : forall a b, Js.trim (Js.toLowerCase a) = Js.trim (Js.toLowerCase b) ->
                          valid (isValidDomainFormat a) = valid (isValidDomainFormat b)).
  { intros a b E. apply eq_true_iff_eq. rewrite !valid_iff_passes, E. reflexivity. }
  split; apply H.
  - rewrite toLowerCase_idem. reflexivity.
  - rewrite (trim_toLowerCase (Js.trim domain)), trim_idem, trim_toLowerCase. reflexivity.
Qed.

(** ** The request URLs *)

Lemma encodeURIComponent_unreserved s :
  Js.every isUnreserved s = true -> encodeURIComponent s = s.
Proof.
  induction s as [|c s IH]; simpl; [reflexivity|].
  intros H. apply andb_true_iff in H as [Hc Hs]. unfold encodeChar. rewrite Hc, IH by exact Hs.
  reflexivity.
Qed.

Lemma domainChar_unreserved c : isDomainChar (Js.toLowerChar c) = true -> isUnreserved c = true.
Proof. each_char c. Qed.

Lemma valid_chars d c :
  valid (isValidDomainFormat d) = true -> c ∈ chars (Js.trim d) ->
  isDomainChar (Js.toLowerChar c) = true.
Proof.
  intros Hv Hc. apply valid_iff_passes in Hv as (_ & _ & Hi & _).
  rewrite trim_toLowerCase in Hi. unfold hasInvalidChar in Hi.
  destruct (isDomainChar (Js.toLowerChar c)) eqn:E; [reflexivity|].
  assert (Hs : Js.some (fun c => negb (isDomainChar c)) (Js.toLowerCase (Js.trim d)) = true).
  { apply some_spec. exists (Js.toLowerChar c). split.
    - rewrite chars_toLowerCase. apply list_elem_of_fmap. eauto.
    - rewrite E. reflexivity. }
  rewrite Hs in Hi. discriminate.
Qed.

(** X5. For a format-valid domain without surrounding white space,
    [checkDomain] issues exactly four requests, in the order Cloudflare A,
    Cloudflare NS, Google A, Google NS, and percent-encoding leaves the
    domain as it is in each URL. *)
Theorem checkDomain_requests (domain : string) :
  valid (isValidDomainFormat domain) = true -> Js.trim domain = domain ->
  requests (checkDomain domain)
  = [ "https://cloudflare-dns.com/dns-query?name=" +:+ domain +:+ "&type=A";
      "https://cloudflare-dns.com/dns-query?name=" +:+ domain +:+ "&type=NS";
      "https://dns.google/resolve?name=" +:+ domain +:+ "&type=A";
      "https://dns.google/resolve?name=" +:+ domain +:+ "&type=NS" ].
Proof.
  intros Hv Ht.
  assert (He : encodeURIComponent domain = domain).
  { apply encodeURIComponent_unreserved, every_spec. intros c Hc.
    apply domainChar_unreserved. apply (valid_chars domain c Hv). rewrite Ht. exact Hc. }
  unfold checkDomain. rewrite Hv. simpl. rewrite He. reflexivity.
Qed.

Lemma checkDomain_requests_witness :
  requests (checkDomain "Foo.com")
  = [ "https://cloudflare-dns.com/dns-query?name=Foo.com&type=A";
      "https://cloudflare-dns.com/dns-query?name=Foo.com&type=NS";
      "https://dns.google/resolve?name=Foo.com&type=A";
      "https://dns.google/resolve?name=Foo.com&type=NS" ].
Proof. apply (checkDomain_requests "Foo.com"); reflexivity. Defined.

(** ** Code units of a string *)

Lemma chars_app s t : chars (s +:+ t) = chars s ++ chars t.
Proof. unfold chars. induction s as [|c s IH]; simpl; [reflexivity|]. rewrite IH. reflexivity. Qed.

Lemma chars_length s : length (chars s) = String.length s.
Proof. unfold chars. induction s as [|c s IH]; simpl; [reflexivity|]. rewrite IH. reflexivity. Qed.

Lemma chars_inj s t : chars s = chars t -> s = t.
Proof.
  unfold chars. revert t. induction s as [|c s IH]; intros [|d t]; simpl; intros H;
    try discriminate; [reflexivity|].
  injection H as -> H. rewrite (IH t H). reflexivity.
Qed.

Lemma prefix_char c s :
  String.prefix (String c "") s = true <-> head (chars s) = Some c.
Proof.
  destruct s as [|d s]; simpl; [split; discriminate|].
  destruct (ascii_dec c d) as [->|N].
  - destruct s; simpl; split; reflexivity.
  - split; [discriminate | intros [= E]; congruence].
Qed.

Lemma startsWith_char s c : Js.startsWith s (String c "") = true <-> head (chars s) = Some c.
Proof. apply prefix_char. Qed.

Lemma includes_char s c : Js.includes s (String c "") = true <-> c ∈ chars s.
Proof.
  induction s as [|d s IH].
  - simpl. split; [discriminate | intros H; inversion H].
  - change (Js.includes (String d s) (String c ""))
      with (String.prefix (String c "") (String d s) || Js.includes s (String c "")).
    rewrite orb_true_iff, IH, prefix_char. unfold chars. simpl. rewrite elem_of_cons.
    split; (intros [H|H]; [left; congruence | right; exact H]).
Qed.

Lemma endsWith_cons c d s :
  Js.endsWith (String d s) (String c "")
  = match s with
    | EmptyString => Ascii.eqb d c
    | _ => Js.endsWith s (String c "")
    end.
Proof.
  unfold Js.endsWith. destruct s as [|e s]; simpl.
  - destruct (Ascii.eqb d c); reflexivity.
  - rewrite Nat.sub_0_r. reflexivity.
Qed.

Lemma endsWith_char s c : Js.endsWith s (String c "") = true <-> last (chars s) = Some c.
Proof.
  induction s as [|d s IH].
  - split; discriminate.
  - rewrite endsWith_cons. destruct s as [|e s].
    + unfold chars. simpl. rewrite Ascii.eqb_eq. split; congruence.
    + rewrite IH. unfold chars. simpl. reflexivity.
Qed.

Lemma init_last d rest :
  chars (String d rest) = chars (Js.initChars d rest) ++ [Js.lastChar d rest].
Proof.
  unfold chars. revert d. induction rest as [|e rest IH]; intros d; simpl; [reflexivity|].
  rewrite <- IH. reflexivity.
Qed.

Lemma every_chars p s : Js.every p s = forallb p (chars s).
Proof. unfold chars. induction s as [|c s IH]; simpl; [reflexivity|]. rewrite IH. reflexivity. Qed.

(** ** Labels accepted by [handleSubmit] *)

Lemma matchesLabel_spec inner s :
  (forall c, isAlnum c = true -> inner c = true) ->
  matchesLabel inner s = true
  <-> (1 <= String.length s <= 63)%nat
      /\ (forall c, c ∈ chars s -> inner c = true)
      /\ (forall c, head (chars s) = Some c -> isAlnum c = true)
      /\ (forall c, last (chars s) = Some c -> isAlnum c = true).
Proof.
  intros Hin. destruct s as [|c [|d rest]].
  - simpl. split; [discriminate | intros ((H & _) & _); lia].
  - simpl. rewrite andb_true_r. unfold chars. simpl. split.
    + intros H. split; [lia|]. split; [|split]; intros x Hx.
      * apply list_elem_of_singleton in Hx as ->. auto.
      * congruence.
      * congruence.
    + intros (_ & _ & H & _). auto.
  - change (matchesLabel inner (String c (String d rest)))
      with (isAlnum c && ((String.length (Js.initChars d rest) <=? 61)%nat
                          && Js.every inner (Js.initChars d rest)
                          && isAlnum (Js.lastChar d rest))).
    assert (Hc : chars (String c (String d rest))
                 = c :: chars (Js.initChars d rest) ++ [Js.lastChar d rest]).
    { rewrite <- init_last. reflexivity. }
    assert (Hl : String.length (String c (String d rest))
                 = S (String.length (Js.initChars d rest) + 1)).
    { rewrite <- !chars_length, Hc. simpl. rewrite length_app. reflexivity. }
    rewrite Hc, Hl, !andb_true_iff, Nat.leb_le, every_spec. split.
    + intros (H1 & (H2 & H3) & H4). split; [lia|]. split; [|split].
      * intros x Hx. apply elem_of_cons in Hx as [->|Hx]; [auto|].
        apply elem_of_app in Hx as [Hx|Hx]; [auto|].
        apply list_elem_of_singleton in Hx as ->. auto.
      * simpl. congruence.
      * intros x Hx. change (c :: ?l ++ [?z]) with ((c :: l) ++ [z]) in Hx.
        rewrite last_snoc in Hx. congruence.
      + intros (H1 & H2 & H3 & H4). split; [apply H3; reflexivity|]. split; [split; [lia|]|].
        * intros x Hx. apply H2. right. apply elem_of_app. left. exact Hx.
        * apply H4. change (c :: ?l ++ [?z]) with ((c :: l) ++ [z]). apply last_snoc.
Qed.

Lemma alnum_inner_base c : isAlnum c = true -> isAlnum c || Ascii.eqb c "-" = true.
Proof. intros ->. reflexivity. Qed.

Lemma alnum_domainChar c : isAlnum c = true -> isDomainChar c = true.
Proof.
  unfold isAlnum, isDomainChar. intros H. rewrite H. reflexivity.
Qed.

Lemma alnum_not_dot c : isAlnum c = true -> c <> "."%char.
Proof. intros H ->. discriminate H. Qed.

Lemma alnum_not_hyphen c : isAlnum c = true -> c <> "-"%char.
Proof. intros H ->. discriminate H. Qed.

Lemma isValidBaseName_spec (name : string) :
  isValidBaseName name = true
  <-> (1 <= String.length name <= 63)%nat
      /\ (forall c, c ∈ chars name -> isAlnum c = true \/ c = "-"%char)
      /\ (forall c, head (chars name) = Some c -> isAlnum c = true)
      /\ (forall c, last (chars name) = Some c -> isAlnum c = true).
Proof.
  pose proof (matchesLabel_spec (fun c => isAlnum c || Ascii.eqb c "-") name alnum_inner_base) as M.
  assert (Hc : (forall c, c ∈ chars name -> isAlnum c || Ascii.eqb c "-" = true)
               <-> (forall c, c ∈ chars name -> isAlnum c = true \/ c = "-"%char)).
  { split; intros H c Hx; specialize (H c Hx).
    - apply orb_true_iff in H as [H|H]; [left; exact H | right; apply Ascii.eqb_eq; exact H].
    - apply orb_true_iff. destruct H as [H| ->]; [left; exact H | right; reflexivity]. }
  rewrite <- Hc, <- M. unfold isValidBaseName.
  destruct (Js.includes name ".") eqn:E1.
  { split; [discriminate|]. intros H. apply M in H as (_ & H & _).
    apply includes_char in E1. specialize (H _ E1). discriminate H. }
  destruct (Js.startsWith name "-") eqn:E2.
  { split; [discriminate|]. intros H. apply M in H as (_ & _ & H & _).
    apply startsWith_char in E2. specialize (H _ E2). discriminate H. }
  destruct (Js.endsWith name "-") eqn:E3.
  { split; [discriminate|]. intros H. apply M in H as (_ & _ & _ & H).
    apply endsWith_char in E3. specialize (H _ E3). discriminate H. }
  reflexivity.
Qed.

(** X6. [isValidBaseName] is decided by its regular expression alone (the
    tests for a dot and for a hyphen at either end are subsumed), and it
    accepts exactly the names of 1 to 63 code units, each an ASCII letter,
    a digit or a hyphen, that begin and end with a letter or a digit. *)
Theorem isValidBaseName_iff (name : string) :
  isValidBaseName name = matchesLabel (fun c => isAlnum c || Ascii.eqb c "-") name
  /\ (isValidBaseName name = true
      <-> (1 <= String.length name <= 63)%nat
          /\ (forall c, c ∈ chars name -> isAlnum c = true \/ c = "-"%char)
          /\ (forall c, head (chars name) = Some c -> isAlnum c = true)
          /\ (forall c, last (chars name) = Some c -> isAlnum c = true)).
Proof.
  split; [|apply isValidBaseName_spec].
  apply eq_true_iff_eq. rewrite isValidBaseName_spec.
  rewrite (matchesLabel_spec _ name alnum_inner_base).
  split; intros (H1 & H2 & H3 & H4); (split; [exact H1|]); (split; [|split; assumption]);
    intros c Hc; specialize (H2 c Hc).
  - apply orb_true_iff. destruct H2 as [H| ->]; [left; exact H | right; reflexivity].
  - apply orb_true_iff in H2 as [H|H]; [left; exact H | right; apply Ascii.eqb_eq; exact H].
Qed.

Lemma isValidTld_spec (tld : string) :
  isValidTld tld = true
  <-> (2 <= String.length tld <= 63)%nat
      /\ (forall c, c ∈ chars tld -> isDomainChar c = true)
      /\ (forall c, head (chars tld) = Some c -> isAlnum c = true)
      /\ (forall c, last (chars tld) = Some c -> isAlnum c = true)
      /\ Js.includes tld ".." = false
      /\ allDigits (lastLabel (Js.split "." tld)) = false.
Proof.
  pose proof (matchesLabel_spec isDomainChar tld alnum_domainChar) as M.
  unfold isValidTld.
  destruct (Js.startsWith tld ".") eqn:E1.
  { simpl. split; [discriminate|]. intros (_ & _ & H & _).
    apply startsWith_char in E1. specialize (H _ E1). discriminate H. }
  destruct (Js.endsWith tld ".") eqn:E2.
  { simpl. split; [discriminate|]. intros (_ & _ & _ & H & _).
    apply endsWith_char in E2. specialize (H _ E2). discriminate H. }
  simpl. destruct (Js.includes tld "..") eqn:E3.
  { split; [discriminate|]. intros (_ & _ & _ & _ & H & _). discriminate H. }
  destruct (Nat.ltb_spec (String.length tld) 2) as [Hl|Hl].
  { split; [discriminate|]. intros (H & _). lia. }
  rewrite andb_true_iff, M, negb_true_iff. unfold lastLabel.
  split.
  - intros ((H1 & H2 & H3 & H4) & H5). repeat split; auto; lia.
  - intros (H1 & H2 & H3 & H4 & _ & H5). repeat split; auto; lia.
Qed.

(** ** Splitting at a separator *)

Lemma split_nonempty sep s : Js.split sep s <> [].
Proof.
  destruct s as [|c s]; simpl; [discriminate|].
  destruct (Ascii.eqb c sep); [discriminate|]. destruct (Js.split sep s); discriminate.
Qed.

Lemma split_cons sep c s :
  Js.split sep (String c s)
  = if Ascii.eqb c sep then EmptyString :: Js.split sep s
    else String c (hd EmptyString (Js.split sep s)) :: tl (Js.split sep s).
Proof.
  simpl. destruct (Ascii.eqb c sep); [reflexivity|].
  pose proof (split_nonempty sep s). destruct (Js.split sep s); [contradiction | reflexivity].
Qed.

Lemma split_app_sep sep b t :
  sep ∉ chars b -> Js.split sep (b +:+ String sep t) = b :: Js.split sep t.
Proof.
  induction b as [|c b IH]; intros H.
  - simpl. rewrite Ascii.eqb_refl. reflexivity.
  - change (String c b +:+ String sep t) with (String c (b +:+ String sep t)).
    rewrite split_cons. unfold chars in H. simpl in H. apply not_elem_of_cons in H as [Hc Hb].
    destruct (Ascii.eqb_spec c sep) as [E|_]; [congruence|].
    rewrite (IH Hb). reflexivity.
Qed.

Lemma split_no_sep sep s : sep ∉ chars s -> Js.split sep s = [s].
Proof.
  induction s as [|c s IH]; intros H; [reflexivity|].
  rewrite split_cons. unfold chars in H. simpl in H. apply not_elem_of_cons in H as [Hc Hs].
  destruct (Ascii.eqb_spec c sep) as [E|_]; [congruence|].
  rewrite (IH Hs). reflexivity.
Qed.

Lemma split_length sep s w : w ∈ Js.split sep s -> (String.length w <= String.length s)%nat.
Proof.
  revert w. induction s as [|c s IH]; intros w Hw.
  - simpl in Hw. apply list_elem_of_singleton in Hw as ->. simpl. lia.
  - rewrite split_cons in Hw. pose proof (split_nonempty sep s) as Hn.
    destruct (Js.split sep s) as [|x xs] eqn:E; [contradiction|].
    destruct (Ascii.eqb c sep).
    + apply elem_of_cons in Hw as [->|Hw]; [simpl; lia|]. specialize (IH w Hw). simpl. lia.
    + simpl in Hw. apply elem_of_cons in Hw as [->|Hw].
      * assert (H : (String.length x <= String.length s)%nat) by (apply IH; left). simpl. lia.
      * assert (H : (String.length w <= String.length s)%nat) by (apply IH; right; exact Hw).
        simpl. lia.
Qed.

Lemma split_sep_free sep s w : w ∈ Js.split sep s -> sep ∉ chars w.
Proof.
  revert w. induction s as [|c s IH]; intros w Hw.
  - simpl in Hw. apply list_elem_of_singleton in Hw as ->. intros H. inversion H.
  - rewrite split_cons in Hw. pose proof (split_nonempty sep s) as Hn.
    destruct (Js.split sep s) as [|x xs] eqn:E; [contradiction|].
    destruct (Ascii.eqb_spec c sep) as [Ec|Ec].
    + apply elem_of_cons in Hw as [->|Hw]; [intros H; inversion H | auto].
    + simpl in Hw. apply elem_of_cons in Hw as [->|Hw].
      * unfold chars. simpl. apply not_elem_of_cons. split; [congruence | apply IH; left].
      * apply IH. right. exact Hw.
Qed.

Lemma split_chars sep s w c : w ∈ Js.split sep s -> c ∈ chars w -> c ∈ chars s.
Proof.
  revert w. induction s as [|d s IH]; intros w Hw Hc.
  - simpl in Hw. apply list_elem_of_singleton in Hw as ->. exact Hc.
  - rewrite split_cons in Hw. pose proof (split_nonempty sep s) as Hn.
    destruct (Js.split sep s) as [|x xs] eqn:E; [contradiction|].
    unfold chars. simpl. destruct (Ascii.eqb d sep).
    + apply elem_of_cons in Hw as [->|Hw]; [inversion Hc|]. right. eapply IH; eauto.
    + simpl in Hw. apply elem_of_cons in Hw as [->|Hw].
      * unfold chars in Hc. simpl in Hc. apply elem_of_cons in Hc as [->|Hc]; [left|].
        right. eapply IH; [left | exact Hc].
      * right. eapply IH; [right; exact Hw | exact Hc].
Qed.

Lemma prefix_dots c s :
  String.prefix ".." (String c s) = Ascii.eqb c "." && Js.startsWith s ".".
Proof.
  change (String.prefix ".." (String c s))
    with (match ascii_dec "." c with left _ => String.prefix "." s | right _ => false end).
  destruct (ascii_dec "." c) as [<-|N]; [reflexivity|].
  destruct (Ascii.eqb_spec c ".") as [->|_]; [contradiction | reflexivity].
Qed.

(** Labels after the first are non-empty when the string has neither two
    dots in a row nor a dot at its end. *)
Lemma split_tail_labels s :
  Js.includes s ".." = false -> Js.endsWith s "." = false ->
  Forall (fun l => l <> EmptyString) (tl (Js.split "." s)).
Proof.
  induction s as [|c s IH]; intros Hi He; [constructor|].
  change (Js.includes (String c s) "..")
    with (String.prefix ".." (String c s) || Js.includes s "..") in Hi.
  apply orb_false_iff in Hi as [Hp Hi]. rewrite endsWith_cons in He.
  rewrite split_cons. destruct (Ascii.eqb_spec c ".") as [->|Hc].
  - simpl tl. destruct s as [|d s]; [discriminate He|].
    specialize (IH Hi He). rewrite split_cons in *.
    rewrite prefix_dots, Ascii.eqb_refl in Hp.
    destruct (Ascii.eqb_spec d ".") as [->|Hd].
    { rewrite (proj2 (startsWith_char (String "." s) ".") eq_refl) in Hp. discriminate Hp. }
    simpl in IH. constructor; [discriminate | exact IH].
  - simpl tl. destruct s as [|d s]; [constructor|]. apply IH; assumption.
Qed.

Lemma split_labels_nonempty s :
  s <> EmptyString -> Js.startsWith s "." = false -> Js.endsWith s "." = false ->
  Js.includes s ".." = false ->
  Forall (fun l => l <> EmptyString) (Js.split "." s).
Proof.
  intros Hs H1 H2 H3. pose proof (split_tail_labels s H3 H2) as Ht.
  destruct s as [|c s]; [contradiction|]. rewrite split_cons in *.
  destruct (Ascii.eqb_spec c ".") as [->|Hc].
  { rewrite (proj2 (startsWith_char (String "." s) ".") eq_refl) in H1. discriminate H1. }
  simpl in Ht. constructor; [discriminate | exact Ht].
Qed.

Lemma includes_dots_app b t :
  "."%char ∉ chars b -> Js.startsWith t "." = false -> Js.includes t ".." = false ->
  Js.includes (b +:+ "." +:+ t) ".." = false.
Proof.
  intros Hb Hs Hi. induction b as [|c b IH].
  - change (Js.includes ("" +:+ "." +:+ t) "..")
      with (String.prefix ".." (String "." t) || Js.includes t "..").
    rewrite Hi, orb_false_r, prefix_dots. exact Hs.
  - unfold chars in Hb. simpl in Hb. apply not_elem_of_cons in Hb as [Hc Hb].
    change (Js.includes (String c b +:+ "." +:+ t) "..")
      with (String.prefix ".." (String c (b +:+ "." +:+ t)) || Js.includes (b +:+ "." +:+ t) "..").
    rewrite (IH Hb), orb_false_r, prefix_dots.
    destruct (Ascii.eqb_spec c ".") as [E|_]; [congruence | reflexivity].
Qed.

Lemma last_label_cons b l : l <> [] -> lastLabel (b :: l) = lastLabel l.
Proof. unfold lastLabel. destruct l; [contradiction | reflexivity]. Qed.

Lemma trimEnd_fixed s :
  (forall c, last (chars s) = Some c -> Js.isWhiteSpace c = false) -> Js.trimEnd s = s.
Proof.
  induction s as [|c s IH]; intros H; [reflexivity|]. simpl.
  destruct s as [|d s].
  - simpl. rewrite (H c eq_refl). reflexivity.
  - rewrite IH by (intros x Hx; apply H; exact Hx). reflexivity.
Qed.

Lemma trim_fixed s :
  (forall c, head (chars s) = Some c -> Js.isWhiteSpace c = false) ->
  (forall c, last (chars s) = Some c -> Js.isWhiteSpace c = false) ->
  Js.trim s = s.
Proof.
  intros H1 H2. unfold Js.trim. destruct s as [|c s]; [reflexivity|].
  change (Js.trimStart (String c s)) with (if Js.isWhiteSpace c then Js.trimStart s else String c s).
  rewrite (H1 c eq_refl). apply trimEnd_fixed. exact H2.
Qed.

Lemma alnum_not_whiteSpace c : isAlnum c = true -> Js.isWhiteSpace c = false.
Proof. each_char c. Qed.

(** ** Lower-casing keeps the shape of a name *)

Lemma isAlnum_lower c : isAlnum c = true -> isAlnum (Js.toLowerChar c) = true.
Proof. each_char c. Qed.

Lemma domainChar_lower c : isDomainChar c = true -> isDomainChar (Js.toLowerChar c) = true.
Proof. each_char c. Qed.

Lemma isDigit_lower c : Js.isDigit (Js.toLowerChar c) = Js.isDigit c.
Proof. each_char c. Qed.

Lemma caseless_dot : caseless ".".
Proof. intros c. split; [each_char c | intros ->; reflexivity]. Qed.

Lemma caseless_hyphen : caseless "-".
Proof. intros c. split; [each_char c | intros ->; reflexivity]. Qed.

Lemma head_chars_lower s x :
  caseless x -> head (chars (Js.toLowerCase s)) = Some x <-> head (chars s) = Some x.
Proof.
  intros Hx. destruct s as [|c s]; [reflexivity|]. unfold chars. simpl.
  split; intros [= E]; f_equal; apply Hx; exact E.
Qed.

Lemma last_chars_lower s x :
  caseless x -> last (chars (Js.toLowerCase s)) = Some x <-> last (chars s) = Some x.
Proof.
  intros Hx. rewrite chars_toLowerCase, fmap_last.
  destruct (last (chars s)) as [c|]; simpl; [|reflexivity].
  split; intros [= E]; f_equal; apply Hx; exact E.
Qed.

Lemma startsWith_lower s x :
  caseless x -> Js.startsWith (Js.toLowerCase s) (String x "") = Js.startsWith s (String x "").
Proof.
  intros Hx. apply eq_true_iff_eq. rewrite !startsWith_char. apply head_chars_lower. exact Hx.
Qed.

Lemma endsWith_lower s x :
  caseless x -> Js.endsWith (Js.toLowerCase s) (String x "") = Js.endsWith s (String x "").
Proof.
  intros Hx. apply eq_true_iff_eq. rewrite !endsWith_char. apply last_chars_lower. exact Hx.
Qed.

Lemma eqb_lower c x : caseless x -> Ascii.eqb (Js.toLowerChar c) x = Ascii.eqb c x.
Proof.
  intros Hx. apply eq_true_iff_eq. rewrite !Ascii.eqb_eq. apply Hx.
Qed.

Lemma includes_dots_lower s : Js.includes (Js.toLowerCase s) ".." = Js.includes s "..".
Proof.
  induction s as [|c s IH]; [reflexivity|].
  change (Js.includes (Js.toLowerCase (String c s)) "..")
    with (String.prefix ".." (String (Js.toLowerChar c) (Js.toLowerCase s))
          || Js.includes (Js.toLowerCase s) "..").
  change (Js.includes (String c s) "..")
    with (String.prefix ".." (String c s) || Js.includes s "..").
  rewrite IH, !prefix_dots, (eqb_lower c "." caseless_dot), (startsWith_lower s "." caseless_dot).
  reflexivity.
Qed.

Lemma split_lower s :
  Js.split "." (Js.toLowerCase s) = map Js.toLowerCase (Js.split "." s).
Proof.
  induction s as [|c s IH]; [reflexivity|].
  change (Js.toLowerCase (String c s)) with (String (Js.toLowerChar c) (Js.toLowerCase s)).
  rewrite !split_cons, IH, (eqb_lower c "." caseless_dot).
  pose proof (split_nonempty "." s) as Hn.
  destruct (Js.split "." s) as [|w ws]; [contradiction|].
  destruct (Ascii.eqb c "."); reflexivity.
Qed.

Lemma lastLabel_lower l :
  l <> [] -> lastLabel (map Js.toLowerCase l) = Js.toLowerCase (lastLabel l).
Proof.
  unfold lastLabel. induction l as [|x l IH]; intros H; [contradiction|].
  destruct l as [|y l]; [reflexivity|].
  change (List.last (map Js.toLowerCase (x :: y :: l)) "")
    with (List.last (map Js.toLowerCase (y :: l)) "").
  change (List.last (x :: y :: l) "") with (List.last (y :: l) "").
  apply IH. discriminate.
Qed.

Lemma allDigits_lower s : allDigits (Js.toLowerCase s) = allDigits s.
Proof.
  unfold allDigits. f_equal.
  - destruct s; reflexivity.
  - induction s as [|c s IH]; simpl; [reflexivity|]. rewrite isDigit_lower, IH. reflexivity.
Qed.

Lemma hyphenEdge_lower l : hyphenEdge (Js.toLowerCase l) = hyphenEdge l.
Proof.
  unfold hyphenEdge.
  rewrite (startsWith_lower l "-" caseless_hyphen), (endsWith_lower l "-" caseless_hyphen).
  reflexivity.
Qed.

Lemma existsb_hyphenEdge_lower l :
  existsb hyphenEdge (map Js.toLowerCase l) = existsb hyphenEdge l.
Proof.
  induction l as [|x l IH]; simpl; [reflexivity|]. rewrite hyphenEdge_lower, IH. reflexivity.
Qed.

Lemma head_fmap_chars (f : ascii -> ascii) l : head (map f l) = f <$> head l.
Proof. destruct l; reflexivity. Qed.

Lemma isValidBaseName_lower b :
  isValidBaseName b = true -> isValidBaseName (Js.toLowerCase b) = true.
Proof.
  rewrite !isValidBaseName_spec, toLowerCase_length, chars_toLowerCase.
  intros (H1 & H2 & H3 & H4). split; [exact H1|]. split; [|split].
  - intros c Hc. apply list_elem_of_fmap in Hc as (d & -> & Hd).
    destruct (H2 d Hd) as [H| ->]; [left; apply isAlnum_lower; exact H | right; reflexivity].
  - intros c Hc. rewrite head_fmap_chars in Hc. destruct (head (chars b)) as [d|]; [|discriminate].
    injection Hc as <-. apply isAlnum_lower, H3. reflexivity.
  - intros c Hc. rewrite fmap_last in Hc. destruct (last (chars b)) as [d|]; [|discriminate].
    injection Hc as <-. apply isAlnum_lower, H4. reflexivity.
Qed.

Lemma isValidTld_lower t :
  isValidTld t = true -> isValidTld (Js.toLowerCase t) = true.
Proof.
  rewrite !isValidTld_spec, toLowerCase_length, chars_toLowerCase, includes_dots_lower, split_lower.
  rewrite (lastLabel_lower _ (split_nonempty "." t)), allDigits_lower.
  intros (H1 & H2 & H3 & H4 & H5 & H6). split; [exact H1|]. split; [|split; [|split]]; auto.
  - intros c Hc. apply list_elem_of_fmap in Hc as (d & -> & Hd). apply domainChar_lower, H2, Hd.
  - intros c Hc. rewrite head_fmap_chars in Hc. destruct (head (chars t)) as [d|]; [|discriminate].
    injection Hc as <-. apply isAlnum_lower, H3. reflexivity.
  - intros c Hc. rewrite fmap_last in Hc. destruct (last (chars t)) as [d|]; [|discriminate].
    injection Hc as <-. apply isAlnum_lower, H4. reflexivity.
Qed.

(** ** A validated pair as a full domain *)

Lemma passes_pair b t :
  isValidBaseName b = true -> isValidTld t = true ->
  passesChecks (b +:+ "." +:+ t)
  <-> existsb hyphenEdge (Js.split "." t) = false
      /\ (2 <= String.length (lastLabel (Js.split "." t)))%nat.
Proof.
  intros Hb Ht.
  apply isValidBaseName_spec in Hb as (B1 & B2 & B3 & B4).
  apply isValidTld_spec in Ht as (T1 & T2 & T3 & T4 & T5 & T6).
  assert (Bdot : "."%char ∉ chars b).
  { intros H. destruct (B2 _ H) as [H'|H']; discriminate H'. }
  assert (Hsplit : Js.split "." (b +:+ "." +:+ t) = b :: Js.split "." t)
    by (apply split_app_sep; exact Bdot).
  assert (Hchars : chars (b +:+ "." +:+ t) = chars b ++ "."%char :: chars t)
    by (rewrite chars_app; reflexivity).
  assert (Hlen : String.length (b +:+ "." +:+ t) = (String.length b + S (String.length t))%nat).
  { rewrite <- !chars_length, Hchars, length_app. reflexivity. }
  assert (Bne : exists c, head (chars b) = Some c).
  { destruct b as [|c b]; [simpl in B1; lia | exists c; reflexivity]. }
  assert (Tne : exists c, last (chars t) = Some c).
  { destruct (last (chars t)) as [c|] eqn:E; [eauto|].
    apply last_None in E. apply (f_equal length) in E. rewrite chars_length in E.
    simpl in E. lia. }
  assert (Tstart : Js.startsWith t "." = false).
  { apply not_true_iff_false. intros H. apply startsWith_char in H.
    specialize (T3 _ H). discriminate T3. }
  assert (Tend : Js.endsWith t "." = false).
  { apply not_true_iff_false. intros H. apply endsWith_char in H.
    specialize (T4 _ H). discriminate T4. }
  assert (Tn : t <> "") by (intros ->; simpl in T1; lia).
  pose proof (split_labels_nonempty t Tn Tstart Tend T5) as Tlabels.
  pose proof (split_nonempty "." t) as Tsplit.
  unfold passesChecks. cbv zeta. rewrite Hsplit, (last_label_cons b _ Tsplit), Hlen.
  assert (P1 : ((String.length b + S (String.length t) <? 3)%nat
                || (253 <? String.length b + S (String.length t))%nat) = false).
  { apply orb_false_iff. split; [apply Nat.ltb_ge | apply Nat.ltb_ge]; lia. }
  assert (P2 : negb (Js.includes (b +:+ "." +:+ t) ".") || Js.startsWith (b +:+ "." +:+ t) "."
               || Js.endsWith (b +:+ "." +:+ t) "." = false).
  { rewrite !orb_false_iff, negb_false_iff. split; [split|].
    - apply includes_char. rewrite Hchars. apply elem_of_app. right. left.
    - apply not_true_iff_false. intros H. apply startsWith_char in H.
      rewrite Hchars, head_app in H. destruct Bne as (c & Hc). rewrite Hc in H.
      injection H as ->. specialize (B3 _ Hc). discriminate B3.
    - apply not_true_iff_false. intros H. apply endsWith_char in H.
      rewrite Hchars in H. change (chars b ++ "."%char :: chars t)
        with (chars b ++ ["."%char] ++ chars t) in H.
      rewrite !last_app in H. destruct Tne as (c & Hc). rewrite Hc in H.
      injection H as ->. specialize (T4 _ Hc). discriminate T4. }
  assert (P3 : hasInvalidChar (b +:+ "." +:+ t) = false).
  { apply not_true_iff_false. intros H. unfold hasInvalidChar in H.
    apply some_spec in H as (c & Hc & Hn). apply negb_true_iff in Hn.
    rewrite Hchars in Hc. apply elem_of_app in Hc as [Hc|Hc].
    - destruct (B2 _ Hc) as [H| ->]; [|discriminate Hn].
      rewrite (alnum_domainChar _ H) in Hn. discriminate Hn.
    - apply elem_of_cons in Hc as [->|Hc]; [discriminate Hn|].
      rewrite (T2 _ Hc) in Hn. discriminate Hn. }
  assert (P4 : Js.includes (b +:+ "." +:+ t) ".." = false)
    by (apply includes_dots_app; assumption).
  assert (P5 : existsb badLabelLength (b :: Js.split "." t) = false).
  { apply existsb_false_Forall. intros l Hl. unfold badLabelLength.
    apply orb_false_iff. rewrite Nat.eqb_neq, Nat.ltb_ge.
    apply elem_of_cons in Hl as [->|Hl]; [lia|].
    pose proof (split_length "." t l Hl). rewrite Forall_forall in Tlabels.
    specialize (Tlabels l Hl). destruct l; [contradiction | simpl in *; lia]. }
  assert (P6 : hyphenEdge b = false).
  { unfold hyphenEdge. apply orb_false_iff. split; apply not_true_iff_false; intros H.
    - apply startsWith_char in H. specialize (B3 _ H). discriminate B3.
    - apply endsWith_char in H. specialize (B4 _ H). discriminate B4. }
  assert (P7 : allDigits (lastLabel (Js.split "." t))
               && (0 <? String.length (lastLabel (Js.split "." t)))%nat = false)
    by (rewrite T6; reflexivity).
  rewrite P1, P2, P3, P4, P5, P7. simpl existsb. rewrite P6. simpl orb.
  rewrite Nat.ltb_ge. tauto.
Qed.

Lemma normalized_pair b t :
  isValidBaseName b = true -> isValidTld t = true ->
  Js.trim (Js.toLowerCase (b +:+ "." +:+ t)) = Js.toLowerCase b +:+ "." +:+ Js.toLowerCase t.
Proof.
  intros Hb Ht. apply isValidBaseName_lower, isValidBaseName_spec in Hb as (B1 & _ & B3 & _).
  apply isValidTld_lower, isValidTld_spec in Ht as (T1 & _ & _ & T4 & _).
  rewrite !toLowerCase_app. change (Js.toLowerCase ".") with ".".
  apply trim_fixed; rewrite chars_app.
  - intros c Hc. apply alnum_not_whiteSpace, B3. rewrite head_app in Hc.
    destruct (head (chars (Js.toLowerCase b))) as [d|] eqn:E; [congruence|].
    apply head_None in E. apply (f_equal length) in E. rewrite chars_length in E.
    simpl in E. lia.
  - intros c Hc. apply alnum_not_whiteSpace, T4. rewrite chars_app, !last_app in Hc.
    destruct (last (chars (Js.toLowerCase t))) as [d|] eqn:E; [congruence|].
    apply last_None in E. apply (f_equal length) in E. rewrite chars_length in E.
    simpl in E. lia.
Qed.

(** X7. For a base name and a TLD that pass the validators of
    [handleSubmit], the full domain [base.tld] passes [isValidDomainFormat]
    exactly when no label of the TLD starts or ends with a hyphen and the
    last label of the TLD has at least 2 characters: these two conditions
    are what [isValidTld] lets through and the service rejects. *)
Theorem validated_pair_format (base tld : string) :
  isValidBaseName base = true -> isValidTld tld = true ->
  valid (isValidDomainFormat (base +:+ "." +:+ tld)) = true
  <-> existsb hyphenEdge (Js.split "." tld) = false
      /\ (2 <= String.length (lastLabel (Js.split "." tld)))%nat.
Proof.
  intros Hb Ht. rewrite valid_iff_passes, (normalized_pair base tld Hb Ht).
  rewrite (passes_pair _ _ (isValidBaseName_lower _ Hb) (isValidTld_lower _ Ht)).
  rewrite split_lower, existsb_hyphenEdge_lower.
  rewrite (lastLabel_lower _ (split_nonempty "." tld)), toLowerCase_length. reflexivity.
Qed.

Lemma validated_pair_format_witness :
  valid (isValidDomainFormat ("foo" +:+ "." +:+ "co.uk")) = true
  <-> existsb hyphenEdge (Js.split "." "co.uk") = false
      /\ (2 <= String.length (lastLabel (Js.split "." "co.uk")))%nat.
Proof. apply (validated_pair_format "foo" "co.uk"); reflexivity. Defined.



(** ** Parsing the inputs *)

Lemma uniqueGo_spec l : forall seen,
  NoDup (Js.uniqueGo seen l)
  /\ forall x, x ∈ Js.uniqueGo seen l <-> x ∈ l /\ x ∉ seen.
Proof.
  induction l as [|y l IH]; intros seen; simpl.
  - split; [constructor|]. intros x. split; [intros H; inversion H | intros [H _]; inversion H].
  - destruct (decide (y ∈ seen)) as [Hy|Hy].
    + rewrite bool_decide_eq_true_2 by exact Hy. destruct (IH seen) as [N E].
      split; [exact N|]. intros x. rewrite E, elem_of_cons. split; [tauto|].
      intros [[->|H] Hn]; [contradiction | tauto].
    + rewrite bool_decide_eq_false_2 by exact Hy. destruct (IH (y :: seen)) as [N E].
      split.
      * constructor; [|exact N]. rewrite E, elem_of_cons. tauto.
      * intros x. rewrite !elem_of_cons, E, elem_of_cons.
        destruct (decide (x = y)) as [->|Hx]; tauto.
Qed.

Lemma unique_NoDup l : NoDup (Js.unique l).
Proof. apply uniqueGo_spec. Qed.

Lemma unique_elem l x : x ∈ Js.unique l <-> x ∈ l.
Proof.
  unfold Js.unique. destruct (uniqueGo_spec l []) as [_ E]. rewrite E.
  split; [tauto|]. intros H. split; [exact H|]. intros H'. inversion H'.
Qed.

Lemma uniqueGo_fixed l : forall seen,
  NoDup l -> (forall x, x ∈ l -> x ∉ seen) -> Js.uniqueGo seen l = l.
Proof.
  induction l as [|y l IH]; intros seen Hn Hs; [reflexivity|]. simpl.
  apply NoDup_cons in Hn as [Hy Hn].
  rewrite bool_decide_eq_false_2 by (apply Hs; left). f_equal. apply IH; [exact Hn|].
  intros x Hx. rewrite elem_of_cons. intros [->|H]; [contradiction|].
  revert H. apply Hs. right. exact Hx.
Qed.

Lemma unique_fixed l : NoDup l -> Js.unique l = l.
Proof. intros H. apply uniqueGo_fixed; [exact H|]. intros x _ Hx. inversion Hx. Qed.

Lemma trimStart_chars s c : c ∈ chars (Js.trimStart s) -> c ∈ chars s.
Proof.
  induction s as [|d s IH]; simpl; [auto|].
  destruct (Js.isWhiteSpace d); [|auto]. intros H. unfold chars. simpl. right. apply IH, H.
Qed.

Lemma trimEnd_chars s c : c ∈ chars (Js.trimEnd s) -> c ∈ chars s.
Proof.
  unfold chars. induction s as [|d s IH]; simpl; [auto|].
  destruct (Js.trimEnd s) as [|e t].
  - destruct (Js.isWhiteSpace d); simpl; intros H; [inversion H|].
    apply list_elem_of_singleton in H as ->. left.
  - simpl. intros H. apply elem_of_cons in H as [->|H]; [left | right; apply IH, H].
Qed.

Lemma trim_chars s c : c ∈ chars (Js.trim s) -> c ∈ chars s.
Proof. intros H. apply trimStart_chars, trimEnd_chars, H. Qed.

Lemma caseless_comma : caseless ",".
Proof. intros c. split; [each_char c | intros ->; reflexivity]. Qed.

Lemma caseless_space : caseless " ".
Proof. intros c. split; [each_char c | intros ->; reflexivity]. Qed.

Lemma caseless_tab : caseless tab.
Proof. intros c. split; [each_char c | intros ->; reflexivity]. Qed.

Lemma caseless_newline : caseless newline.
Proof. intros c. split; [each_char c | intros ->; reflexivity]. Qed.

(** A code unit of a normalised name that lower-casing cannot produce was
    there before normalisation. *)
Lemma normalized_chars d x :
  caseless x -> x ∈ chars (Js.toLowerCase (Js.trim d)) -> x ∈ chars d.
Proof.
  intros Hx H. rewrite chars_toLowerCase in H. apply list_elem_of_fmap in H as (c & E & Hc).
  symmetry in E. apply Hx in E as ->. apply trim_chars, Hc.
Qed.

Lemma normalized_fixed d :
  let n := Js.toLowerCase (Js.trim d) in Js.trim n = n /\ Js.toLowerCase n = n.
Proof.
  intros n. unfold n. split; [|apply toLowerCase_idem].
  rewrite trim_toLowerCase, trim_idem. reflexivity.
Qed.

Lemma nonEmpty_spec s : nonEmpty s = true <-> s <> "".
Proof. destruct s; simpl; split; try discriminate; try congruence; reflexivity. Qed.

Lemma replaceDelimiters_chars s : forall inRun c,
  c ∈ chars (replaceDelimiters inRun s) ->
  c <> ","%char /\ c <> " "%char /\ c <> tab.
Proof.
  induction s as [|d s IH]; intros inRun c H; [inversion H|]. simpl in H.
  destruct (Ascii.eqb d "," || Ascii.eqb d " " || Ascii.eqb d tab) eqn:E.
  - destruct inRun; [eapply IH; exact H|].
    unfold chars in H. simpl in H. apply elem_of_cons in H as [->|H]; [|eapply IH; exact H].
    repeat split; discriminate.
  - unfold chars in H. simpl in H. apply elem_of_cons in H as [->|H]; [|eapply IH; exact H].
    apply orb_false_iff in E as [E E3]. apply orb_false_iff in E as [E1 E2].
    apply Ascii.eqb_neq in E1, E2, E3. auto.
Qed.

Lemma parseBaseNames_elem input n :
  n ∈ parseBaseNames input ->
  n <> "" /\ exists d, d ∈ Js.split newline (replaceDelimiters false input)
                       /\ n = Js.toLowerCase (Js.trim d).
Proof.
  unfold parseBaseNames. intros Hn.
  apply unique_elem, list_elem_of_In, filter_In in Hn as [Hn Hne].
  apply in_map_iff in Hn as (d & <- & Hd). apply list_elem_of_In in Hd.
  split; [apply nonEmpty_spec; exact Hne | eauto].
Qed.

Lemma parseTlds_elem input t :
  t ∈ parseTlds input ->
  t <> "" /\ exists d, d ∈ Js.split "," input /\ t = Js.toLowerCase (Js.trim d).
Proof.
  unfold parseTlds. intros Hn.
  apply unique_elem, list_elem_of_In, filter_In in Hn as [Hn Hne].
  apply in_map_iff in Hn as (d & <- & Hd). apply list_elem_of_In in Hd.
  split; [apply nonEmpty_spec; exact Hne | eauto].
Qed.

(** X9. The base names [handleSubmit] parses from its input are pairwise
    different, non-empty, trimmed and lower-case, and hold no comma,
    space, tab or line feed. *)
Theorem parseBaseNames_clean (baseNamesInput : string) :
  NoDup (parseBaseNames baseNamesInput)
  /\ forall n, n ∈ parseBaseNames baseNamesInput ->
       n <> "" /\ Js.trim n = n /\ Js.toLowerCase n = n
       /\ forall c, c ∈ chars n ->
            c <> ","%char /\ c <> " "%char /\ c <> tab /\ c <> newline.
Proof.
  split; [apply unique_NoDup|].
  intros n Hn. apply parseBaseNames_elem in Hn as (Hne & d & Hd & ->).
  split; [exact Hne|].
  destruct (normalized_fixed d) as [H1 H2]. split; [exact H1|]. split; [exact H2|].
  intros c Hc.
  assert (Hd' : forall x, caseless x -> c = x -> x ∈ chars d).
  { intros x Hx ->. apply normalized_chars; assumption. }
  assert (Hr : forall x, x ∈ chars d -> x <> ","%char /\ x <> " "%char /\ x <> tab).
  { intros x Hx. eapply replaceDelimiters_chars. eapply split_chars; eauto. }
  repeat split; intros E.
  - destruct (Hr _ (Hd' _ caseless_comma E)) as (H & _). congruence.
  - destruct (Hr _ (Hd' _ caseless_space E)) as (_ & H & _). congruence.
  - destruct (Hr _ (Hd' _ caseless_tab E)) as (_ & _ & H). congruence.
  - apply (split_sep_free newline _ d Hd). apply Hd'; [exact caseless_newline | exact E].
Qed.

(** X10. The TLDs [handleSubmit] parses from its input are pairwise
    different, non-empty, trimmed and lower-case, and hold no comma. *)
Theorem parseTlds_clean (tldsInput : string) :
  NoDup (parseTlds tldsInput)
  /\ forall t, t ∈ parseTlds tldsInput ->
       t <> "" /\ Js.trim t = t /\ Js.toLowerCase t = t /\ ","%char ∉ chars t.
Proof.
  split; [apply unique_NoDup|].
  intros n Hn. apply parseTlds_elem in Hn as (Hne & d & Hd & ->).
  split; [exact Hne|].
  destruct (normalized_fixed d) as [H1 H2]. split; [exact H1|]. split; [exact H2|].
  intros Hc. apply (split_sep_free "," _ d Hd). apply normalized_chars; [exact caseless_comma | exact Hc].
Qed.

(** Validation lets a submission through exactly when both lists are
    non-empty and every entry passes its validator. *)
Lemma validateInputs_None bs ts :
  validateInputs bs ts = None
  <-> bs <> [] /\ ts <> []
      /\ (forall b, b ∈ bs -> isValidBaseName b = true)
      /\ (forall t, t ∈ ts -> isValidTld t = true).
Proof.
  assert (F : forall (p : string -> bool) l,
             (0 <? length (List.filter (fun x => negb (p x)) l))%nat = false
             <-> forall x, x ∈ l -> p x = true).
  { intros p l. induction l as [|x l IH]; simpl.
    - split; [intros _ y Hy; inversion Hy | reflexivity].
    - destruct (p x) eqn:E; simpl.
      + rewrite IH. split; [|intros H y Hy; apply H; right; exact Hy].
        intros H y Hy. apply elem_of_cons in Hy as [->|Hy]; auto.
      + split; [discriminate|]. intros H. specialize (H x (list_elem_of_here _ _)). congruence. }
  unfold validateInputs.
  destruct bs as [|b bs]; [simpl; split; [discriminate | intros (H & _); contradiction]|].
  destruct ts as [|t ts]; [simpl; split; [discriminate | intros (_ & H & _); contradiction]|].
  change (length (b :: bs) =? 0)%nat with false. change (length (t :: ts) =? 0)%nat with false.
  cbv iota zeta.
  destruct (0 <? length (List.filter (fun n => negb (isValidBaseName n)) (b :: bs)))%nat eqn:E1.
  { split; [discriminate|]. intros (_ & _ & H & _).
    apply (proj2 (F isValidBaseName (b :: bs))) in H. congruence. }
  destruct (0 <? length (List.filter (fun n => negb (isValidTld n)) (t :: ts)))%nat eqn:E2.
  { split; [discriminate|]. intros (_ & _ & _ & H).
    apply (proj2 (F isValidTld (t :: ts))) in H. congruence. }
  pose proof (proj1 (F isValidBaseName (b :: bs)) E1) as G1.
  pose proof (proj1 (F isValidTld (t :: ts)) E2) as G2. split; [|reflexivity]. intros _. repeat split; auto; discriminate.
Qed.

(** ** More frame lemmas *)

Lemma stop_frame_view s :
  gridResults (stopFlushInterval s) = gridResults s
  /\ parsedTldsForTable (stopFlushInterval s) = parsedTldsForTable s
  /\ pendingCellUpdatesRef (stopFlushInterval s) = pendingCellUpdatesRef s
  /\ nextObject (stopFlushInterval s) = nextObject s
  /\ nextInterval (stopFlushInterval s) = nextInterval s
  /\ startTimeRef (stopFlushInterval s) = startTimeRef s
  /\ timeTaken (stopFlushInterval s) = timeTaken s
  /\ sortConfig (stopFlushInterval s) = sortConfig s
  /\ errorMessage (stopFlushInterval s) = errorMessage s.
Proof.
  unfold stopFlushInterval. destruct (flushIntervalRef s) as [[|t]|]; repeat split.
Qed.

Lemma clearAsyncOperations_view s :
  gridResults (clearAsyncOperations s) = gridResults s
  /\ parsedTldsForTable (clearAsyncOperations s) = parsedTldsForTable s
  /\ pendingCellUpdatesRef (clearAsyncOperations s) = []
  /\ nextObject (clearAsyncOperations s) = nextObject s
  /\ nextInterval (clearAsyncOperations s) = nextInterval s
  /\ startTimeRef (clearAsyncOperations s) = startTimeRef s
  /\ timeTaken (clearAsyncOperations s) = timeTaken s
  /\ sortConfig (clearAsyncOperations s) = sortConfig s
  /\ errorMessage (clearAsyncOperations s) = errorMessage s
  /\ completedChecksRef (clearAsyncOperations s) = 0%Z
  /\ totalChecksRef (clearAsyncOperations s) = 0%Z.
Proof.
  destruct (stop_frame_view s) as (E1 & E2 & E3 & E4 & E5 & E6 & E7 & E8 & E9).
  unfold clearAsyncOperations. revert E1 E2 E3 E4 E5 E6 E7 E8 E9.
  generalize (stopFlushInterval s). intros s1 E1 E2 E3 E4 E5 E6 E7 E8 E9.
  repeat split; assumption.
Qed.

Lemma flush_frame_view s :
  parsedTldsForTable (flushPendingCellUpdates s) = parsedTldsForTable s
  /\ errorMessage (flushPendingCellUpdates s) = errorMessage s
  /\ sortConfig (flushPendingCellUpdates s) = sortConfig s
  /\ wire (flushPendingCellUpdates s) = wire s
  /\ baseNamesInput (flushPendingCellUpdates s) = baseNamesInput s
  /\ tldsInput (flushPendingCellUpdates s) = tldsInput s
  /\ nextInterval (flushPendingCellUpdates s) = nextInterval s.
Proof.
  unfold flushPendingCellUpdates.
  destruct (length (pendingCellUpdatesRef s) =? 0)%nat; [repeat split|].
  destruct (groupUpdates _ _) as [g [why|]]; [repeat split|].
  destruct (applyToRows _ _ _) as [[next rows]|why]; repeat split.
Qed.

(** ** The two ways a submission ends *)

Lemma submit_reset s :
  let s1 := clearAsyncOperations
              (set_sortConfig None (set_startTimeRef None (set_timeTaken None
                 (set_parsedTldsForTable [] (set_gridResults [] (set_errorMessage None s)))))) in
  baseNamesInput s1 = baseNamesInput s /\ tldsInput s1 = tldsInput s
  /\ wire s1 = wire s /\ tasks s1 = tasks s /\ isLoading s1 = isLoading s
  /\ nextObject s1 = nextObject s /\ nextInterval s1 = nextInterval s
  /\ gridResults s1 = [] /\ parsedTldsForTable s1 = [] /\ pendingCellUpdatesRef s1 = []
  /\ startTimeRef s1 = None /\ timeTaken s1 = None /\ sortConfig s1 = None
  /\ completedChecksRef s1 = 0%Z /\ totalChecksRef s1 = 0%Z
  /\ errorMessage s1 = None
  /\ (TimerInv s -> TimerInv s1 /\ flushIntervalRef s1 = None /\ liveIntervals s1 = []).
Proof.
  intros s1. unfold s1.
  match goal with |- context [clearAsyncOperations ?x] =>
    assert (Ht : TimerInv s -> TimerInv (clearAsyncOperations x)
                               /\ flushIntervalRef (clearAsyncOperations x) = None
                               /\ liveIntervals (clearAsyncOperations x) = []);
    [ intros H; assert (Hx : TimerInv x) by (revert H; apply TimerInv_ext; reflexivity);
      destruct (clearAsyncOperations_resets x Hx) as (E1 & E2 & _);
      destruct (Inv_clearAsyncOperations x Hx) as [_ _ E0];
      split; [exact E0 | split; assumption] |];
    destruct (clearAsyncOperations_frame x) as (-> & -> & -> & -> & _ & -> & _);
    destruct (clearAsyncOperations_view x) as (-> & -> & -> & -> & -> & -> & -> & -> & -> & -> & ->)
  end.
  repeat split; apply Ht; assumption.
Qed.

Lemma inputError_rejected s s1 m :
  wire s1 = wire s -> tasks s1 = tasks s -> isLoading s1 = isLoading s ->
  gridResults s1 = [] -> parsedTldsForTable s1 = [] -> pendingCellUpdatesRef s1 = [] ->
  startTimeRef s1 = None -> timeTaken s1 = None -> sortConfig s1 = None ->
  completedChecksRef s1 = 0%Z -> totalChecksRef s1 = 0%Z ->
  (TimerInv s -> TimerInv s1 /\ flushIntervalRef s1 = None /\ liveIntervals s1 = []) ->
  rejected s (set_errorMessage (Some m) s1).
Proof.
  intros H1 H2 H3 H4 H5 H6 H7 H8 H9 H10 H11 H12. unfold rejected.
  split; [exists m; reflexivity|].
  change (gridResults s1 = [] /\ parsedTldsForTable s1 = [] /\ pendingCellUpdatesRef s1 = []
          /\ tasks s1 = tasks s /\ wire s1 = wire s
          /\ totalChecksRef s1 = 0%Z /\ completedChecksRef s1 = 0%Z
          /\ startTimeRef s1 = None /\ timeTaken s1 = None /\ sortConfig s1 = None
          /\ (isLoading s = false -> isLoading s1 = false)
          /\ (TimerInv s -> flushIntervalRef s1 = None /\ liveIntervals s1 = [])).
  rewrite H1, H2, H3. repeat split; auto; apply H12; assumption.
Qed.

Lemma overCeiling_timer s1 m now n next grid tlds :
  TimerInv s1 ->
  let s' := clearAsyncOperations
       (set_startTimeRef None (set_parsedTldsForTable [] (set_gridResults []
          (set_isLoading false (set_errorMessage (Some m)
             (set_completedChecksRef 0 (set_totalChecksRef n (set_nextObject next
                (set_gridResults grid (set_startTimeRef (Some now)
                   (set_parsedTldsForTable tlds (set_isLoading true s1)))))))))))) in
  flushIntervalRef s' = None /\ liveIntervals s' = [].
Proof.
  intros H s'. unfold s'.
  match goal with |- context [clearAsyncOperations ?x] =>
    assert (Hx : TimerInv x) by (revert H; apply TimerInv_ext; reflexivity);
    destruct (clearAsyncOperations_resets x Hx) as (E1 & E2 & _)
  end.
  split; assumption.
Qed.

Lemma overCeiling_rejected s s1 m now n next grid tlds :
  wire s1 = wire s -> tasks s1 = tasks s ->
  timeTaken s1 = None -> sortConfig s1 = None ->
  (TimerInv s -> TimerInv s1 /\ flushIntervalRef s1 = None /\ liveIntervals s1 = []) ->
  rejected s
    (clearAsyncOperations
       (set_startTimeRef None (set_parsedTldsForTable [] (set_gridResults []
          (set_isLoading false (set_errorMessage (Some m)
             (set_completedChecksRef 0 (set_totalChecksRef n (set_nextObject next
                (set_gridResults grid (set_startTimeRef (Some now)
                   (set_parsedTldsForTable tlds (set_isLoading true s1))))))))))))).
Proof.
  intros H1 H2 H3 H4 H5.
  assert (Ht : TimerInv s ->
     flushIntervalRef (clearAsyncOperations
       (set_startTimeRef None (set_parsedTldsForTable [] (set_gridResults []
          (set_isLoading false (set_errorMessage (Some m)
             (set_completedChecksRef 0 (set_totalChecksRef n (set_nextObject next
                (set_gridResults grid (set_startTimeRef (Some now)
                   (set_parsedTldsForTable tlds (set_isLoading true s1))))))))))))) = None
     /\ liveIntervals (clearAsyncOperations
       (set_startTimeRef None (set_parsedTldsForTable [] (set_gridResults []
          (set_isLoading false (set_errorMessage (Some m)
             (set_completedChecksRef 0 (set_totalChecksRef n (set_nextObject next
                (set_gridResults grid (set_startTimeRef (Some now)
                   (set_parsedTldsForTable tlds (set_isLoading true s1))))))))))))) = []).
  { intros H. apply overCeiling_timer. apply H5, H. }
  match goal with |- context [clearAsyncOperations ?x] =>
    destruct (clearAsyncOperations_frame x) as (_ & _ & F1 & F2 & _ & F3 & F4);
    destruct (clearAsyncOperations_view x) as (G1 & G2 & G3 & _ & _ & G6 & G7 & G8 & _ & G10 & G11)
  end.
  revert Ht F1 F2 F3 F4 G1 G2 G3 G6 G7 G8 G10 G11.
  match goal with |- context [clearAsyncOperations ?x] => generalize (clearAsyncOperations x) end.
  intros s' Ht F1 F2 F3 F4 G1 G2 G3 G6 G7 G8 G10 G11.
  unfold rejected.
  split; [rewrite F4; exists m; reflexivity|].
  split; [exact G1|]. split; [exact G2|]. split; [exact G3|].
  split; [rewrite F2; exact H2|]. split; [rewrite F1; exact H1|].
  split; [exact G11|]. split; [exact G10|].
  split; [exact G6|]. split; [rewrite G7; exact H3|]. split; [rewrite G8; exact H4|].
  split; [intros _; exact F3 | exact Ht].
Qed.

Lemma runStarted_view s1 now n next grid tlds items :
  let s' := (let '(t, s0) :=
         setInterval
           (set_completedChecksRef 0 (set_totalChecksRef n (set_nextObject next
              (set_gridResults grid (set_startTimeRef (Some now)
                 (set_parsedTldsForTable tlds (set_isLoading true s1)))))))
       in launchChecks items (set_flushIntervalRef (Some t) s0)) in
  errorMessage s' = errorMessage s1 /\ isLoading s' = true
  /\ gridResults s' = grid /\ parsedTldsForTable s' = tlds
  /\ pendingCellUpdatesRef s' = pendingCellUpdatesRef s1
  /\ tasks s' = tasks s1 ++ map (fun it => mkTask it AwaitingCheck) items
  /\ wire s' = wire s1 ++ flat_map (fun it => requests (checkDomain (d_fullDomain it))) items
  /\ totalChecksRef s' = n /\ completedChecksRef s' = 0%Z
  /\ startTimeRef s' = Some now /\ timeTaken s' = timeTaken s1 /\ sortConfig s' = sortConfig s1
  /\ flushIntervalRef s' = Some (S (nextInterval s1))
  /\ liveIntervals s' = liveIntervals s1 ++ [S (nextInterval s1)].
Proof. repeat split. Qed.

Lemma domainsToProcess_length bs ts :
  length (domainsToProcess bs ts) = (length bs * length ts)%nat.
Proof.
  unfold domainsToProcess. induction bs as [|b bs IH]; simpl; [reflexivity|].
  rewrite length_app, length_map, IH. reflexivity.
Qed.

Lemma handleSubmit_cases now ids s :
  let uniqueBaseNames := parseBaseNames (baseNamesInput s) in
  let uniqueTlds := parseTlds (tldsInput s) in
  let s' := handleSubmit now ids s in
  (rejected s s'
   /\ (validateInputs uniqueBaseNames uniqueTlds <> None
       \/ (50000 < Z.of_nat (length uniqueBaseNames * length uniqueTlds))%Z)
   /\ (errorMessage s' = validateInputs uniqueBaseNames uniqueTlds
       \/ errorMessage s'
          = Some "Generated more than 50,000 domain combinations. Please reduce base names or TLDs."))
  \/ (started now ids s s'
      /\ validateInputs uniqueBaseNames uniqueTlds = None
      /\ (Z.of_nat (length uniqueBaseNames * length uniqueTlds) <= 50000)%Z).
Proof.
  intros bs ts s'. unfold s', handleSubmit.
  destruct (submit_reset s)
    as (Hb & Ht & Hw & Hk & Hl & Ho & Hi & Hg & Hp & Hq & Hs & Htt & Hsc & Hc & Hn & He & Htm).
  revert Hb Ht Hw Hk Hl Ho Hi Hg Hp Hq Hs Htt Hsc Hc Hn He Htm.
  generalize (clearAsyncOperations
                (set_sortConfig None (set_startTimeRef None (set_timeTaken None
                   (set_parsedTldsForTable [] (set_gridResults [] (set_errorMessage None s))))))).
  intros s1 Hb Ht Hw Hk Hl Ho Hi Hg Hp Hq Hs Htt Hsc Hc Hn He Htm.
  rewrite Hb, Ht. fold bs ts.
  destruct (validateInputs bs ts) as [m|] eqn:Hv.
  { left. split; [apply inputError_rejected; assumption|]. split; [left; discriminate|].
    left. reflexivity. }
  change (totalChecksRef (set_completedChecksRef 0 (set_totalChecksRef ?n ?x))) with n.
  rewrite domainsToProcess_length.
  destruct (Z.ltb_spec 50000 (Z.of_nat (length bs * length ts))) as [Hlt|Hge].
  { left. split; [apply overCeiling_rejected; assumption|]. split; [right; lia|].
    right.
    match goal with |- context [clearAsyncOperations ?x] =>
      destruct (clearAsyncOperations_view x) as (_ & _ & _ & _ & _ & _ & _ & _ & -> & _) end.
    reflexivity. }
  apply validateInputs_None in Hv as Hv'. destruct Hv' as (Hbs & Hts & _).
  destruct (Z.eqb_spec (Z.of_nat (length bs * length ts)) 0) as [Hz|Hnz].
  { exfalso. destruct bs; [contradiction|]. destruct ts; [contradiction|]. simpl in Hz. lia. }
  right. split; [|split; [reflexivity | lia]].
  unfold started. cbv zeta. fold bs ts.
  rewrite <- Hw, <- Hk, <- Ho, <- Hi.
  match goal with |- context [launchChecks ?items _] =>
    pose proof (runStarted_view s1 now (Z.of_nat (length bs * length ts)) (nextObject s1 + length (initialGridResults ids (nextObject s1) bs ts))
                  (initialGridResults ids (nextObject s1) bs ts) ts items) as R
  end.
  cbv zeta in R. destruct R as (R1 & R2 & R3 & R4 & R5 & R6 & R7 & R8 & R9 & R10 & R11 & R12 & R13 & R14).
  rewrite domainsToProcess_length.
  rewrite R1, R2, R3, R4, R5, R6, R7, R8, R9, R10, R11, R12, R13, R14, Hq, Htt, Hsc.
  rewrite He. repeat split. intros H. destruct (Htm H) as (_ & _ & ->). reflexivity.
Qed.

(** ** What a flush does to the grid *)

Lemma lastUpdateFor_Some b t us x :
  lastUpdateFor b t us = Some x ->
  exists u, u ∈ us /\ u_baseName u = b /\ u_tld u = t /\ x = (u_status u, u_reason u).
Proof.
  induction us as [|u us IH]; simpl; [discriminate|].
  destruct (lastUpdateFor b t us) as [y|].
  - intros [= <-]. destruct (IH eq_refl) as (v & Hv & H). exists v. split; [right; exact Hv | exact H].
  - destruct (decide (u_baseName u = b /\ u_tld u = t)) as [[H1 H2]|N].
    + rewrite bool_decide_eq_true_2 by auto. intros [= <-]. exists u. split; [left | auto].
    + rewrite bool_decide_eq_false_2 by exact N. discriminate.
Qed.

Lemma lastUpdateFor_None b t us u :
  lastUpdateFor b t us = None -> u ∈ us -> ~ (u_baseName u = b /\ u_tld u = t).
Proof.
  induction us as [|v us IH]; simpl; intros H Hu; [inversion Hu|].
  destruct (lastUpdateFor b t us) as [y|]; [discriminate|].
  destruct (decide (u_baseName v = b /\ u_tld v = t)) as [Hv|Hv].
  - rewrite bool_decide_eq_true_2 in H by exact Hv. discriminate.
  - apply elem_of_cons in Hu as [->|Hu]; [exact Hv | apply IH; [reflexivity | exact Hu]].
Qed.

Lemma flushedCell_tld properties us b c : c_tld (flushedCell properties us b c) = c_tld c.
Proof.
  unfold flushedCell.
  repeat match goal with
         | |- context [match ?x with _ => _ end] => destruct x
         end; reflexivity.
Qed.

Lemma flushedCell_id properties us b c : c_id (flushedCell properties us b c) = c_id c.
Proof.
  unfold flushedCell.
  repeat match goal with
         | |- context [match ?x with _ => _ end] => destruct x
         end; reflexivity.
Qed.

Lemma objectCell_statusless properties c : statusless (objectCell properties c) = true.
Proof. unfold statusless, objectCell. simpl. destruct (properties !! "status"); reflexivity. Qed.

Lemma objectCell_reason properties c text : c_reason (objectCell properties c) <> Some (Text text).
Proof. unfold objectCell. simpl. destruct (properties !! "reason"); discriminate. Qed.

(** A cell with buffered updates takes the one enqueued last, in the row
    named [constructor] too, whose updates the flush reads back off
    [Object]. *)
Lemma flushedCell_updated properties0 properties us b c v :
  (forall t, properties !! t = objectAfter properties0 us t) ->
  lastUpdateFor b (c_tld c) us = Some v ->
  flushedCell properties us b c = updatedCell c v.
Proof.
  intros Ho Hl. unfold flushedCell.
  destruct (String.eqb_spec b "constructor") as [->|N].
  - rewrite Ho. unfold objectAfter. rewrite Hl. reflexivity.
  - rewrite Hl. reflexivity.
Qed.

(** A cell without buffered updates is left as it is, or loses its
    status, or, in the row named [constructor], takes what an earlier
    flush has left on [Object]. *)
Lemma flushedCell_other properties0 properties us b c :
  (forall t, properties !! t = objectAfter properties0 us t) ->
  lastUpdateFor b (c_tld c) us = None ->
  flushedCell properties us b c = c
  \/ (statusless (flushedCell properties us b c) = true
      /\ forall text, c_reason (flushedCell properties us b c) <> Some (Text text))
  \/ exists v, b = "constructor" /\ properties0 !! c_tld c = Some v
               /\ properties !! c_tld c = Some v
               /\ flushedCell properties us b c = updatedCell c v.
Proof.
  intros Ho Hl. unfold flushedCell.
  destruct (String.eqb_spec b "constructor") as [->|N].
  - pose proof (Ho (c_tld c)) as H. unfold objectAfter in H. rewrite Hl in H.
    destruct (properties !! c_tld c) as [v|] eqn:E.
    + right. right. exists v. auto.
    + destruct (objectProperty (c_tld c));
        [right; left; split; [reflexivity | discriminate] | left; reflexivity].
  - rewrite Hl. destruct (hasUpdateFor b us); simpl; [|left; reflexivity].
    destruct (String.eqb (c_tld c) "constructor");
      [right; left; split; [apply objectCell_statusless | apply objectCell_reason]|].
    destruct (bool_decide _);
      [right; left; split; [reflexivity | discriminate] | left; reflexivity].
Qed.

Lemma flushedRow_names properties us rows rows' :
  Forall2 (flushedRow properties us) rows rows' -> map rowName rows' = map rowName rows.
Proof.
  induction 1 as [|r r' rows rows' [H _] _ IH]; simpl; [reflexivity|]. rewrite H, IH. reflexivity.
Qed.

Lemma flushedRow_tlds properties us r r' : flushedRow properties us r r' -> rowTlds r' = rowTlds r.
Proof.
  intros [_ H]. unfold rowTlds. rewrite H, map_map. apply map_ext. intros c. apply flushedCell_tld.
Qed.

(** Names that pass the validators are keys the flush is modelled on. *)
Lemma builtinName_valid b :
  isValidBaseName b = true -> Js.toLowerCase b = b -> builtinName b = false.
Proof.
  intros Hv Hl. destruct (builtinName b) eqn:E; [|reflexivity]. exfalso.
  unfold builtinName in E. apply andb_true_iff in E as [Hc Hb].
  apply bool_decide_eq_true in Hb. unfold objectPrototypeNames in Hb.
  repeat (apply elem_of_cons in Hb as [->|Hb];
          [first [discriminate Hc | vm_compute in Hl; discriminate Hl
                 | vm_compute in Hv; discriminate Hv]|]).
  inversion Hb.
Qed.

Lemma proto_invalid t : isValidTld t = true -> t <> "__proto__".
Proof. intros H ->. vm_compute in H. discriminate. Qed.

(** What a flush leaves on [Object] was there before or is a buffered
    update for the row named [constructor]. *)
Lemma flush_object s t v :
  objectProperties (flushPendingCellUpdates s) !! t = Some v ->
  objectProperties s !! t = Some v
  \/ exists u, u ∈ pendingCellUpdatesRef s /\ u_baseName u = "constructor" /\ u_tld u = t
               /\ v = (u_status u, u_reason u).
Proof.
  destruct (pendingCellUpdatesRef s) as [|u0 us] eqn:E.
  - rewrite (flush_empty s E). auto.
  - assert (Hne : pendingCellUpdatesRef s <> []) by (rewrite E; discriminate).
    destruct (flush_outcome s Hne) as (H & _). rewrite E in H. apply H.
Qed.

(** Row by row and cell by cell, what a flush makes of the grid. *)
Lemma flush_cells s r' :
  r' ∈ gridResults (flushPendingCellUpdates s) ->
  exists r, r ∈ gridResults s /\ rowName r' = rowName r /\ rowTlds r' = rowTlds r
    /\ forall c', c' ∈ r_tldResults (row r') ->
         exists c, c ∈ r_tldResults (row r) /\ c_tld c' = c_tld c /\ c_id c' = c_id c
           /\ ((c' = c /\ (halted (flushPendingCellUpdates s) = None ->
                           ~ buffered s (rowName r) (c_tld c)))
               \/ (statusless c' = true /\ forall text, c_reason c' <> Some (Text text))
               \/ (exists u, u ∈ pendingCellUpdatesRef s /\ u_baseName u = rowName r
                             /\ u_tld u = c_tld c
                             /\ c' = updatedCell c (u_status u, u_reason u))
               \/ (exists v, rowName r = "constructor"
                             /\ objectProperties s !! c_tld c = Some v
                             /\ objectProperties (flushPendingCellUpdates s) !! c_tld c = Some v
                             /\ c' = updatedCell c v)).
Proof.
  intros Hr'.
  assert (Hsame : (pendingCellUpdatesRef s = [] \/ halted (flushPendingCellUpdates s) <> None) ->
                  gridResults (flushPendingCellUpdates s) = gridResults s ->
                  exists r, r ∈ gridResults s /\ rowName r' = rowName r /\ rowTlds r' = rowTlds r
    /\ forall c', c' ∈ r_tldResults (row r') ->
         exists c, c ∈ r_tldResults (row r) /\ c_tld c' = c_tld c /\ c_id c' = c_id c
           /\ ((c' = c /\ (halted (flushPendingCellUpdates s) = None ->
                           ~ buffered s (rowName r) (c_tld c)))
               \/ (statusless c' = true /\ forall text, c_reason c' <> Some (Text text))
               \/ (exists u, u ∈ pendingCellUpdatesRef s /\ u_baseName u = rowName r
                             /\ u_tld u = c_tld c
                             /\ c' = updatedCell c (u_status u, u_reason u))
               \/ (exists v, rowName r = "constructor"
                             /\ objectProperties s !! c_tld c = Some v
                             /\ objectProperties (flushPendingCellUpdates s) !! c_tld c = Some v
                             /\ c' = updatedCell c v))).
  { intros Hwhy Eg. rewrite Eg in Hr'. exists r'. repeat split; [exact Hr'|].
    intros c' Hc'. exists c'. repeat split; [exact Hc'|]. left. split; [reflexivity|].
    intros Hh (u & Hu & _). destruct Hwhy as [E|N]; [|contradiction].
    rewrite E in Hu. inversion Hu. }
  destruct (pendingCellUpdatesRef s) as [|u0 us] eqn:E.
  { apply Hsame; [left; reflexivity|]. rewrite (flush_empty s E). reflexivity. }
  assert (Hne : pendingCellUpdatesRef s <> []) by (rewrite E; discriminate).
  destruct (flush_outcome s Hne) as (_ & [(Hh & _ & Ho & _ & F)|(why & Hh & Eg & _)]).
  2:{ apply Hsame; [right; rewrite Hh; discriminate | exact Eg]. }
  clear Hsame. rewrite <- E. clear E u0 us.
  apply list_elem_of_lookup in Hr' as (i & Hi).
  destruct (Forall2_lookup_r _ _ _ _ _ F Hi) as (r & Hr & (Hf & _)).
  exists r. split; [eapply list_elem_of_lookup_2; exact Hr|].
  split; [apply Hf|]. split; [eapply flushedRow_tlds; exact Hf|].
  destruct Hf as [_ Hcells]. intros c' Hc'. rewrite Hcells in Hc'.
  apply list_elem_of_In, in_map_iff in Hc' as (c & <- & Hc). apply list_elem_of_In in Hc.
  exists c. split; [exact Hc|]. split; [apply flushedCell_tld|]. split; [apply flushedCell_id|].
  destruct (lastUpdateFor (rowName r) (c_tld c) (pendingCellUpdatesRef s)) as [v|] eqn:El.
  - right. right. left.
    destruct (lastUpdateFor_Some _ _ _ _ El) as (u & Hu & Hb & Ht & ->).
    exists u. repeat split; try assumption.
    eapply flushedCell_updated; eassumption.
  - destruct (flushedCell_other _ _ _ _ c Ho El) as [Hc1|[Hc2|(v & Hb & Hv0 & Hv & Hc3)]].
    + left. split; [exact Hc1|]. intros _ (u & Hu & Hub & Hut).
      eapply lastUpdateFor_None; eauto.
    + right. left. exact Hc2.
    + right. right. right. exists v. auto.
Qed.

Lemma flush_running s :
  halted (flushPendingCellUpdates s) = None -> halted s = None.
Proof.
  destruct (pendingCellUpdatesRef s) as [|u0 us] eqn:E.
  - rewrite (flush_empty s E). auto.
  - assert (Hne : pendingCellUpdatesRef s <> []) by (rewrite E; discriminate).
    destruct (flush_outcome s Hne) as (_ & [(-> & _)|(why & -> & _)]); [auto | discriminate].
Qed.

Lemma flush_length s :
  length (gridResults (flushPendingCellUpdates s)) = length (gridResults s).
Proof.
  destruct (pendingCellUpdatesRef s) as [|u0 us] eqn:E.
  - rewrite (flush_empty s E). reflexivity.
  - assert (Hne : pendingCellUpdatesRef s <> []) by (rewrite E; discriminate).
    destruct (flush_outcome s Hne) as (_ & [(_ & _ & _ & _ & F)|(why & _ & -> & _)]);
      [|reflexivity].
    symmetry. exact (Forall2_length _ _ _ F).
Qed.

Lemma flush_names s :
  map rowName (gridResults (flushPendingCellUpdates s)) = map rowName (gridResults s).
Proof.
  destruct (pendingCellUpdatesRef s) as [|u0 us] eqn:E.
  - rewrite (flush_empty s E). reflexivity.
  - assert (Hne : pendingCellUpdatesRef s <> []) by (rewrite E; discriminate).
    destruct (flush_outcome s Hne) as (_ & [(_ & _ & _ & _ & F)|(why & _ & -> & _)]);
      [|reflexivity].
    induction F as [|r r' rows rows' ([H _] & _) _ IH]; simpl; [reflexivity|].
    rewrite H, IH. reflexivity.
Qed.

(** ** The shape of the grid *)

(** Only a flush writes on [Object] or ends short. *)
Lemma stop_host s :
  objectProperties (stopFlushInterval s) = objectProperties s
  /\ halted (stopFlushInterval s) = halted s
  /\ nextObject (stopFlushInterval s) = nextObject s
  /\ gridResults (stopFlushInterval s) = gridResults s.
Proof. unfold stopFlushInterval. destruct (flushIntervalRef s) as [[|t]|]; repeat split. Qed.

Lemma clearAsyncOperations_host s :
  objectProperties (clearAsyncOperations s) = objectProperties s
  /\ halted (clearAsyncOperations s) = halted s.
Proof.
  unfold clearAsyncOperations. destruct (stop_host s) as (E1 & E2 & _).
  revert E1 E2. generalize (stopFlushInterval s). intros s1 E1 E2. split; assumption.
Qed.

Lemma handleClear_host s :
  objectProperties (handleClear s) = objectProperties s
  /\ halted (handleClear s) = halted s.
Proof.
  unfold handleClear.
  match goal with |- context [clearAsyncOperations ?x] =>
    destruct (clearAsyncOperations_host x) as (-> & ->) end.
  split; reflexivity.
Qed.

Lemma setPhase_host i p s :
  objectProperties (setPhase i p s) = objectProperties s
  /\ halted (setPhase i p s) = halted s
  /\ nextObject (setPhase i p s) = nextObject s.
Proof. unfold setPhase. destruct (tasks s !! i); repeat split. Qed.

Lemma handleSubmit_host now ids s :
  objectProperties (handleSubmit now ids s) = objectProperties s
  /\ halted (handleSubmit now ids s) = halted s.
Proof.
  unfold handleSubmit.
  match goal with |- context [clearAsyncOperations ?x] =>
    destruct (clearAsyncOperations_host x) as (Ho & Hh);
    change (objectProperties x) with (objectProperties s) in Ho;
    change (halted x) with (halted s) in Hh;
    revert Ho Hh; generalize (clearAsyncOperations x)
  end.
  intros s1 Ho Hh.
  match goal with |- context [validateInputs ?a ?b] => generalize (validateInputs a b) end.
  intros [message|]; [split; assumption|].
  match goal with |- context [Z.ltb ?a ?b] => generalize (Z.ltb a b) end.
  intros [|].
  { match goal with |- context [clearAsyncOperations ?x] =>
      destruct (clearAsyncOperations_host x) as (-> & ->) end.
    split; assumption. }
  match goal with |- context [Z.eqb ?a ?b] => generalize (Z.eqb a b) end.
  intros [|].
  { match goal with |- context [clearAsyncOperations ?x] =>
      destruct (clearAsyncOperations_host x) as (-> & ->) end.
    split; assumption. }
  split; assumption.
Qed.

Lemma GridInv_ext s s' :
  gridResults s' = gridResults s -> parsedTldsForTable s' = parsedTldsForTable s ->
  pendingCellUpdatesRef s' = pendingCellUpdatesRef s -> totalChecksRef s' = totalChecksRef s ->
  objectProperties s' = objectProperties s -> tasks s' = tasks s -> halted s' = halted s ->
  GridInv s -> GridInv s'.
Proof.
  intros E1 E2 E3 E4 E5 E6 E7 [H1 H2 H3 H4 H5 H6 H7 H8 H10 H11 H12].
  constructor; rewrite ?E1, ?E2, ?E3, ?E4, ?E5, ?E6, ?E7; assumption.
Qed.

Lemma GridInv_empty s0 s :
  GridInv s0 ->
  objectProperties s = objectProperties s0 -> tasks s = tasks s0 -> halted s = halted s0 ->
  gridResults s = [] -> parsedTldsForTable s = [] -> pendingCellUpdatesRef s = [] ->
  totalChecksRef s = 0%Z -> GridInv s.
Proof.
  intros [_ _ _ _ _ _ H7 H8 _ _ _] E5 E6 E7 E1 E2 E3 E4.
  constructor; rewrite ?E1, ?E2, ?E3, ?E4, ?E5, ?E6; try assumption.
  - constructor.
  - constructor.
  - intros r H. inversion H.
  - intros r H. inversion H.
  - intros r c H. inversion H.
  - intros u H. inversion H.
  - reflexivity.
  - discriminate.
  - intros t H. inversion H.
Qed.

Lemma GridInv_rows s r :
  GridInv s -> r ∈ gridResults s -> builtinName (rowName r) = false.
Proof.
  intros H Hr. destruct (grid_valid s H r Hr) as [Hv Hl]. apply builtinName_valid; assumption.
Qed.

(** On a reachable grid the updater of a flush ends short only when a
    base name is [constructor]. *)
Lemma flush_stops s :
  GridInv s -> halted (flushPendingCellUpdates s) <> halted s ->
  (exists u, u ∈ pendingCellUpdatesRef s /\ u_baseName u = "constructor")
  \/ (exists r, r ∈ gridResults s /\ rowName r = "constructor").
Proof.
  intros G Hh. destruct (pendingCellUpdatesRef s) as [|u0 us] eqn:E.
  - rewrite (flush_empty s E) in Hh. contradiction.
  - assert (Hne : pendingCellUpdatesRef s <> []) by (rewrite E; discriminate).
    destruct (flush_outcome s Hne) as (_ & [(Hsame & _)|(why & _ & _ & _ & Hw)]);
      [contradiction|].
    rewrite <- E. apply Hw.
    + rewrite Forall_forall. intros u Hu. apply (grid_buffer s G u Hu).
    + intros r Hr. apply (GridInv_rows s); assumption.
Qed.

Lemma updatedCell_known c v : c_status (updatedCell c v) = Known (fst v).
Proof. reflexivity. Qed.

Lemma statusless_not_known c (st : DomainStatus) : statusless c = true -> c_status c <> st.
Proof. unfold statusless. intros H E. rewrite E in H. discriminate. Qed.

Lemma decided_not_idle st : decided st -> Known st <> IDLE.
Proof. intros [-> | [-> | ->]]; discriminate. Qed.

Lemma GridInv_flush s : GridInv s -> GridInv (flushPendingCellUpdates s).
Proof.
  intros G. pose proof G as [H1 H2 H3 H4 H5 H6 H7 H8 H10 H11 H12].
  destruct (flush_frame s) as (_ & Et & _ & _ & _ & _ & _ & Ek & Ep).
  destruct (flush_frame_view s) as (Ev & _).
  constructor.
  - rewrite Ev. exact H1.
  - rewrite flush_names. exact H2.
  - intros r' Hr'. destruct (flush_cells s r' Hr') as (r & Hr & _ & -> & _).
    rewrite Ev. apply H3, Hr.
  - intros r' Hr'. destruct (flush_cells s r' Hr') as (r & Hr & -> & _). apply H4, Hr.
  - intros r' c' Hr' Hc'. destruct (flush_cells s r' Hr') as (r & Hr & _ & _ & Hcells).
    destruct (Hcells c' Hc')
      as (c & Hc & _ & _ & [[-> _]|[[Hs _]|[(u & Hu & _ & _ & ->)|(v & _ & Hv & _ & ->)]]]).
    + eapply H5; eassumption.
    + apply statusless_not_known, Hs.
    + apply decided_not_idle. apply (H6 u Hu).
    + apply decided_not_idle. exact (H7 _ _ Hv).
  - rewrite Ep. intros u Hu. inversion Hu.
  - intros t v Hv. destruct (flush_object s t v Hv) as [H|(u & Hu & _ & _ & ->)].
    + exact (H7 _ _ H).
    + apply (H6 u Hu).
  - rewrite Ek. exact H8.
  - rewrite Et, Ev, flush_length. exact H10.
  - rewrite Et. exact H11.
  - rewrite Ev. exact H12.
Qed.

Lemma GridInv_stop s : GridInv s -> GridInv (stopFlushInterval s).
Proof.
  destruct (stop_frame_view s) as (E1 & E2 & E3 & _).
  destruct (stop_frame_counters s) as (_ & E4 & _ & E6).
  destruct (stop_host s) as (E5 & E7 & _).
  apply GridInv_ext; assumption.
Qed.

Lemma settledUpdate_keys it net :
  u_baseName (settledUpdate it net) = d_baseName it /\ u_tld (settledUpdate it net) = d_tld it.
Proof. unfold settledUpdate. destruct (Untyped.checkDomain _ _); split; reflexivity. Qed.

Lemma settledUpdate_decided it net : decided (u_status (settledUpdate it net)).
Proof.
  unfold settledUpdate, decided.
  destruct (Untyped_checkDomain_cases (d_fullDomain it) net)
    as [(_ & ->)|(_ & [(o & -> & Ho & _)|(e & p & t & response & body & -> & _)])]; simpl; tauto.
Qed.

Lemma imap_names {A} (g : RowObj -> A) (l : list A) : forall (f : nat -> A -> RowObj),
  (forall i x, g (f i x) = x) -> map g (imap f l) = l.
Proof.
  induction l as [|x l IH]; intros f H; simpl; [reflexivity|].
  rewrite H, IH; [reflexivity|]. intros i y. apply H.
Qed.

Lemma imap_cells (l : list string) : forall (f : nat -> string -> ProcessedTldResult),
  (forall i x, c_tld (f i x) = x) -> map c_tld (imap f l) = l.
Proof.
  induction l as [|x l IH]; intros f H; simpl; [reflexivity|].
  rewrite H, IH; [reflexivity|]. intros i y. apply H.
Qed.

Lemma initialGridResults_rows ids next bs ts r :
  r ∈ initialGridResults ids next bs ts ->
  rowName r ∈ bs /\ rowTlds r = ts
  /\ forall c, c ∈ r_tldResults (row r) -> c_status c = CHECKING /\ c_tld c ∈ ts.
Proof.
  unfold initialGridResults. intros H. apply elem_of_lookup_imap in H as (i & b & -> & Hb).
  unfold rowName, rowTlds. simpl. split; [eapply list_elem_of_lookup_2; exact Hb|].
  split; [apply imap_cells; reflexivity|].
  intros c Hc. apply elem_of_lookup_imap in Hc as (j & t & -> & Ht). simpl.
  split; [reflexivity | eapply list_elem_of_lookup_2; exact Ht].
Qed.

Lemma initialGridResults_names ids next bs ts :
  map rowName (initialGridResults ids next bs ts) = bs.
Proof. unfold initialGridResults. apply imap_names. reflexivity. Qed.

Lemma parsed_lower_base input b : b ∈ parseBaseNames input -> Js.toLowerCase b = b.
Proof. intros H. apply parseBaseNames_elem in H as (_ & d & _ & ->). apply toLowerCase_idem. Qed.

Lemma domainsToProcess_inv bs ts it :
  it ∈ domainsToProcess bs ts ->
  d_baseName it ∈ bs /\ d_tld it ∈ ts
  /\ d_fullDomain it = d_baseName it +:+ "." +:+ d_tld it.
Proof.
  unfold domainsToProcess. intros H.
  apply list_elem_of_In, in_flat_map in H as (b & Hb & H).
  apply in_map_iff in H as (t & <- & Ht). simpl.
  repeat split; apply list_elem_of_In; assumption.
Qed.

Lemma GridInv_started now ids s s' :
  GridInv s ->
  objectProperties s' = objectProperties s -> halted s' = halted s ->
  started now ids s s' ->
  validateInputs (parseBaseNames (baseNamesInput s)) (parseTlds (tldsInput s)) = None ->
  (Z.of_nat (length (parseBaseNames (baseNamesInput s)) * length (parseTlds (tldsInput s)))
   <= 50000)%Z ->
  GridInv s'.
Proof.
  unfold started. cbv zeta.
  intros [_ _ _ _ _ _ H7 H8 _ _ _] Eo Eh (_ & _ & Eg & Et & Ep & Ek & _ & En & _) Hv Hn.
  apply validateInputs_None in Hv as (_ & _ & Hb & Htv).
  constructor; rewrite ?Eg, ?Et, ?Ep, ?En, ?Eo, ?Eh, ?Ek; try assumption.
  - apply unique_NoDup.
  - rewrite initialGridResults_names. apply unique_NoDup.
  - intros r Hr. apply initialGridResults_rows in Hr. tauto.
  - intros r Hr. apply initialGridResults_rows in Hr as (Hr & _).
    split; [apply Hb, Hr | eapply parsed_lower_base; exact Hr].
  - intros r c Hr Hc. apply initialGridResults_rows in Hr as (_ & _ & H).
    destruct (H c Hc) as [-> _]. discriminate.
  - intros u Hu. inversion Hu.
  - intros t Ht. apply elem_of_app in Ht as [Ht|Ht]; [apply H8, Ht|].
    apply list_elem_of_In, in_map_iff in Ht as (it & <- & Hit). apply list_elem_of_In in Hit.
    apply domainsToProcess_inv in Hit as (Hib & Hit & _). simpl. split.
    + apply builtinName_valid; [apply Hb, Hib | eapply parsed_lower_base; exact Hib].
    + apply proto_invalid, Htv, Hit.
  - rewrite domainsToProcess_length. unfold initialGridResults.
    rewrite length_imap. reflexivity.
  - rewrite domainsToProcess_length. exact Hn.
  - intros t Ht. apply parseTlds_elem in Ht as (_ & d & _ & ->). apply toLowerCase_idem.
Qed.

Lemma GridInv_handleSubmit now ids s : GridInv s -> GridInv (handleSubmit now ids s).
Proof.
  intros G. destruct (handleSubmit_host now ids s) as (Eo & Eh).
  destruct (handleSubmit_cases now ids s) as [(R & _)|(S & Hv & Hn)].
  - destruct R as (_ & E1 & E2 & E3 & Ek & _ & E4 & _).
    apply (GridInv_empty s); assumption.
  - eapply GridInv_started; eassumption.
Qed.

Lemma handleClear_view s :
  gridResults (handleClear s) = [] /\ parsedTldsForTable (handleClear s) = []
  /\ pendingCellUpdatesRef (handleClear s) = []
  /\ completedChecksRef (handleClear s) = 0%Z /\ totalChecksRef (handleClear s) = 0%Z
  /\ isLoading (handleClear s) = false
  /\ baseNamesInput (handleClear s) = "" /\ tldsInput (handleClear s) = ""
  /\ errorMessage (handleClear s) = None /\ timeTaken (handleClear s) = None
  /\ startTimeRef (handleClear s) = None /\ sortConfig (handleClear s) = None
  /\ tasks (handleClear s) = tasks s /\ wire (handleClear s) = wire s.
Proof.
  unfold handleClear.
  match goal with |- context [clearAsyncOperations ?x] =>
    destruct (clearAsyncOperations_frame x) as (-> & -> & -> & -> & _ & -> & _);
    destruct (clearAsyncOperations_view x) as (-> & -> & -> & _ & _ & -> & -> & -> & -> & -> & ->)
  end.
  repeat split.
Qed.

Lemma GridInv_handleClear s : GridInv s -> GridInv (handleClear s).
Proof.
  intros G. destruct (handleClear_host s) as (Eo & Eh).
  destruct (handleClear_view s)
    as (E1 & E2 & E3 & _ & E4 & _ & _ & _ & _ & _ & _ & _ & Ek & _).
  apply (GridInv_empty s); assumption.
Qed.

Lemma setPhase_view i p s :
  gridResults (setPhase i p s) = gridResults s
  /\ parsedTldsForTable (setPhase i p s) = parsedTldsForTable s
  /\ wire (setPhase i p s) = wire s
  /\ startTimeRef (setPhase i p s) = startTimeRef s.
Proof. unfold setPhase. destruct (tasks s !! i); repeat split. Qed.

Lemma GridInv_setPhase i p s : GridInv s -> GridInv (setPhase i p s).
Proof.
  intros [H1 H2 H3 H4 H5 H6 H7 H8 H10 H11 H12].
  destruct (setPhase_view i p s) as (E1 & E2 & _).
  destruct (setPhase_frame i p s) as (_ & _ & E3 & _ & _ & _ & E4).
  destruct (setPhase_host i p s) as (E5 & E7 & _).
  constructor; rewrite ?E1, ?E2, ?E3, ?E4, ?E5, ?E7; try assumption.
  unfold setPhase. destruct (tasks s !! i) as [t0|] eqn:Et; [|exact H8].
  intros t Ht. simpl in Ht. apply list_elem_of_lookup in Ht as (j & Hj).
  destruct (decide (i = j)) as [<-|N].
  - rewrite list_lookup_insert_eq in Hj by (eapply lookup_lt_Some; exact Et).
    injection Hj as <-. simpl. apply H8. eapply list_elem_of_lookup_2; exact Et.
  - rewrite list_lookup_insert_ne in Hj by exact N.
    apply H8. eapply list_elem_of_lookup_2; exact Hj.
Qed.

Lemma GridInv_push u s :
  decided (u_status u) -> modelled (u_baseName u) (u_tld u) -> GridInv s -> GridInv (push u s).
Proof.
  intros Hu Hm [H1 H2 H3 H4 H5 H6 H7 H8 H10 H11 H12]. constructor; try assumption.
  intros v Hv. change (pendingCellUpdatesRef (push u s)) with (pendingCellUpdatesRef s ++ [u]) in Hv.
  apply elem_of_app in Hv as [Hv|Hv]; [apply H6, Hv|].
  apply list_elem_of_singleton in Hv as ->. split; assumption.
Qed.

Lemma GridInv_onFinally now s : GridInv s -> GridInv (onFinally now s).
Proof.
  intros H. unfold onFinally.
  assert (H1 : GridInv (set_completedChecksRef (completedChecksRef s + 1) s))
    by (revert H; apply GridInv_ext; reflexivity).
  clear H. revert H1.
  generalize (set_completedChecksRef (completedChecksRef s + 1) s). intros s1 H1.
  match goal with |- context [Z.eqb ?a ?b] => generalize (Z.eqb a b) end.
  intros [|]; [|exact H1].
  assert (H2 : GridInv (set_isLoading false (flushPendingCellUpdates (stopFlushInterval s1)))).
  { pose proof (GridInv_flush _ (GridInv_stop _ H1)) as H2. revert H2.
    apply GridInv_ext; reflexivity. }
  clear H1. revert H2.
  generalize (set_isLoading false (flushPendingCellUpdates (stopFlushInterval s1))).
  intros s2 H2.
  destruct (startTimeRef s2) as [start|]; [|exact H2].
  destruct (start =? 0)%Z; [exact H2|]. revert H2. apply GridInv_ext; reflexivity.
Qed.

Lemma GridInv_step s e : GridInv s -> GridInv (step s e).
Proof.
  intros H. destruct e; simpl.
  - revert H. apply GridInv_ext; reflexivity.
  - revert H. apply GridInv_ext; reflexivity.
  - apply GridInv_handleSubmit, H.
  - apply GridInv_handleClear, H.
  - revert H. apply GridInv_ext; reflexivity.
  - apply GridInv_flush, H.
  - destruct (tasks s !! i) as [t|] eqn:Et; [|exact H].
    apply GridInv_setPhase, GridInv_push; [apply settledUpdate_decided | | exact H].
    destruct (settledUpdate_keys (item t) net) as [-> ->].
    apply (grid_tasks s H). eapply list_elem_of_lookup_2; exact Et.
  - apply GridInv_setPhase, GridInv_onFinally, H.
Qed.

Lemma reachable_GridInv s : reachable s -> GridInv s.
Proof.
  induction 1 as [|s e _ IH _]; [|apply GridInv_step, IH].
  constructor; simpl.
  - constructor.
  - constructor.
  - intros r H. inversion H.
  - intros r H. inversion H.
  - intros r c H. inversion H.
  - intros u H. inversion H.
  - intros t v H. rewrite lookup_empty in H. discriminate.
  - intros t H. inversion H.
  - reflexivity.
  - discriminate.
  - intros t H. inversion H.
Qed.

(** ** The end of a run *)






(** ** The flush timer and the loading flag *)

Lemma Armed_ext s s' :
  isLoading s' = isLoading s -> flushIntervalRef s' = flushIntervalRef s -> Armed s -> Armed s'.
Proof. unfold Armed. intros -> ->. auto. Qed.

Lemma onFinally_timer now s :
  TimerInv s ->
  (isLoading (onFinally now s) = isLoading s
   /\ flushIntervalRef (onFinally now s) = flushIntervalRef s)
  \/ (isLoading (onFinally now s) = false /\ flushIntervalRef (onFinally now s) = None).
Proof.
  intros Ht. unfold onFinally.
  assert (Ht1 : TimerInv (set_completedChecksRef (completedChecksRef s + 1) s))
    by (revert Ht; apply TimerInv_ext; reflexivity).
  assert (El : isLoading (set_completedChecksRef (completedChecksRef s + 1) s) = isLoading s)
    by reflexivity.
  assert (Ef : flushIntervalRef (set_completedChecksRef (completedChecksRef s + 1) s)
               = flushIntervalRef s) by reflexivity.
  clear Ht. revert Ht1 El Ef.
  generalize (set_completedChecksRef (completedChecksRef s + 1) s). intros s1 Ht1 El Ef.
  match goal with |- context [Z.eqb ?a ?b] => generalize (Z.eqb a b) end.
  intros [|]; [|left; split; assumption].
  right. destruct (stop_frame s1 Ht1) as (E1 & _).
  destruct (flush_frame (stopFlushInterval s1)) as (_ & _ & _ & _ & F5 & _).
  rewrite E1 in F5. clear - F5. revert F5.
  generalize (flushPendingCellUpdates (stopFlushInterval s1)). intros s2 F5.
  change (startTimeRef (set_isLoading false s2)) with (startTimeRef s2).
  destruct (startTimeRef s2) as [start|]; [destruct (start =? 0)%Z|]; split;
    first [reflexivity | exact F5].
Qed.

Lemma Armed_step s e : Inv s -> Armed s -> enabled s e = true -> Armed (step s e).
Proof.
  intros [_ _ Ht] Ha He. unfold enabled in He. apply andb_true_iff in He as [_ He]. destruct e.
  - revert Ha. apply Armed_ext; reflexivity.
  - revert Ha. apply Armed_ext; reflexivity.
  - simpl in He. apply andb_true_iff in He as [He _]. apply andb_true_iff in He as [He _].
    apply andb_true_iff in He as [He _]. apply negb_true_iff in He.
    change (step s (ClickCheck now ids)) with (handleSubmit now ids s).
    destruct (handleSubmit_cases now ids s) as [(R & _)|(S & _)].
    + destruct R as (_ & _ & _ & _ & _ & _ & _ & _ & _ & _ & _ & Hl & Hf).
      unfold Armed. rewrite (Hl He). apply Hf, Ht.
    + destruct S as (_ & Hl & _ & _ & _ & _ & _ & _ & _ & _ & _ & _ & Hf & _).
      unfold Armed. rewrite Hl, Hf. discriminate.
  - change (step s ClickClear) with (handleClear s).
    destruct (handleClear_view s) as (_ & _ & _ & _ & _ & Hl & _).
    unfold Armed. rewrite Hl. unfold handleClear.
    match goal with |- context [clearAsyncOperations ?x] =>
      assert (Hx : TimerInv x) by (revert Ht; apply TimerInv_ext; reflexivity);
      destruct (clearAsyncOperations_resets x Hx) as (E & _) end.
    exact E.
  - revert Ha. apply Armed_ext; reflexivity.
  - change (step s (IntervalFires t)) with (flushPendingCellUpdates s).
    destruct (flush_frame s) as (_ & _ & _ & _ & F5 & F6 & _). revert Ha.
    apply Armed_ext; assumption.
  - simpl. destruct (tasks s !! i); [|exact Ha].
    destruct (setPhase_frame i AwaitingFinally (push (settledUpdate (item c) net) s))
      as (F1 & _ & _ & F4 & _).
    revert Ha. apply Armed_ext; [rewrite F4 | rewrite F1]; reflexivity.
  - change (step s (CheckFinally i now)) with (setPhase i Finished (onFinally now s)).
    destruct (setPhase_frame i Finished (onFinally now s)) as (F1 & _ & _ & F4 & _).
    unfold Armed. rewrite F1, F4.
    destruct (onFinally_timer now s Ht) as [[-> ->]|[-> ->]]; [exact Ha | reflexivity].
Qed.

Lemma reachable_Armed s : reachable s -> Armed s.
Proof.
  induction 1 as [|s e Hr IH He]; [reflexivity|].
  apply Armed_step; [apply reachable_Inv; exact Hr | exact IH | exact He].
Qed.

(** X11. In every state the component can reach, the periodic flush timer
    is armed exactly while the loading flag is on: while loading, the one
    armed interval is the one [flushIntervalRef] holds; otherwise no
    interval is armed and the ref is empty. *)
Theorem flush_timer_runs_exactly_while_loading (s : AppState) :
  reachable s ->
  if isLoading s
  then exists t, flushIntervalRef s = Some t /\ liveIntervals s = [t]
  else flushIntervalRef s = None /\ liveIntervals s = [].
Proof.
  intros Hr. pose proof (reachable_Armed s Hr) as Ha.
  destruct (reachable_Inv s Hr) as [_ _ [Hl _]]. unfold Armed in Ha.
  destruct (isLoading s).
  - destruct (flushIntervalRef s) as [t|]; [|contradiction]. exists t. auto.
  - rewrite Ha in Hl. auto.
Qed.

Lemma fooSubmitted_reachable : reachable fooSubmitted.
Proof.
  unfold fooSubmitted.
  repeat (apply reachable_step; [|reflexivity]). apply reachable_init.
Qed.

Lemma flush_timer_runs_exactly_while_loading_witness :
  exists t, flushIntervalRef fooSubmitted = Some t /\ liveIntervals fooSubmitted = [t].
Proof.
  exact (flush_timer_runs_exactly_while_loading fooSubmitted fooSubmitted_reachable).
Defined.

(** X12. In a reachable state the clear button empties both inputs, the
    grid and the TLD header, drops the error message, the elapsed time
    and the sort order, switches loading off, empties the buffer, zeroes
    both counters and leaves no interval armed; the promise chains
    already launched stay as they are, nothing cancels them. *)
Theorem clear_resets_all_but_the_checks_in_flight (s : AppState) :
  reachable s ->
  let s' := step s ClickClear in
  baseNamesInput s' = "" /\ tldsInput s' = ""
  /\ gridResults s' = [] /\ parsedTldsForTable s' = []
  /\ errorMessage s' = None /\ timeTaken s' = None /\ sortConfig s' = None
  /\ isLoading s' = false /\ startTimeRef s' = None
  /\ pendingCellUpdatesRef s' = []
  /\ completedChecksRef s' = 0%Z /\ totalChecksRef s' = 0%Z
  /\ flushIntervalRef s' = None /\ liveIntervals s' = []
  /\ tasks s' = tasks s /\ wire s' = wire s.
Proof.
  intros Hr s'. unfold s'. change (step s ClickClear) with (handleClear s).
  destruct (reachable_Inv s Hr) as [_ _ Ht].
  destruct (handleClear_view s)
    as (E1 & E2 & E3 & E4 & E5 & E6 & E7 & E8 & E9 & E10 & E11 & E12 & E13 & E14).
  assert (Hf : flushIntervalRef (handleClear s) = None /\ liveIntervals (handleClear s) = []).
  { unfold handleClear.
    match goal with |- context [clearAsyncOperations ?x] =>
      assert (Hx : TimerInv x) by (revert Ht; apply TimerInv_ext; reflexivity);
      destruct (clearAsyncOperations_resets x Hx) as (F1 & F2 & _) end.
    split; assumption. }
  destruct Hf as [F1 F2]. repeat split; assumption.
Qed.

Lemma clear_resets_all_but_the_checks_in_flight_witness :
  liveIntervals (step fooSubmitted ClickClear) = []
  /\ taskPhase (step fooSubmitted ClickClear) 0 = Some AwaitingCheck.
Proof.
  split; [|reflexivity].
  apply (clear_resets_all_but_the_checks_in_flight fooSubmitted fooSubmitted_reachable).
Defined.

(** ** Runs that are not cleared *)

Lemma Covered_ext s s' :
  gridResults s' = gridResults s -> pendingCellUpdatesRef s' = pendingCellUpdatesRef s ->
  tasks s' = tasks s -> halted s' = halted s -> Covered s -> Covered s'.
Proof. unfold Covered, buffered, awaited. intros -> -> -> ->. auto. Qed.

Lemma Quiet_ext s s' :
  isLoading s' = isLoading s -> pendingCellUpdatesRef s' = pendingCellUpdatesRef s ->
  Quiet s -> Quiet s'.
Proof. unfold Quiet. intros -> ->. auto. Qed.

Lemma Covered_flush s : GridInv s -> Covered s -> Covered (flushPendingCellUpdates s).
Proof.
  intros G Hc Hh r' c' Hr' Hc' Hs.
  destruct (flush_frame s) as (_ & _ & _ & _ & _ & _ & _ & Et & _).
  destruct (flush_cells s r' Hr') as (r & Hr & -> & _ & Hcells).
  destruct (Hcells c' Hc')
    as (c & Hcin & -> & _ & [[-> Hno]|[[Hl _]|[(u & Hu & _ & _ & ->)|(v & _ & Hv & _ & ->)]]]).
  - destruct (Hc (flush_running s Hh) r c Hr Hcin Hs) as [Hb|Ha].
    + destruct (Hno Hh Hb).
    + right. unfold awaited. rewrite Et. exact Ha.
  - exfalso. revert Hs. apply statusless_not_known, Hl.
  - exfalso. simpl in Hs. injection Hs as Hs.
    destruct (proj1 (grid_buffer s G u Hu)) as [H|[H|H]]; congruence.
  - exfalso. simpl in Hs. injection Hs as Hs.
    destruct (grid_object s G _ _ Hv) as [H|[H|H]]; congruence.
Qed.

Lemma Covered_stop s : Covered s -> Covered (stopFlushInterval s).
Proof.
  destruct (stop_frame_view s) as (E1 & _ & E3 & _).
  destruct (stop_frame_counters s) as (_ & _ & _ & E4).
  destruct (stop_host s) as (_ & E5 & _).
  apply Covered_ext; assumption.
Qed.

Lemma Covered_onFinally now s : GridInv s -> Covered s -> Covered (onFinally now s).
Proof.
  intros Hg H. unfold onFinally.
  assert (H1 : Covered (set_completedChecksRef (completedChecksRef s + 1) s))
    by (revert H; apply Covered_ext; reflexivity).
  assert (G1 : GridInv (set_completedChecksRef (completedChecksRef s + 1) s))
    by (revert Hg; apply GridInv_ext; reflexivity).
  clear H Hg. revert H1 G1.
  generalize (set_completedChecksRef (completedChecksRef s + 1) s). intros s1 H1 G1.
  match goal with |- context [Z.eqb ?a ?b] => generalize (Z.eqb a b) end.
  intros [|]; [|exact H1].
  assert (H2 : Covered (set_isLoading false (flushPendingCellUpdates (stopFlushInterval s1)))).
  { pose proof (Covered_flush _ (GridInv_stop _ G1) (Covered_stop _ H1)) as H2.
    revert H2. apply Covered_ext; reflexivity. }
  clear H1 G1. revert H2.
  generalize (set_isLoading false (flushPendingCellUpdates (stopFlushInterval s1))).
  intros s2 H2.
  destruct (startTimeRef s2) as [start|]; [|exact H2].
  destruct (start =? 0)%Z; [exact H2|]. revert H2. apply Covered_ext; reflexivity.
Qed.

Lemma Quiet_onFinally now s : Quiet s -> Quiet (onFinally now s).
Proof.
  intros H. unfold onFinally.
  assert (H1 : Quiet (set_completedChecksRef (completedChecksRef s + 1) s))
    by (revert H; apply Quiet_ext; reflexivity).
  clear H. revert H1.
  generalize (set_completedChecksRef (completedChecksRef s + 1) s). intros s1 H1.
  match goal with |- context [Z.eqb ?a ?b] => generalize (Z.eqb a b) end.
  intros [|]; [|exact H1].
  assert (H2 : pendingCellUpdatesRef
                 (set_isLoading false (flushPendingCellUpdates (stopFlushInterval s1))) = []).
  { destruct (flush_frame (stopFlushInterval s1)) as (_ & _ & _ & _ & _ & _ & _ & _ & F9).
    exact F9. }
  clear H1. revert H2.
  generalize (set_isLoading false (flushPendingCellUpdates (stopFlushInterval s1))).
  intros s2 H2.
  destruct (startTimeRef s2) as [start|]; [destruct (start =? 0)%Z|]; intros _; exact H2.
Qed.

Lemma domainsToProcess_elem bs ts b t :
  b ∈ bs -> t ∈ ts -> mkItem b t (b +:+ "." +:+ t) ∈ domainsToProcess bs ts.
Proof.
  intros Hb Ht. unfold domainsToProcess. apply list_elem_of_In, in_flat_map.
  exists b. split; [apply list_elem_of_In; exact Hb|].
  apply in_map_iff. exists t. split; [reflexivity | apply list_elem_of_In; exact Ht].
Qed.

Lemma Covered_started now ids s s' : started now ids s s' -> Covered s'.
Proof.
  unfold started. cbv zeta. intros (_ & _ & Eg & _ & _ & Ek & _).
  intros _ r c Hr Hc _. right. rewrite Eg in Hr.
  apply initialGridResults_rows in Hr as (Hb & _ & H). destruct (H c Hc) as [_ Ht].
  pose proof (domainsToProcess_elem _ _ _ _ Hb Ht) as Hi.
  apply list_elem_of_lookup in Hi as (j & Hj).
  exists (length (tasks s) + j)%nat, (mkTask (mkItem (rowName r) (c_tld c)
                                                 (rowName r +:+ "." +:+ c_tld c)) AwaitingCheck).
  rewrite Ek. split; [|repeat split].
  rewrite lookup_app_r by lia.
  replace (length (tasks s) + j - length (tasks s))%nat with j by lia.
  change (map (fun it => mkTask it AwaitingCheck) (domainsToProcess (parseBaseNames (baseNamesInput s)) (parseTlds (tldsInput s))))
    with ((fun it => mkTask it AwaitingCheck) <$> domainsToProcess (parseBaseNames (baseNamesInput s)) (parseTlds (tldsInput s))).
  rewrite list_lookup_fmap, Hj. reflexivity.
Qed.

Lemma unfinished_positive l i t :
  l !! i = Some t -> phase t <> Finished -> (1 <= unfinished l)%Z.
Proof.
  revert i. induction l as [|x l IH]; intros i Hi Hp; [discriminate|].
  destruct i as [|i]; simpl in *.
  - injection Hi as ->. rewrite bool_decide_eq_false_2 by exact Hp.
    pose proof (unfinished_nonneg l). lia.
  - specialize (IH i Hi Hp). destruct (bool_decide _); lia.
Qed.

Lemma RunInv_step s e :
  GridInv s -> RunInv s -> enabled s e = true -> e <> ClickClear -> RunInv (step s e).
Proof.
  intros Hg [Hb Hc Hq] He Hne.
  constructor; [apply Balanced_step; assumption| |];
    unfold enabled in He; apply andb_true_iff in He as [Hrun He];
    apply bool_decide_eq_true in Hrun.
  - destruct e; try contradiction.
    + revert Hc. apply Covered_ext; reflexivity.
    + revert Hc. apply Covered_ext; reflexivity.
    + change (step s (ClickCheck now ids)) with (handleSubmit now ids s).
      destruct (handleSubmit_cases now ids s) as [(R & _)|(S & _)].
      * destruct R as (_ & E & _). intros _ r c Hr. rewrite E in Hr. inversion Hr.
      * eapply Covered_started; exact S.
    + revert Hc. apply Covered_ext; reflexivity.
    + apply Covered_flush; [exact Hg | exact Hc].
    + simpl in He. apply bool_decide_eq_true in He. unfold taskPhase in He.
      destruct (tasks s !! i) as [t|] eqn:Et; [|discriminate]. simpl in He. injection He as Hp.
      simpl. rewrite Et.
      pose proof (setPhase_tasks i AwaitingFinally (push (settledUpdate (item t) net) s) t Et) as Hk.
      destruct (setPhase_frame i AwaitingFinally (push (settledUpdate (item t) net) s))
        as (_ & _ & Hpd & _).
      destruct (setPhase_view i AwaitingFinally (push (settledUpdate (item t) net) s))
        as (Hgr & _).
      destruct (settledUpdate_keys (item t) net) as [T1 T2].
      intros _ r c Hr Hcell Hs. rewrite Hgr in Hr.
      change (gridResults (push (settledUpdate (item t) net) s)) with (gridResults s) in Hr.
      unfold buffered, awaited. rewrite Hpd, Hk.
      change (pendingCellUpdatesRef (push (settledUpdate (item t) net) s))
        with (pendingCellUpdatesRef s ++ [settledUpdate (item t) net]).
      change (tasks (push (settledUpdate (item t) net) s)) with (tasks s).
      destruct (Hc Hrun r c Hr Hcell Hs) as [(u & Hu & H1 & H2)|(j & task & Hj & Hph & H1 & H2)].
      * left. exists u. split; [apply elem_of_app; left; exact Hu | auto].
      * destruct (decide (j = i)) as [->|Hji].
        -- rewrite Et in Hj. injection Hj as <-. left.
           exists (settledUpdate (item t) net).
           split; [apply elem_of_app; right; left | split; congruence].
        -- right. exists j, task. rewrite list_lookup_insert_ne by congruence. auto.
    + simpl in He. apply bool_decide_eq_true in He. unfold taskPhase in He.
      destruct (tasks s !! i) as [t|] eqn:Et; [|discriminate]. simpl in He. injection He as Hp.
      change (step s (CheckFinally i now)) with (setPhase i Finished (onFinally now s)).
      pose proof (Covered_onFinally now s Hg Hc) as Hc'.
      destruct (onFinally_counters now s) as (_ & _ & C3 & _).
      assert (Et' : tasks (onFinally now s) !! i = Some t) by (rewrite C3; exact Et).
      pose proof (setPhase_tasks i Finished (onFinally now s) t Et') as Hk.
      destruct (setPhase_frame i Finished (onFinally now s)) as (_ & _ & Hpd & _).
      destruct (setPhase_view i Finished (onFinally now s)) as (Hgr & _).
      destruct (setPhase_host i Finished (onFinally now s)) as (_ & Hh & _).
      intros Hrun' r c Hr Hcell Hs. rewrite Hh in Hrun'.
      rewrite Hgr in Hr. unfold buffered, awaited. rewrite Hpd, Hk.
      destruct (Hc' Hrun' r c Hr Hcell Hs) as [Hbuf|(j & task & Hj & Hph & H1 & H2)];
        [left; exact Hbuf|].
      right. exists j, task. destruct (decide (j = i)) as [->|Hji].
      * rewrite Et' in Hj. injection Hj as <-. congruence.
      * rewrite list_lookup_insert_ne by congruence. auto.
  - destruct e; try contradiction.
    + revert Hq. apply Quiet_ext; reflexivity.
    + revert Hq. apply Quiet_ext; reflexivity.
    + change (step s (ClickCheck now ids)) with (handleSubmit now ids s).
      destruct (handleSubmit_cases now ids s) as [(R & _)|(S & _)].
      * destruct R as (_ & _ & _ & E & _). intros _. exact E.
      * destruct S as (_ & _ & _ & _ & E & _). intros _. exact E.
    + revert Hq. apply Quiet_ext; reflexivity.
    + change (step s (IntervalFires t)) with (flushPendingCellUpdates s).
      destruct (flush_frame s) as (_ & _ & _ & _ & _ & _ & _ & _ & F9). intros _. exact F9.
    + simpl in He. apply bool_decide_eq_true in He. unfold taskPhase in He.
      destruct (tasks s !! i) as [t|] eqn:Et; [|discriminate]. simpl in He. injection He as Hp.
      simpl. rewrite Et.
      destruct (setPhase_frame i AwaitingFinally (push (settledUpdate (item t) net) s))
        as (_ & _ & _ & Hl & _).
      unfold Quiet. rewrite Hl.
      change (isLoading (push (settledUpdate (item t) net) s)) with (isLoading s).
      intros Hload. exfalso. destruct Hb as [_ Hidle]. specialize (Hidle Hload).
      assert (Hph : phase t <> Finished) by (rewrite Hp; discriminate).
      pose proof (unfinished_positive _ _ _ Et Hph). lia.
    + change (step s (CheckFinally i now)) with (setPhase i Finished (onFinally now s)).
      destruct (setPhase_frame i Finished (onFinally now s)) as (_ & _ & Hpd & Hl & _).
      pose proof (Quiet_onFinally now s Hq) as Hq'. revert Hq'.
      apply Quiet_ext; assumption.
Qed.

Lemma uncleared_reachable s : reachableWithoutClear s -> reachable s.
Proof.
  induction 1 as [|s e _ IH He _]; [apply reachable_init | apply reachable_step; assumption].
Qed.

Lemma uncleared_RunInv s : reachableWithoutClear s -> RunInv s.
Proof.
  induction 1 as [|s e Hr IH He Hne].
  - constructor.
    + split; reflexivity.
    + intros _ r c Hr. inversion Hr.
    + intros _. reflexivity.
  - apply RunInv_step; try assumption. apply reachable_GridInv, uncleared_reachable, Hr.
Qed.

Lemma fooFinished_uncleared : reachableWithoutClear fooFinished.
Proof.
  unfold fooFinished, fooSettled, fooSubmitted.
  repeat (apply uncleared_step; [|reflexivity|discriminate]). apply uncleared_init.
Qed.

Lemma finished_cells_decided (s : AppState) (r : RowObj) (c : ProcessedTldResult) :
  reachableWithoutClear s -> isLoading s = false -> halted s = None ->
  r ∈ gridResults s -> c ∈ r_tldResults (row r) ->
  statusless c = true \/ exists st, c_status c = Known st /\ decided st.
Proof.
  intros Hr Hl Hh Hrow Hcell.
  destruct (uncleared_RunInv s Hr) as [[_ Hidle] Hc Hq].
  pose proof (reachable_GridInv s (uncleared_reachable s Hr)) as Hg.
  pose proof (grid_known s Hg r c Hrow Hcell) as Hk.
  unfold statusless, decided. destruct (c_status c) as [st| |u0] eqn:E; auto.
  right. exists st. split; [reflexivity|].
  destruct st; auto; [|contradiction].
  exfalso. destruct (Hc Hh r c Hrow Hcell E) as [(u & Hu & _)|(i & task & Hi & Hp & _)].
  - rewrite (Hq Hl) in Hu. inversion Hu.
  - assert (Hph : phase task <> Finished) by (rewrite Hp; discriminate).
    pose proof (unfinished_positive _ _ _ Hi Hph). specialize (Hidle Hl). lia.
Qed.

Lemma unfinished_zero l :
  unfinished l = 0%Z -> forall i t, l !! i = Some t -> phase t = Finished.
Proof.
  intros H i t Hi. destruct (decide (phase t = Finished)) as [E|N]; [exact E|].
  pose proof (unfinished_positive l i t Hi N). lia.
Qed.

(** X13. In a state reached without the clear button, once the loading flag
    is off the buffer is empty and every promise chain has run its
    [finally] handler; and unless an updater has thrown, no cell of the
    grid is left on Checking: each shows Available, Taken or Invalid, or
    has lost its status to a flush that read an inherited property. *)
Theorem finished_run_leaves_no_cell_checking (s : AppState) :
  reachableWithoutClear s -> isLoading s = false ->
  pendingCellUpdatesRef s = []
  /\ (forall i t, tasks s !! i = Some t -> phase t = Finished)
  /\ (halted s = None ->
      forall r c, r ∈ gridResults s -> c ∈ r_tldResults (row r) ->
        c_status c <> CHECKING
        /\ (statusless c = true \/ exists st, c_status c = Known st /\ decided st)).
Proof.
  intros Hr Hl. destruct (uncleared_RunInv s Hr) as [[_ Hidle] _ Hq].
  split; [exact (Hq Hl)|]. split; [apply unfinished_zero, Hidle, Hl|].
  intros Hh r c Hrow Hcell.
  destruct (finished_cells_decided s r c Hr Hl Hh Hrow Hcell) as [H|(st & E & Hd)].
  - split; [apply statusless_not_known, H | left; exact H].
  - split; [|right; exists st; auto]. rewrite E.
    destruct Hd as [-> | [-> | ->]]; discriminate.
Qed.

Lemma finished_run_leaves_no_cell_checking_witness :
  pendingCellUpdatesRef fooFinished = []
  /\ (forall i t, tasks fooFinished !! i = Some t -> phase t = Finished)
  /\ (halted fooFinished = None ->
      forall r c, r ∈ gridResults fooFinished -> c ∈ r_tldResults (row r) ->
        c_status c <> CHECKING
        /\ (statusless c = true \/ exists st, c_status c = Known st /\ decided st)).
Proof.
  apply (finished_run_leaves_no_cell_checking fooFinished);
    [exact fooFinished_uncleared | reflexivity].
Defined.

(** X14. In a state reached without the clear button, [totalChecks] is
    [completedChecks] plus the number of promise chains whose [finally]
    handler has not run; so [completedChecks] lies between 0 and
    [totalChecks], and equals it once loading is off. *)
Theorem counters_account_for_every_check (s : AppState) :
  reachableWithoutClear s ->
  (completedChecksRef s + unfinished (tasks s) = totalChecksRef s)%Z
  /\ (0 <= completedChecksRef s <= totalChecksRef s)%Z
  /\ (isLoading s = false -> completedChecksRef s = totalChecksRef s).
Proof.
  intros Hr. destruct (uncleared_RunInv s Hr) as [[Hsum Hidle] _ _].
  destruct (reachable_Inv s (uncleared_reachable s Hr)) as [Hc _ _].
  pose proof (unfinished_nonneg (tasks s)).
  split; [exact Hsum|]. split; [lia|]. intros Hl. specialize (Hidle Hl). lia.
Qed.

Lemma counters_account_for_every_check_witness :
  (completedChecksRef fooFinished + unfinished (tasks fooFinished) = totalChecksRef fooFinished)%Z
  /\ (0 <= completedChecksRef fooFinished <= totalChecksRef fooFinished)%Z
  /\ (isLoading fooFinished = false -> completedChecksRef fooFinished = totalChecksRef fooFinished).
Proof. exact (counters_account_for_every_check fooFinished fooFinished_uncleared). Defined.

(** ** The filters *)

Lemma filter_sublist {A} (p : A -> bool) l : sublist (List.filter p l) l.
Proof.
  induction l as [|x l IH]; simpl; [constructor|].
  destruct (p x); [apply sublist_skip | apply sublist_cons]; exact IH.
Qed.

Lemma filter_elem {A} (p : A -> bool) l x : x ∈ List.filter p l <-> x ∈ l /\ p x = true.
Proof. rewrite !list_elem_of_In. apply filter_In. Qed.

Lemma someCell_spec st r :
  someCell st r = true <-> exists c, c ∈ r_tldResults (row r) /\ c_status c = st.
Proof.
  unfold someCell. rewrite existsb_exists. split; intros (c & Hc & H); exists c.
  - apply bool_decide_eq_true in H. split; [apply list_elem_of_In; exact Hc | exact H].
  - split; [apply list_elem_of_In; exact Hc | apply bool_decide_eq_true; exact H].
Qed.

Lemma noCell_spec st r :
  negb (someCell st r) = true <-> forall c, c ∈ r_tldResults (row r) -> c_status c <> st.
Proof.
  rewrite negb_true_iff, <- not_true_iff_false, someCell_spec. split.
  - intros H c Hc E. apply H. eauto.
  - intros H (c & Hc & E). exact (H c Hc E).
Qed.

Lemma truthy_spec s : Js.truthy s = true <-> s <> "".
Proof.
  unfold Js.truthy. rewrite negb_true_iff. destruct (String.eqb_spec s ""); split; congruence.
Qed.

(** X15. [filteredResults] keeps the rows of the grid in their order and
    keeps a row exactly when it passes every active filter: the base name
    contains the query (letter case ignored), some cell is Available, no
    cell is Taken, no cell is Invalid, and the name starts with a
    consonant and, when longer than one character, holds a vowel. *)
Theorem filteredResults_spec (grid : list RowObj) (f : FilterOptions) :
  sublist (filteredResults grid f) grid
  /\ forall r, r ∈ filteredResults grid f <-> r ∈ grid /\ passesFilters f r.
Proof.
  unfold filteredResults, passesFilters. cbv zeta.
  destruct f as [q a t i b]. simpl.
  split.
  - repeat match goal with
           | |- sublist (if ?c then _ else _) _ => destruct c
           | |- sublist (List.filter _ ?l) _ =>
               etransitivity; [apply filter_sublist|]
           end; reflexivity.
  - intros r.
    assert (Hq : forall l, r ∈ (if Js.truthy q
                                then List.filter (fun r => Js.includes (Js.toLowerCase (r_baseName (row r)))
                                                                       (Js.toLowerCase q)) l
                                else l)
                 <-> r ∈ l /\ (q <> "" -> Js.includes (Js.toLowerCase (rowName r)) (Js.toLowerCase q) = true)).
    { intros l. destruct (Js.truthy q) eqn:E.
      - apply truthy_spec in E. rewrite filter_elem. unfold rowName. tauto.
      - apply not_true_iff_false in E. rewrite truthy_spec in E. tauto. }
    assert (Ha : forall l, r ∈ (if a then List.filter (someCell AVAILABLE) l else l)
                 <-> r ∈ l /\ (a = true -> exists c, c ∈ r_tldResults (row r) /\ c_status c = AVAILABLE)).
    { intros l. destruct a; [rewrite filter_elem, someCell_spec; tauto|].
      split; [intros H; split; [exact H | discriminate] | tauto]. }
    assert (Ht : forall l, r ∈ (if t then List.filter (fun r => negb (someCell TAKEN r)) l else l)
                 <-> r ∈ l /\ (t = true -> forall c, c ∈ r_tldResults (row r) -> c_status c <> TAKEN)).
    { intros l. destruct t; [rewrite filter_elem, noCell_spec; tauto|].
      split; [intros H; split; [exact H | discriminate] | tauto]. }
    assert (Hi : forall l, r ∈ (if i then List.filter (fun r => negb (someCell INVALID r)) l else l)
                 <-> r ∈ l /\ (i = true -> forall c, c ∈ r_tldResults (row r) -> c_status c <> INVALID)).
    { intros l. destruct i; [rewrite filter_elem, noCell_spec; tauto|].
      split; [intros H; split; [exact H | discriminate] | tauto]. }
    destruct b.
    + rewrite filter_elem, Hi, Ht, Ha, Hq, andb_true_iff. unfold rowName.
      destruct (Nat.ltb_spec 1 (String.length (r_baseName (row r)))) as [Hl|Hl].
      * intuition.
      * intuition lia.
    + rewrite Hi, Ht, Ha, Hq. intuition discriminate.
Qed.

(** X16. When no filter is active (as after [handleClearFilters]),
    [filteredResults] is the whole grid, in its own order. *)
Theorem inactive_filters_show_the_grid (grid : list RowObj) (f : FilterOptions) :
  isAnyFilterActive f = false -> filteredResults grid f = grid.
Proof.
  unfold isAnyFilterActive, filteredResults. cbv zeta. intros H.
  repeat (apply orb_false_iff in H as [H ?]). apply negb_false_iff in H.
  apply String.eqb_eq in H.
  destruct f as [q a t i b]. simpl in *. subst. reflexivity.
Qed.

Lemma inactive_filters_show_the_grid_witness :
  filteredResults (gridResults fooSubmitted) (fst (handleClearFilters fooSubmitted))
  = gridResults fooSubmitted.
Proof. apply (inactive_filters_show_the_grid (gridResults fooSubmitted)). reflexivity. Defined.

(** ** Submissions *)

(** X17. [handleSubmit] ends in one of two ways. When input validation
    passes and the combinations number at most 50,000 it starts a run:
    loading on, no error, one row per base name with one Checking cell
    per TLD, one promise chain per combination, their requests on the
    wire, the counters at 0 of the number of combinations, the start time
    recorded and the flush timer armed. Otherwise it rejects: an error
    message, an empty grid and header, an empty buffer, counters at 0, no
    start time, and nothing launched. *)
Theorem handleSubmit_rejects_or_starts (now : Z) (ids : nat -> string) (s : AppState) :
  let uniqueBaseNames := parseBaseNames (baseNamesInput s) in
  let uniqueTlds := parseTlds (tldsInput s) in
  let combinations := Z.of_nat (length uniqueBaseNames * length uniqueTlds) in
  (validateInputs uniqueBaseNames uniqueTlds = None /\ (combinations <= 50000)%Z
   /\ started now ids s (handleSubmit now ids s))
  \/ ((validateInputs uniqueBaseNames uniqueTlds <> None \/ (50000 < combinations)%Z)
      /\ rejected s (handleSubmit now ids s)).
Proof.
  intros bs ts n. destruct (handleSubmit_cases now ids s) as [(R & H & _)|(S & Hv & Hn)].
  - right. split; assumption.
  - left. split; [exact Hv | split; [exact Hn | exact S]].
Qed.

Lemma validateInputs_messages bs ts :
  validateInputs bs ts <> Some "No valid domain combinations to check.".
Proof.
  unfold validateInputs.
  repeat match goal with
         | |- (if ?b then _ else _) <> _ => destruct b
         | |- (let _ := _ in _) <> _ => cbv zeta
         end; intros [= E].
Qed.

(** X18. The message [handleSubmit] leaves is the one of input validation
    (none when validation passes) or the one about 50,000 combinations.
    The branch for zero combinations is never taken: "No valid domain
    combinations to check." is not shown. *)
Theorem handleSubmit_error_messages (now : Z) (ids : nat -> string) (s : AppState) :
  let uniqueBaseNames := parseBaseNames (baseNamesInput s) in
  let uniqueTlds := parseTlds (tldsInput s) in
  (errorMessage (handleSubmit now ids s) = validateInputs uniqueBaseNames uniqueTlds
   \/ errorMessage (handleSubmit now ids s)
      = Some "Generated more than 50,000 domain combinations. Please reduce base names or TLDs.")
  /\ errorMessage (handleSubmit now ids s) <> Some "No valid domain combinations to check.".
Proof.
  intros bs ts.
  assert (H : errorMessage (handleSubmit now ids s) = validateInputs bs ts
              \/ errorMessage (handleSubmit now ids s)
                 = Some "Generated more than 50,000 domain combinations. Please reduce base names or TLDs.").
  { destruct (handleSubmit_cases now ids s) as [(_ & _ & H)|(S & Hv & _)]; [exact H|].
    left. destruct S as (E & _). fold bs ts in Hv. rewrite E, Hv. reflexivity. }
  split; [exact H|]. destruct H as [E|E]; rewrite E.
  - apply validateInputs_messages.
  - discriminate.
Qed.

Lemma checkDomain_request_count d :
  length (requests (checkDomain d))
  = if valid (isValidDomainFormat d) then 4%nat else 0%nat.
Proof. unfold checkDomain. destruct (valid (isValidDomainFormat d)); reflexivity. Qed.

(** X19. A submission that passes validation with at most 50,000
    combinations and TLDs without dots launches one promise chain per
    combination and has put four requests per combination on the wire
    when [handleSubmit] returns: nothing is queued or throttled. *)
Theorem started_run_puts_every_request_on_the_wire (now : Z) (ids : nat -> string)
    (s : AppState) :
  let uniqueBaseNames := parseBaseNames (baseNamesInput s) in
  let uniqueTlds := parseTlds (tldsInput s) in
  validateInputs uniqueBaseNames uniqueTlds = None ->
  (Z.of_nat (length uniqueBaseNames * length uniqueTlds) <= 50000)%Z ->
  (forall t, t ∈ uniqueTlds -> Js.includes t "." = false) ->
  length (wire (handleSubmit now ids s))
  = (length (wire s) + 4 * (length uniqueBaseNames * length uniqueTlds))%nat
  /\ length (tasks (handleSubmit now ids s))
     = (length (tasks s) + length uniqueBaseNames * length uniqueTlds)%nat.
Proof.
  intros bs ts Hv Hn Hplain.
  destruct (handleSubmit_cases now ids s) as [(_ & [H|H] & _)|(S & _)];
    [fold bs ts in H; contradiction | fold bs ts in H; lia |].
  unfold started in S. cbv zeta in S. fold bs ts in S.
  destruct S as (_ & _ & _ & _ & _ & Ek & Ew & _).
  apply validateInputs_None in Hv as (_ & _ & Hb & Ht).
  rewrite Ek, Ew, !length_app, length_map, domainsToProcess_length. split; [|reflexivity].
  f_equal. rewrite length_flat_map.
  assert (H4 : forall l, (forall it, it ∈ l -> length (requests (checkDomain (d_fullDomain it))) = 4%nat) ->
                list_sum (map (fun it => length (requests (checkDomain (d_fullDomain it)))) l)
                = (4 * length l)%nat).
  { induction l as [|it l IH]; intros H; simpl; [reflexivity|].
    rewrite (H it (list_elem_of_here _ _)), IH; [lia|].
    intros x Hx. apply H. right. exact Hx. }
  rewrite H4, domainsToProcess_length; [reflexivity|].
  intros it Hit. unfold domainsToProcess in Hit.
  apply list_elem_of_In, in_flat_map in Hit as (b & Hbin & Hit).
  apply in_map_iff in Hit as (t & <- & Htin). simpl.
  apply list_elem_of_In in Hbin, Htin.
  rewrite checkDomain_request_count.
  assert (Hvalid : valid (isValidDomainFormat (b +:+ "." +:+ t)) = true).
  { pose proof (Hb b Hbin) as Vb. pose proof (Ht t Htin) as Vt.
    rewrite valid_iff_passes, (normalized_pair b t Vb Vt).
    apply (passes_pair _ _ (isValidBaseName_lower _ Vb) (isValidTld_lower _ Vt)).
    rewrite split_lower, existsb_hyphenEdge_lower.
    rewrite (lastLabel_lower _ (split_nonempty "." t)), toLowerCase_length.
    assert (Hs : Js.split "." t = [t]).
    { apply split_no_sep. intros H. apply includes_char in H. rewrite (Hplain t Htin) in H.
      discriminate H. }
    rewrite Hs. apply isValidTld_spec in Vt as (T1 & _ & T3 & T4 & _).
    split; [|unfold lastLabel; simpl; lia].
    simpl. rewrite orb_false_r. unfold hyphenEdge. apply orb_false_iff.
    split; apply not_true_iff_false; intros H.
    - apply startsWith_char in H. specialize (T3 _ H). discriminate T3.
    - apply endsWith_char in H. specialize (T4 _ H). discriminate T4. }
  rewrite Hvalid. reflexivity.
Qed.

Lemma started_run_puts_every_request_on_the_wire_witness :
  let s := step (step initialState (ChangeBaseNames "foo")) (ChangeTlds "com") in
  length (wire (handleSubmit 1000 someIds s)) = (length (wire s) + 4 * (1 * 1))%nat
  /\ length (tasks (handleSubmit 1000 someIds s)) = (length (tasks s) + 1 * 1)%nat.
Proof.
  apply (started_run_puts_every_request_on_the_wire 1000 someIds
           (step (step initialState (ChangeBaseNames "foo")) (ChangeTlds "com"))).
  - reflexivity.
  - vm_compute. discriminate.
  - intros t Ht. vm_compute in Ht. apply list_elem_of_singleton in Ht as ->. reflexivity.
Defined.

(** ** The grid as the table reads it *)

(** X20. In every reachable state the rows of the grid have pairwise
    different, valid base names, the TLDs of the header are pairwise
    different, and every row holds exactly the TLDs of the header, in the
    order of the header. *)
Theorem reachable_grid_is_a_rectangle (s : AppState) :
  reachable s ->
  NoDup (map rowName (gridResults s))
  /\ NoDup (parsedTldsForTable s)
  /\ (forall r, r ∈ gridResults s -> rowTlds r = parsedTldsForTable s)
  /\ (forall r, r ∈ gridResults s -> isValidBaseName (rowName r) = true).
Proof.
  intros Hr. pose proof (reachable_GridInv s Hr) as G.
  split; [exact (grid_names s G)|]. split; [exact (grid_tlds s G)|].
  split; [exact (grid_rect s G)|]. intros r H. apply (grid_valid s G r H).
Qed.

Lemma reachable_grid_is_a_rectangle_witness :
  NoDup (map rowName (gridResults fooSubmitted))
  /\ NoDup (parsedTldsForTable fooSubmitted)
  /\ (forall r, r ∈ gridResults fooSubmitted -> rowTlds r = parsedTldsForTable fooSubmitted)
  /\ (forall r, r ∈ gridResults fooSubmitted -> isValidBaseName (rowName r) = true).
Proof. exact (reachable_grid_is_a_rectangle fooSubmitted fooSubmitted_reachable). Defined.

Lemma findCell_present k r :
  k ∈ rowTlds r ->
  exists cell, findCell k r = Some cell /\ cell ∈ r_tldResults (row r) /\ c_tld cell = k.
Proof.
  unfold rowTlds, findCell. intros Hk.
  apply list_elem_of_In, in_map_iff in Hk as (c & Hc & Hin).
  destruct (List.find (fun c => String.eqb (c_tld c) k) (r_tldResults (row r))) as [cell|] eqn:E.
  - apply find_some in E as [E1 E2]. apply String.eqb_eq in E2.
    exists cell. split; [reflexivity|]. split; [apply list_elem_of_In; exact E1 | exact E2].
  - pose proof (find_none _ _ E c Hin) as H. simpl in H. rewrite Hc, String.eqb_refl in H.
    discriminate H.
Qed.

(** X21. In every reachable state the lookup
    [tldResults.find(r => r.tld === key)] succeeds for every row and every
    TLD of the header: the table never shows its placeholder for a
    missing cell, and the comparator of a TLD column never ranks a row by
    [Infinity]: it ranks it by the status the cell holds, by
    [statusOrder] when that is a [DomainStatus]. *)
Theorem every_header_finds_its_cell (s : AppState) (r : RowObj) (k : string) :
  reachable s -> r ∈ gridResults s -> k ∈ parsedTldsForTable s ->
  exists cell,
    findCell k r = Some cell /\ cell ∈ r_tldResults (row r) /\ c_tld cell = k
    /\ rank k r = statusRank (c_status cell)
    /\ rank k r <> PosInfinity
    /\ forall st : DomainStatus, c_status cell = st -> rank k r = Finite (statusOrder st).
Proof.
  intros Hr Hrow Hk. pose proof (grid_rect s (reachable_GridInv s Hr)) as H3.
  rewrite <- (H3 r Hrow) in Hk. destruct (findCell_present k r Hk) as (cell & E & Hin & Ht).
  exists cell. unfold rank. rewrite E. repeat split; try assumption.
  - destruct (c_status cell); discriminate.
  - intros st ->. reflexivity.
Qed.

Lemma every_header_finds_its_cell_witness :
  exists cell,
    findCell "com" fooRow = Some cell /\ cell ∈ r_tldResults (row fooRow) /\ c_tld cell = "com"
    /\ rank "com" fooRow = statusRank (c_status cell)
    /\ rank "com" fooRow <> PosInfinity
    /\ forall st : DomainStatus, c_status cell = st -> rank "com" fooRow = Finite (statusOrder st).
Proof.
  apply (every_header_finds_its_cell fooSubmitted fooRow "com" fooSubmitted_reachable).
  - vm_compute. left.
  - vm_compute. left.
Defined.

(** X22. In every reachable state no TLD of the header equals the sort key
    "baseName" (parsed TLDs are lower-case), so a TLD column is never
    sorted as the base-name column. *)
Theorem baseName_key_is_no_tld (s : AppState) :
  reachable s -> "baseName" ∉ parsedTldsForTable s.
Proof.
  intros Hr H. pose proof (grid_lower s (reachable_GridInv s Hr) _ H) as H8.
  discriminate H8.
Qed.

Lemma baseName_key_is_no_tld_witness :
  bool_decide ("baseName" ∈ parsedTldsForTable fooSubmitted) = false.
Proof.
  apply bool_decide_eq_false_2.
  exact (baseName_key_is_no_tld fooSubmitted fooSubmitted_reachable).
Defined.

(** ** The summary counters *)

Lemma countCell_counted n c :
  c_status c <> IDLE ->
  (counted (countCell n c) + (if statusless c then 1 else 0) = counted n + 1)%Z.
Proof.
  unfold countCell, counted, statusless. destruct (c_status c) as [[]| |]; simpl; intros H;
    try lia. contradiction.
Qed.

Lemma countCell_checking n c :
  c_status c <> CHECKING -> checkingStill (countCell n c) = checkingStill n.
Proof.
  unfold countCell. destruct (c_status c) as [[]| |]; simpl; intros H;
    try reflexivity. contradiction.
Qed.

Lemma count_cells cells : forall n,
  (forall c, c ∈ cells -> c_status c <> IDLE) ->
  (counted (fold_left countCell cells n) + Z.of_nat (length (List.filter statusless cells))
   = counted n + Z.of_nat (length cells))%Z.
Proof.
  induction cells as [|c cells IH]; intros n H; simpl fold_left; simpl length; [simpl; lia|].
  specialize (IH (countCell n c) (fun x Hx => H x (list_elem_of_further _ _ _ Hx))).
  pose proof (countCell_counted n c (H c (list_elem_of_here _ _))) as Hc.
  simpl List.filter. destruct (statusless c); simpl length; lia.
Qed.

Lemma count_cells_checking cells : forall n,
  (forall c, c ∈ cells -> c_status c <> CHECKING) ->
  checkingStill (fold_left countCell cells n) = checkingStill n.
Proof.
  induction cells as [|c cells IH]; intros n H; simpl; [reflexivity|].
  rewrite IH by (intros x Hx; apply H; right; exact Hx).
  apply countCell_checking, H. left.
Qed.

Lemma count_rows grid : forall n,
  (forall r c, r ∈ grid -> c ∈ r_tldResults (row r) -> c_status c <> IDLE) ->
  (counted (fold_left (fun n r => fold_left countCell (r_tldResults (row r)) n) grid n)
   + Z.of_nat (statuslessCount grid)
   = counted n + Z.of_nat (cellCount grid))%Z.
Proof.
  unfold cellCount, statuslessCount.
  induction grid as [|r grid IH]; intros n H; simpl; [lia|].
  specialize (IH (fold_left countCell (r_tldResults (row r)) n)
                 (fun x c Hx => H x c (list_elem_of_further _ _ _ Hx))).
  pose proof (count_cells (r_tldResults (row r)) n
                (fun c Hc => H r c (list_elem_of_here _ _) Hc)) as Hc.
  lia.
Qed.

Lemma count_rows_checking grid : forall n,
  (forall r c, r ∈ grid -> c ∈ r_tldResults (row r) -> c_status c <> CHECKING) ->
  checkingStill (fold_left (fun n r => fold_left countCell (r_tldResults (row r)) n) grid n)
  = checkingStill n.
Proof.
  induction grid as [|r grid IH]; intros n H; simpl; [reflexivity|].
  rewrite IH by (intros x c Hx; apply H; right; exact Hx).
  apply count_cells_checking. intros c Hc. eapply H; [left | exact Hc].
Qed.

Lemma cellCount_rect grid tlds :
  (forall r, r ∈ grid -> rowTlds r = tlds) -> cellCount grid = (length grid * length tlds)%nat.
Proof.
  unfold cellCount. induction grid as [|r grid IH]; intros H; simpl; [reflexivity|].
  rewrite IH by (intros x Hx; apply H; right; exact Hx).
  rewrite <- (H r (list_elem_of_here _ _)). unfold rowTlds. rewrite length_map. reflexivity.
Qed.

Lemma reachable_total s :
  reachable s ->
  currentTotalChecks s = Z.of_nat (cellCount (gridResults s)).
Proof.
  intros Hr. pose proof (reachable_GridInv s Hr) as G.
  rewrite (cellCount_rect _ _ (grid_rect s G)). unfold currentTotalChecks.
  rewrite (grid_total s G).
  destruct (Z.ltb_spec 0 (Z.of_nat (length (gridResults s) * length (parsedTldsForTable s))));
    [reflexivity | f_equal; lia].
Qed.

(** X23. In every reachable state the four counters of the summary
    (Available, Taken, Invalid, still Checking), together with the
    number of cells a flush has left without a status, which the summary
    counts nowhere, add up to the total the summary displays. *)
Theorem summary_counts_add_up (s : AppState) :
  reachable s ->
  let n := countStatuses (gridResults s) in
  (availableCount n + takenCount n + invalidCount n + checkingStill n
   + Z.of_nat (statuslessCount (gridResults s)))%Z
  = currentTotalChecks s.
Proof.
  intros Hr n. rewrite (reachable_total s Hr). unfold n, countStatuses.
  pose proof (count_rows (gridResults s) (mkCounts 0 0 0 0)
                (grid_known s (reachable_GridInv s Hr))) as H.
  unfold counted in H. simpl in H. exact H.
Qed.

Lemma summary_counts_add_up_witness :
  let n := countStatuses (gridResults fooSubmitted) in
  (availableCount n + takenCount n + invalidCount n + checkingStill n
   + Z.of_nat (statuslessCount (gridResults fooSubmitted)))%Z
  = currentTotalChecks fooSubmitted.
Proof. exact (summary_counts_add_up fooSubmitted fooSubmitted_reachable). Defined.

(** X24. In a state reached without the clear button, once the loading flag
    is off and unless an updater has thrown, the summary counts no
    pending cell, and its Available, Taken and Invalid counts, together
    with the number of cells a flush has left without a status, add up
    to the total it displays. *)
Theorem finished_run_summary (s : AppState) :
  reachableWithoutClear s -> isLoading s = false -> halted s = None ->
  let n := countStatuses (gridResults s) in
  checkingStill n = 0%Z
  /\ (availableCount n + takenCount n + invalidCount n
      + Z.of_nat (statuslessCount (gridResults s)))%Z = currentTotalChecks s.
Proof.
  intros Hr Hl Hh n. pose proof (uncleared_reachable s Hr) as Hreach.
  assert (Hc : checkingStill n = 0%Z).
  { unfold n, countStatuses.
    rewrite count_rows_checking; [reflexivity|].
    intros r c Hrow Hcell.
    destruct (finished_cells_decided s r c Hr Hl Hh Hrow Hcell) as [H|(st & E & Hd)].
    - apply statusless_not_known, H.
    - rewrite E. destruct Hd as [-> | [-> | ->]]; discriminate. }
  split; [exact Hc|]. rewrite (reachable_total s Hreach).
  pose proof (count_rows (gridResults s) (mkCounts 0 0 0 0)
                (grid_known s (reachable_GridInv s Hreach))) as H.
  unfold counted in H. simpl in H. fold (countStatuses (gridResults s)) in H. fold n in H. lia.
Qed.

Lemma finished_run_summary_witness :
  let n := countStatuses (gridResults fooFinished) in
  checkingStill n = 0%Z
  /\ (availableCount n + takenCount n + invalidCount n
      + Z.of_nat (statuslessCount (gridResults fooFinished)))%Z = currentTotalChecks fooFinished.
Proof. exact (finished_run_summary fooFinished fooFinished_uncleared eq_refl eq_refl). Defined.

(** ** Sorting by base name *)

Lemma sorted_view_perm localeCompare rows cfg :
  Permutation (sortedAndFilteredResults localeCompare rows cfg) rows.
Proof.
  unfold sortedAndFilteredResults. destruct cfg as [c|]; [|reflexivity].
  destruct (direction c).
  - apply sort_perm.
  - rewrite <- Permutation_rev. apply sort_perm.
Qed.

(** X25. For a collation that is total and transitive, sorting by the
    base-name column yields the rows, each once, ordered by
    [localeCompare] on their base names; the descending view is the
    ascending one reversed. *)
Theorem sort_by_baseName (localeCompare : string -> string -> Z) (rows : list RowObj) :
  (forall a b, (0 < localeCompare a b)%Z -> (localeCompare b a <= 0)%Z) ->
  (forall a b c, (localeCompare a b <= 0)%Z -> (localeCompare b c <= 0)%Z ->
                 (localeCompare a c <= 0)%Z) ->
  let asc := sortedAndFilteredResults localeCompare rows
               (Some (mkSortConfig "baseName" ascending)) in
  let desc := sortedAndFilteredResults localeCompare rows
                (Some (mkSortConfig "baseName" descending)) in
  Permutation asc rows
  /\ StronglySorted (fun a b => (localeCompare (rowName a) (rowName b) <= 0)%Z) asc
  /\ desc = rev asc.
Proof.
  intros Htotal Htrans asc desc.
  split; [apply sorted_view_perm|]. split; [|reflexivity].
  unfold asc, sortedAndFilteredResults. simpl.
  apply sort_sorted.
  - intros a b H. unfold compareRows in H. simpl in H. apply Z.ltb_ge in H. exact H.
  - intros a b H. unfold compareRows in H. simpl in H. apply Z.ltb_lt in H.
    apply Htotal. exact H.
  - intros a b c. apply Htrans.
Qed.

Lemma compare_not_gt_trans a : forall b c,
  String.compare a b <> Gt -> String.compare b c <> Gt -> String.compare a c <> Gt.
Proof.
  induction a as [|x a IH]; intros [|y b] [|z c]; simpl; try congruence.
  unfold Ascii.compare.
  destruct (N.compare_spec (N_of_ascii x) (N_of_ascii y)) as [Exy|Lxy|Gxy];
    destruct (N.compare_spec (N_of_ascii y) (N_of_ascii z)) as [Eyz|Lyz|Gyz];
    destruct (N.compare_spec (N_of_ascii x) (N_of_ascii z)) as [Exz|Lxz|Gxz];
    try congruence; try lia; try (intros; discriminate).
  apply IH.
Qed.

Lemma byCodeUnits_le a b : (byCodeUnits a b <= 0)%Z <-> String.compare a b <> Gt.
Proof. unfold byCodeUnits. destruct (String.compare a b); split; intros; try lia; congruence. Qed.

Lemma sort_by_baseName_witness :
  sortedAndFilteredResults byCodeUnits [rowWithCom; rowWithoutCom]
    (Some (mkSortConfig "baseName" descending))
  = rev (sortedAndFilteredResults byCodeUnits [rowWithCom; rowWithoutCom]
           (Some (mkSortConfig "baseName" ascending))).
Proof.
  apply (sort_by_baseName byCodeUnits [rowWithCom; rowWithoutCom]).
  - intros a b H. apply byCodeUnits_le. rewrite String.compare_antisym.
    unfold byCodeUnits in H. destruct (String.compare a b); simpl; try lia; discriminate.
  - intros a b c. rewrite !byCodeUnits_le. apply compare_not_gt_trans.
Defined.

(** ** Sorting by a TLD column *)




(** ** The clipboard text *)

Lemma replaceDelimiters_fixed s : forall inRun,
  (forall c, c ∈ chars s -> c <> ","%char /\ c <> " "%char /\ c <> tab) ->
  replaceDelimiters inRun s = s.
Proof.
  induction s as [|d s IH]; intros inRun H; [reflexivity|]. simpl.
  destruct (H d (list_elem_of_here _ _)) as (H1 & H2 & H3).
  apply Ascii.eqb_neq in H1, H2, H3. rewrite H1, H2, H3. simpl.
  rewrite IH; [reflexivity|]. intros c Hc. apply H. right. exact Hc.
Qed.

Lemma concat_cons sep x y l :
  String.concat sep (x :: y :: l) = x +:+ sep +:+ String.concat sep (y :: l).
Proof. reflexivity. Qed.

Lemma split_join sep names :
  names <> [] -> (forall n, n ∈ names -> sep ∉ chars n) ->
  Js.split sep (Js.join (String sep "") names) = names.
Proof.
  unfold Js.join. induction names as [|x names IH]; intros Hne H; [contradiction|].
  destruct names as [|y names].
  - simpl. apply split_no_sep, H. left.
  - rewrite concat_cons.
    change (String sep "" +:+ String.concat (String sep "") (y :: names))
      with (String sep (String.concat (String sep "") (y :: names))).
    rewrite split_app_sep by (apply H; left).
    rewrite IH; [reflexivity | discriminate |]. intros n Hn. apply H. right. exact Hn.
Qed.

Lemma chars_join sep names c :
  c ∈ chars (Js.join (String sep "") names) -> c = sep \/ exists n, n ∈ names /\ c ∈ chars n.
Proof.
  unfold Js.join. induction names as [|x names IH]; intros H; [inversion H|].
  destruct names as [|y names].
  - right. exists x. split; [left | exact H].
  - rewrite concat_cons, !chars_app in H.
    apply elem_of_app in H as [H|H]; [right; exists x; split; [left | exact H]|].
    apply elem_of_app in H as [H|H].
    + left. unfold chars in H. simpl in H. apply list_elem_of_singleton in H. exact H.
    + destruct (IH H) as [E|(n & Hn & Hc)]; [left; exact E|].
      right. exists n. split; [right; exact Hn | exact Hc].
Qed.

Lemma map_fixed {A} (f : A -> A) l : (forall x, x ∈ l -> f x = x) -> map f l = l.
Proof.
  induction l as [|x l IH]; intros H; simpl; [reflexivity|].
  rewrite (H x (list_elem_of_here _ _)), IH; [reflexivity|].
  intros y Hy. apply H. right. exact Hy.
Qed.

Lemma filter_fixed {A} (p : A -> bool) l : (forall x, x ∈ l -> p x = true) -> List.filter p l = l.
Proof.
  induction l as [|x l IH]; intros H; simpl; [reflexivity|].
  rewrite (H x (list_elem_of_here _ _)), IH; [reflexivity|].
  intros y Hy. apply H. right. exact Hy.
Qed.

Lemma baseName_chars n c :
  isValidBaseName n = true -> c ∈ chars n ->
  c <> ","%char /\ c <> " "%char /\ c <> tab /\ c <> newline.
Proof.
  intros Hn Hc. apply isValidBaseName_spec in Hn as (_ & H & _).
  destruct (H c Hc) as [Ha| ->]; [|repeat split; discriminate].
  repeat split; intros ->; discriminate Ha.
Qed.

Lemma baseName_trimmed n : isValidBaseName n = true -> Js.trim n = n.
Proof.
  intros Hn. apply isValidBaseName_spec in Hn as (_ & _ & H3 & H4).
  apply trim_fixed; intros c Hc; apply alnum_not_whiteSpace; auto.
Qed.

(** Pasting copied base names back into the input parses to the same list. *)
Lemma parse_copied names :
  NoDup names ->
  (forall n, n ∈ names -> isValidBaseName n = true /\ Js.toLowerCase n = n) ->
  parseBaseNames (Js.join (String newline "") names) = names.
Proof.
  intros Hd Hv. unfold parseBaseNames.
  rewrite replaceDelimiters_fixed.
  2:{ intros c Hc. apply chars_join in Hc as [->|(n & Hn & Hc)]; [repeat split; discriminate|].
      destruct (baseName_chars n c (proj1 (Hv n Hn)) Hc) as (H1 & H2 & H3 & _). auto. }
  destruct names as [|x names]; [reflexivity|].
  rewrite split_join; [|discriminate|].
  2:{ intros n Hn Hc. destruct (baseName_chars n _ (proj1 (Hv n Hn)) Hc) as (_ & _ & _ & H).
      contradiction. }
  rewrite map_fixed.
  2:{ intros n Hn. destruct (Hv n Hn) as [H1 H2]. rewrite (baseName_trimmed n H1). exact H2. }
  rewrite filter_fixed.
  2:{ intros n Hn. destruct (Hv n Hn) as [H1 _]. apply isValidBaseName_spec in H1 as (H1 & _).
      destruct n; [simpl in H1; lia | reflexivity]. }
  apply unique_fixed, Hd.
Qed.

(** X26. In every reachable state, under any filter and sort order, the
    text that "Copy Filtered Base Names" puts on the clipboard parses back,
    as base-names input, to the base names of the rows shown, in the order
    shown. *)
Theorem copied_base_names_parse_back (localeCompare : string -> string -> Z)
    (filterOptions : FilterOptions) (s : AppState) :
  reachable s ->
  let shown := sortedAndFilteredResults localeCompare
                 (filteredResults (gridResults s) filterOptions) (sortConfig s) in
  parseBaseNames (baseNamesToCopy shown) = map rowName shown.
Proof.
  intros Hr shown. pose proof (grid_names s (reachable_GridInv s Hr)) as H2.
  pose proof (grid_valid s (reachable_GridInv s Hr)) as H4.
  pose proof (sorted_view_perm localeCompare (filteredResults (gridResults s) filterOptions)
                (sortConfig s)) as Hp. fold shown in Hp.
  assert (Hsub : sublist (filteredResults (gridResults s) filterOptions) (gridResults s)).
  { unfold filteredResults. cbv zeta.
    repeat match goal with
           | |- sublist (if ?c then _ else _) _ => destruct c
           | |- sublist (List.filter _ ?l) _ => etransitivity; [apply filter_sublist|]
           end; reflexivity. }
  unfold baseNamesToCopy. apply parse_copied.
  - change (map (fun r => r_baseName (row r)) shown) with (rowName <$> shown).
    rewrite Hp. eapply sublist_NoDup; [exact H2|].
    change (map rowName (gridResults s)) with (rowName <$> gridResults s).
    apply fmap_sublist, Hsub.
  - intros n Hn. apply list_elem_of_In, in_map_iff in Hn as (r & <- & Hin).
    apply list_elem_of_In in Hin. rewrite Hp in Hin. apply H4.
    eapply elem_of_sublist; eassumption.
Qed.

Lemma copied_base_names_parse_back_witness :
  let shown := sortedAndFilteredResults byCodeUnits
                 (filteredResults (gridResults fooFinished) noFilter) (sortConfig fooFinished) in
  parseBaseNames (baseNamesToCopy shown) = map rowName shown.
Proof.
  apply (copied_base_names_parse_back byCodeUnits noFilter fooFinished).
  apply uncleared_reachable, fooFinished_uncleared.
Defined.

(** ** The verdict a cell shows *)

Lemma validator_reason_not_error d :
  v_reason (isValidDomainFormat d) <> Some "Error during check".
Proof.
  unfold isValidDomainFormat. cbv zeta.
  repeat match goal with
         | |- context [if ?b then _ else _] => destruct b; simpl
         end; discriminate.
Qed.

Lemma settledUpdate_verdict it net :
  d_fullDomain it = d_baseName it +:+ "." +:+ d_tld it ->
  let u := settledUpdate it net in
  verdict (u_baseName u) (u_tld u) (u_status u) (u_reason u).
Proof.
  intros E. cbv zeta. destruct (settledUpdate_keys it net) as [-> ->].
  unfold settledUpdate, verdict. cbv zeta. rewrite <- E.
  destruct (Untyped_checkDomain_cases (d_fullDomain it) net)
    as [(Hv & ->)|(Hv & [(o & -> & Ho & Hr & Hn)|(e & p & t & response & body & -> & _)])];
    rewrite Hv; cbn [onFulfilled onRejected u_status u_reason o_status o_reason].
  - destruct (invalid_has_reason _ Hv) as (reason & ->). simpl. split; [eauto | auto].
  - split; [exact Hr|]. left. split; assumption.
  - split; [eauto|]. right. split; reflexivity.
Qed.

Lemma verdict_status b t st reason : verdict b t st reason -> decided st.
Proof.
  unfold verdict, decided. cbv zeta. intros [_ H].
  destruct (valid _); [destruct H as [[[H|H] _]|[H _]] | destruct H as [H _]]; auto.
Qed.

Lemma VerdictInv_ext s s' :
  tasks s' = tasks s -> pendingCellUpdatesRef s' = pendingCellUpdatesRef s ->
  objectProperties s' = objectProperties s ->
  gridResults s' = gridResults s -> VerdictInv s -> VerdictInv s'.
Proof.
  intros E1 E2 E3 E4 [H1 H2 H3 H4 H5]. constructor; rewrite ?E1, ?E2, ?E3, ?E4; assumption.
Qed.

Lemma VerdictInv_empty s s' :
  tasks s' = tasks s -> pendingCellUpdatesRef s' = [] ->
  objectProperties s' = objectProperties s -> gridResults s' = [] ->
  VerdictInv s -> VerdictInv s'.
Proof.
  intros E1 E2 E3 E4 [H1 _ H3 _ _]. constructor; rewrite ?E1, ?E2, ?E3, ?E4.
  - exact H1.
  - intros u Hu. inversion Hu.
  - exact H3.
  - intros r c st Hr. inversion Hr.
  - intros r c Hr. inversion Hr.
Qed.

Lemma VerdictInv_flush s : VerdictInv s -> VerdictInv (flushPendingCellUpdates s).
Proof.
  intros [H1 H2 H3 H4 H5].
  destruct (flush_frame s) as (_ & _ & _ & _ & _ & _ & _ & Et & Ep).
  constructor.
  - rewrite Et. exact H1.
  - rewrite Ep. intros u Hu. inversion Hu.
  - intros t v Hv. destruct (flush_object s t v Hv) as [H|(u & Hu & Eb & Etld & ->)].
    + exact (H3 _ _ H).
    + rewrite <- Eb, <- Etld. apply H2, Hu.
  - intros r' c' st Hr' Hc' Hst Hn.
    destruct (flush_cells s r' Hr') as (r & Hr & -> & _ & Hcells).
    destruct (Hcells c' Hc')
      as (c & Hcin & -> & _
          & [[-> _]|[[Hl _]|[(u & Hu & Eb & Etld & ->)|(v & Eb & Hv & _ & ->)]]]).
    + eapply H4; eassumption.
    + exfalso. revert Hst. apply statusless_not_known, Hl.
    + simpl in Hst. injection Hst as <-. exists (u_reason u). split; [reflexivity|].
      rewrite <- Eb, <- Etld. apply H2, Hu.
    + simpl in Hst. injection Hst as <-. exists (snd v). split; [reflexivity|].
      rewrite Eb. exact (H3 _ _ Hv).
  - intros r' c' Hr' Hc' Hst.
    destruct (flush_cells s r' Hr') as (r & Hr & _ & _ & Hcells).
    destruct (Hcells c' Hc')
      as (c & Hcin & _ & _
          & [[-> _]|[[_ Hl]|[(u & Hu & _ & _ & ->)|(v & _ & Hv & _ & ->)]]]).
    + eapply H5; eassumption.
    + exact Hl.
    + exfalso. destruct Hst as [Hst|Hst]; [|discriminate Hst].
      simpl in Hst. injection Hst as Hst.
      destruct (verdict_status _ _ _ _ (H2 u Hu)) as [H| [H|H]]; congruence.
    + exfalso. destruct Hst as [Hst|Hst]; [|discriminate Hst].
      simpl in Hst. injection Hst as Hst.
      destruct (verdict_status _ _ _ _ (H3 _ _ Hv)) as [H| [H|H]]; congruence.
Qed.

Lemma VerdictInv_stop s : VerdictInv s -> VerdictInv (stopFlushInterval s).
Proof.
  destruct (stop_frame_view s) as (E1 & _ & E3 & _).
  destruct (stop_frame_counters s) as (_ & _ & _ & E4).
  destruct (stop_host s) as (E5 & _).
  apply VerdictInv_ext; assumption.
Qed.

Lemma VerdictInv_onFinally now s : VerdictInv s -> VerdictInv (onFinally now s).
Proof.
  intros H. unfold onFinally.
  assert (H1 : VerdictInv (set_completedChecksRef (completedChecksRef s + 1) s))
    by (revert H; apply VerdictInv_ext; reflexivity).
  clear H. revert H1.
  generalize (set_completedChecksRef (completedChecksRef s + 1) s). intros s1 H1.
  match goal with |- context [Z.eqb ?a ?b] => generalize (Z.eqb a b) end.
  intros [|]; [|exact H1].
  assert (H2 : VerdictInv (set_isLoading false (flushPendingCellUpdates (stopFlushInterval s1)))).
  { pose proof (VerdictInv_flush _ (VerdictInv_stop _ H1)) as H2. revert H2.
    apply VerdictInv_ext; reflexivity. }
  clear H1. revert H2.
  generalize (set_isLoading false (flushPendingCellUpdates (stopFlushInterval s1))).
  intros s2 H2.
  destruct (startTimeRef s2) as [start|]; [|exact H2].
  destruct (start =? 0)%Z; [exact H2|]. revert H2. apply VerdictInv_ext; reflexivity.
Qed.

Lemma VerdictInv_setPhase i p s : VerdictInv s -> VerdictInv (setPhase i p s).
Proof.
  intros [H1 H2 H3 H4 H5]. unfold setPhase. destruct (tasks s !! i) as [t0|] eqn:E.
  - constructor; [|exact H2|exact H3|exact H4|exact H5].
    intros t Ht. change (t ∈ <[i := mkTask (item t0) p]> (tasks s)) in Ht.
    apply list_elem_of_lookup in Ht as (j & Hj).
    destruct (decide (i = j)) as [<-|Hne].
    + rewrite list_lookup_insert_eq in Hj by (eapply lookup_lt_Some; exact E).
      injection Hj as <-. simpl. apply H1. eapply list_elem_of_lookup_2. exact E.
    + rewrite list_lookup_insert_ne in Hj by exact Hne.
      apply H1. eapply list_elem_of_lookup_2. exact Hj.
  - constructor; assumption.
Qed.

Lemma VerdictInv_push u s :
  verdict (u_baseName u) (u_tld u) (u_status u) (u_reason u) ->
  VerdictInv s -> VerdictInv (push u s).
Proof.
  intros Hu [H1 H2 H3 H4 H5]. constructor; try assumption.
  intros v Hv. change (pendingCellUpdatesRef (push u s)) with (pendingCellUpdatesRef s ++ [u]) in Hv.
  apply elem_of_app in Hv as [Hv|Hv]; [apply H2, Hv|].
  apply list_elem_of_singleton in Hv as ->. exact Hu.
Qed.

Lemma VerdictInv_handleSubmit now ids s : VerdictInv s -> VerdictInv (handleSubmit now ids s).
Proof.
  intros H. destruct (handleSubmit_host now ids s) as (Eo & _).
  destruct (handleSubmit_cases now ids s) as [(R & _)|(S & _)].
  - destruct R as (_ & E1 & _ & E3 & E4 & _). revert H. apply VerdictInv_empty; assumption.
  - unfold started in S. cbv zeta in S. destruct S as (_ & _ & Eg & _ & Ep & Et & _).
    destruct H as [H1 _ H3 _ _]. constructor; rewrite ?Eg, ?Ep, ?Et, ?Eo.
    + intros t Ht. apply elem_of_app in Ht as [Ht|Ht]; [apply H1, Ht|].
      apply list_elem_of_In, in_map_iff in Ht as (it & <- & Hit). simpl.
      eapply domainsToProcess_inv. apply list_elem_of_In. exact Hit.
    + intros u Hu. inversion Hu.
    + exact H3.
    + intros r c st Hr Hc Hst Hn. exfalso. unfold initialGridResults in Hr.
      apply elem_of_lookup_imap in Hr as (i & b & -> & _). simpl in Hc.
      apply elem_of_lookup_imap in Hc as (j & t & -> & _). simpl in Hst.
      injection Hst as <-. contradiction.
    + intros r c Hr Hc _ text. unfold initialGridResults in Hr.
      apply elem_of_lookup_imap in Hr as (i & b & -> & _). simpl in Hc.
      apply elem_of_lookup_imap in Hc as (j & t & -> & _). discriminate.
Qed.

Lemma VerdictInv_handleClear s : VerdictInv s -> VerdictInv (handleClear s).
Proof.
  destruct (handleClear_host s) as (Eo & _).
  destruct (handleClear_view s)
    as (E1 & _ & E3 & _ & _ & _ & _ & _ & _ & _ & _ & _ & Et & _).
  apply VerdictInv_empty; assumption.
Qed.

Lemma VerdictInv_step s e : VerdictInv s -> VerdictInv (step s e).
Proof.
  intros H. destruct e; simpl.
  - revert H. apply VerdictInv_ext; reflexivity.
  - revert H. apply VerdictInv_ext; reflexivity.
  - apply VerdictInv_handleSubmit, H.
  - apply VerdictInv_handleClear, H.
  - revert H. apply VerdictInv_ext; reflexivity.
  - apply VerdictInv_flush, H.
  - destruct (tasks s !! i) as [t|] eqn:E; [|exact H].
    apply VerdictInv_setPhase, VerdictInv_push; [|exact H].
    apply (settledUpdate_verdict (item t) net).
    apply (verdict_tasks s H). eapply list_elem_of_lookup_2. exact E.
  - apply VerdictInv_setPhase, VerdictInv_onFinally, H.
Qed.

Lemma reachable_VerdictInv s : reachable s -> VerdictInv s.
Proof.
  induction 1 as [|s e _ IH _]; [|apply VerdictInv_step, IH].
  constructor; simpl.
  - intros t Ht. inversion Ht.
  - intros u Hu. inversion Hu.
  - intros t v Hv. rewrite lookup_empty in Hv. discriminate.
  - intros r c st Hr. inversion Hr.
  - intros r c Hr. inversion Hr.
Qed.




(** X28. In every reachable state the reason "Error during check" marks a
    check that was rejected: a buffered update or a cell that carries it
    has status Invalid, and its pair passes [isValidDomainFormat], so
    the reason comes from the [catch] handler and from nowhere else. *)
Theorem catch_handler_reason_marks_a_rejected_check (s : AppState) :
  reachable s ->
  (forall u, u ∈ pendingCellUpdatesRef s -> u_reason u = Some "Error during check" ->
     u_status u = INVALID
     /\ valid (isValidDomainFormat (u_baseName u +:+ "." +:+ u_tld u)) = true)
  /\ (forall r c, r ∈ gridResults s -> c ∈ r_tldResults (row r) ->
        c_reason c = Some (Text "Error during check") ->
        c_status c = INVALID
        /\ valid (isValidDomainFormat (r_baseName (row r) +:+ "." +:+ c_tld c)) = true).
Proof.
  intros Hs. pose proof (reachable_VerdictInv s Hs) as V.
  assert (Hv : forall b t st reason,
             verdict b t st reason -> reason = Some "Error during check" ->
             st = INVALID /\ valid (isValidDomainFormat (b +:+ "." +:+ t)) = true).
  { intros b t st reason [_ H] ->. cbv zeta in H.
    destruct (valid (isValidDomainFormat (b +:+ "." +:+ t))).
    - destruct H as [[_ H]|[H _]]; [contradiction | auto].
    - destruct H as [_ H]. symmetry in H. destruct (validator_reason_not_error _ H). }
  split.
  - intros u Hu E. exact (Hv _ _ _ _ (verdict_buffer s V u Hu) E).
  - intros r c Hr Hc E.
    destruct (c_status c) as [st| |u0] eqn:Hst.
    + destruct (decide (st = CHECKING)) as [->|Hn].
      * destruct (verdict_unset s V r c Hr Hc (or_introl Hst) _ E).
      * destruct (verdict_cells s V r c st Hr Hc Hst Hn) as (reason & Er & Hver).
        assert (Hreason : reason = Some "Error during check").
        { rewrite E in Er. destruct reason as [x|]; [|discriminate].
          simpl in Er. injection Er as <-. reflexivity. }
        destruct (Hv _ _ _ _ Hver Hreason) as [-> Hvalid]. split; [reflexivity | exact Hvalid].
    + exfalso. apply (verdict_unset s V r c Hr Hc) with (text := "Error during check"); [|exact E].
      right. unfold statusless. rewrite Hst. reflexivity.
    + exfalso. apply (verdict_unset s V r c Hr Hc) with (text := "Error during check"); [|exact E].
      right. unfold statusless. rewrite Hst. reflexivity.
Qed.

Lemma catch_handler_reason_marks_a_rejected_check_witness :
  c_status (mkCell "com" INVALID (Some (Text "Error during check")) "cell-0") = INVALID
  /\ valid (isValidDomainFormat "foo.com") = true.
Proof.
  destruct (catch_handler_reason_marks_a_rejected_check rejectedFinished) as [_ H].
  - unfold rejectedFinished.
    repeat (apply reachable_step; [|reflexivity]). apply reachable_init.
  - apply (H (mkObj 1 (mkRow "foo" [mkCell "com" INVALID (Some (Text "Error during check"))
                                      "cell-0"]))
             (mkCell "com" INVALID (Some (Text "Error during check")) "cell-0")).
    + vm_compute. left.
    + left.
    + reflexivity.
Defined.

(** ** The ceiling on combinations *)

(** X29. In every reachable state [totalChecksRef] is the number of cells
    of the grid, and the grid holds at most 50,000 cells. *)
Theorem grid_stays_under_the_ceiling (s : AppState) :
  reachable s ->
  totalChecksRef s = Z.of_nat (cellCount (gridResults s))
  /\ (Z.of_nat (cellCount (gridResults s)) <= 50000)%Z.
Proof.
  intros Hr. pose proof (reachable_GridInv s Hr) as G.
  rewrite (cellCount_rect _ _ (grid_rect s G)), <- (grid_total s G).
  split; [reflexivity | exact (grid_ceiling s G)].
Qed.

Lemma grid_stays_under_the_ceiling_witness :
  totalChecksRef fooSubmitted = Z.of_nat (cellCount (gridResults fooSubmitted))
  /\ (Z.of_nat (cellCount (gridResults fooSubmitted)) <= 50000)%Z.
Proof. exact (grid_stays_under_the_ceiling fooSubmitted fooSubmitted_reachable). Defined.

(** ** While an error message is up *)

Lemma ErrorView_ext s s' :
  gridResults s' = gridResults s -> parsedTldsForTable s' = parsedTldsForTable s ->
  isLoading s' = isLoading s -> timeTaken s' = timeTaken s ->
  totalChecksRef s' = totalChecksRef s -> completedChecksRef s' = completedChecksRef s ->
  ErrorView s -> ErrorView s'.
Proof. unfold ErrorView. intros -> -> -> -> -> ->. intros H; exact H. Qed.

Lemma ErrorView_flush s : ErrorView s -> ErrorView (flushPendingCellUpdates s).
Proof.
  intros (E1 & E2 & E3 & E4 & E5 & E6). pose proof (flush_length s) as F.
  destruct (flush_frame s) as (Fc & Ft & _ & _ & _ & Fl & Fm & _).
  destruct (flush_frame_view s) as (Fv & _).
  rewrite E1 in F. apply nil_length_inv in F.
  unfold ErrorView. rewrite F, Fv, Fl, Fm, Ft, Fc. repeat split; assumption.
Qed.

Lemma ErrorView_setPhase i p s : ErrorView s -> ErrorView (setPhase i p s).
Proof.
  destruct (setPhase_view i p s) as (E1 & E2 & _).
  destruct (setPhase_frame i p s) as (_ & _ & _ & E3 & E4 & E5 & E6).
  apply ErrorView_ext; assumption.
Qed.

Lemma ErrorView_onFinally now s : ErrorView s -> ErrorView (onFinally now s).
Proof.
  intros (E1 & E2 & E3 & E4 & E5 & E6). unfold onFinally. cbv zeta.
  change (completedChecksRef (set_completedChecksRef (completedChecksRef s + 1) s))
    with (completedChecksRef s + 1)%Z.
  change (totalChecksRef (set_completedChecksRef (completedChecksRef s + 1) s))
    with (totalChecksRef s).
  rewrite E5. destruct (Z.eqb_spec (completedChecksRef s + 1) 0); [lia|].
  unfold ErrorView. simpl. repeat split; try assumption. lia.
Qed.

Lemma errorMessage_step s e :
  enabled s e = true ->
  (is_Some (errorMessage (step s e)) -> ErrorView (step s e))
  \/ (errorMessage (step s e) = errorMessage s /\ (ErrorView s -> ErrorView (step s e))).
Proof.
  intros He. unfold enabled in He. apply andb_true_iff in He as [_ He].
  destruct e; cbn [step].
  - right. split; [reflexivity | apply ErrorView_ext; reflexivity].
  - right. split; [reflexivity | apply ErrorView_ext; reflexivity].
  - left. simpl in He. destruct (isLoading s) eqn:El; [discriminate|].
    destruct (handleSubmit_cases now ids s) as [(R & _)|(S & _)].
    + intros _. destruct R as (_ & E1 & E2 & _ & _ & _ & E3 & E4 & _ & E5 & _ & E6 & _).
      unfold ErrorView. rewrite E1, E2, E3, E4, E5, (E6 El). repeat split. lia.
    + destruct S as (E & _). rewrite E. intros [x Hx]. discriminate.
  - left. destruct (handleClear_view s) as (_ & _ & _ & _ & _ & _ & _ & _ & E & _).
    rewrite E. intros [x Hx]. discriminate.
  - right. split; [reflexivity | apply ErrorView_ext; reflexivity].
  - right. destruct (flush_frame_view s) as (_ & E & _). split; [exact E | apply ErrorView_flush].
  - right. destruct (tasks s !! i) as [t|]; [|auto].
    split.
    + unfold setPhase. simpl. destruct (_ !! i); reflexivity.
    + intros H. apply ErrorView_setPhase. revert H. apply ErrorView_ext; reflexivity.
  - right. split.
    + unfold setPhase. destruct (tasks (onFinally now s) !! i); simpl.
      all: unfold onFinally; cbv zeta;
        match goal with |- context [Z.eqb ?a ?b] => destruct (Z.eqb a b) end;
        [|reflexivity].
      all: match goal with |- context [flushPendingCellUpdates ?x] =>
             destruct (flush_frame_view x) as (_ & F & _); revert F;
             generalize (flushPendingCellUpdates x)
           end; intros s2 F;
        change (startTimeRef (set_isLoading false s2)) with (startTimeRef s2);
        destruct (startTimeRef s2) as [start|]; [destruct (start =? 0)%Z|];
        (etransitivity; [exact F|]);
        destruct (stop_frame_view (set_completedChecksRef (completedChecksRef s + 1) s))
          as (_ & _ & _ & _ & _ & _ & _ & _ & G); exact G.
    + intros H. apply ErrorView_setPhase, ErrorView_onFinally, H.
Qed.

Lemma fooRejected_reachable : reachable fooRejected.
Proof.
  unfold fooRejected.
  repeat (apply reachable_step; [|reflexivity]). apply reachable_init.
Qed.

(** X30. In every reachable state with an error message up, the grid and
    its header are empty, the loading flag is off, no elapsed time is
    shown and [totalChecksRef] is zero; checks of an earlier run that
    settle or finish meanwhile change none of this. *)
Theorem error_message_means_empty_table (s : AppState) :
  reachable s -> is_Some (errorMessage s) ->
  gridResults s = [] /\ parsedTldsForTable s = []
  /\ isLoading s = false /\ timeTaken s = None /\ totalChecksRef s = 0%Z.
Proof.
  intros Hr He.
  assert (H : ErrorView s).
  { revert He. induction Hr as [|s e Hr IH Hen].
    - intros [x Hx]. discriminate.
    - destruct (errorMessage_step s e Hen) as [H|[E H]]; [exact H|].
      rewrite E. intros He. apply H, IH, He. }
  destruct H as (E1 & E2 & E3 & E4 & E5 & _). auto.
Qed.

Lemma error_message_means_empty_table_witness :
  gridResults fooRejected = [] /\ parsedTldsForTable fooRejected = []
  /\ isLoading fooRejected = false /\ timeTaken fooRejected = None
  /\ totalChecksRef fooRejected = 0%Z.
Proof.
  apply (error_message_means_empty_table fooRejected fooRejected_reachable).
  vm_compute. eauto.
Defined.
